(** * ad-chroma: the per-collection vector index and its relational coordinator

    A shallow embedding of [db-index.ts] (class [DbIndex]) and of
    [sqlite-db.ts] (class [SqliteDb]), together with the properties of label
    assignment, soft deletion, search pre-processing, capacity growth and
    persistence, and of what the coordinator does to its tables.

    Conventions of the embedding.
    - A JavaScript object used as a dictionary is a [gmap]; a property that is
      absent reads as [None] (JavaScript's [undefined]).  The ids handled here
      are generated identifiers; names of [Object.prototype] members are not
      considered as ids.
    - A method that can throw returns the state it leaves behind together with
      a [Result]; the mutations made before the throw are kept, as in the
      source.
    - The native index ([HierarchicalNSW] of hnswlib-node) is an external
      capability.  Its bookkeeping (dimension, capacity, stored labels,
      deletion marks) is modelled by the record [Hnsw.t]; its approximate
      neighbour search is a parameter [searchKnn] of [search], about which
      nothing is assumed.
    - Numbers that the source treats as counts are [nat]; vector components,
      distances and the resize factor are rationals. *)

From Stdlib Require Import ZArith QArith Qround String List Lia.
From stdpp Require Import base option list gmap strings pretty sorting.

Local Open Scope nat_scope.

(** ** Errors and results *)

(** Faults raised by the native index. *)
Inductive HnswFault :=
| NotInitialized        (* the wrapper has no index yet *)
| InvalidArgument       (* an argument is not a number *)
| InvalidLength         (* a vector of the wrong length *)
| LabelNotFound
| AlreadyDeleted
| LimitExceeded         (* the number of elements exceeds the capacity *)
| CannotShrink          (* resize below the current number of elements *)
| FileNotReadable
| KnnFailure.           (* anything the neighbour search reports *)

Inductive Error :=
| IndexNotCreated                 (* "Index not created. Create one before searching" *)
| DimensionMismatch               (* "Dimension of ... does not match index dimension ..." *)
| DuplicateId (id : string)       (* "The id ... already exists in the index" *)
| RequestedCountExceedsAvailable  (* "Number of requested results ... cannot be greater than ..." *)
| TypeError                       (* a property read on null or undefined, a bad argument type *)
| HnswError (f : HnswFault)
| AlreadyExists (name : string)   (* "Collection with name ... already exists" *)
| NotFound
| OwnershipMismatch
| ConstraintViolation             (* PRIMARY KEY or UNIQUE violated in the relational store *)
| KnexError.                      (* an error raised inside a knex instance of its own *)

Inductive Result (A : Type) :=
| Ok (a : A)
| Err (e : Error).
Arguments Ok {A} a.
Arguments Err {A} e.

(** ** A state-and-exception monad

    [M S A] is a computation over a mutable state [S] that either returns an
    [A] or throws; in both cases the state reached so far is returned. *)

Definition M (S A : Type) : Type := S -> S * Result A.

Definition ret {S A} (a : A) : M S A := fun s => (s, Ok a).
Definition throw {S A} (e : Error) : M S A := fun s => (s, Err e).
Definition bind {S A B} (m : M S A) (f : A -> M S B) : M S B :=
  fun s => match m s with
           | (s', Ok a) => f a s'
           | (s', Err e) => (s', Err e)
           end.
Definition get {S} : M S S := fun s => (s, Ok s).
Definition put {S} (s' : S) : M S unit := fun _ => (s', Ok tt).

Notation "'let*' x := m 'in' k" := (bind m (fun x => k))
  (at level 10, x name, m at level 100, k at level 200).
Notation "m ;;; k" := (bind m (fun _ => k))
  (at level 100, k at level 200, right associativity).

(** A [for ... of] loop whose body may throw. *)
Fixpoint forEach {S A} (body : A -> M S unit) (l : list A) : M S unit :=
  match l with
  | [] => ret tt
  | a :: rest => body a ;;; forEach body rest
  end.

(** ** The native index (hnswlib-node's [HierarchicalNSW]) *)

Module Hnsw.

Record t := mk {
  initialized : bool;            (* [initIndex] or [readIndexSync] has run *)
  numDimensions : nat;
  maxElements : nat;             (* the capacity *)
  ef : nat;
  points : gmap nat (list Q);    (* label -> stored vector, tombstones included *)
  deleted : gset nat             (* labels marked deleted *)
}.

(** [new HierarchicalNSW("cosine", dim)] *)
Definition new (dim : nat) : t :=
  mk false dim 0 0 ∅ ∅.

Definition initIndex (n : nat) (h : t) : t :=
  mk true (numDimensions h) n (ef h) ∅ ∅.

Definition setEf (e : nat) (h : t) : t :=
  mk (initialized h) (numDimensions h) (maxElements h) e (points h) (deleted h).

Definition getNumDimensions (h : t) : nat := numDimensions h.

(** Stored elements, tombstones included. *)
Definition getCurrentCount (h : t) : nat :=
  if initialized h then size (points h) else 0.

Definition getMaxElements (h : t) : nat :=
  if initialized h then maxElements h else 0.

(** The argument is a JavaScript number, truncated to an integer by the
    binding. *)
Definition resizeIndex (newSize : Q) (h : t) : Result t :=
  if initialized h then
    let n := Z.to_nat (Qfloor newSize) in
    if n <? size (points h) then Err (HnswError CannotShrink)
    else Ok (mk true (numDimensions h) n (ef h) (points h) (deleted h))
  else Err (HnswError NotInitialized).

(** A label that is already stored has its vector overwritten (and its
    deletion mark cleared); a new label needs a free slot. *)
Definition addPoint (v : list Q) (label : option nat) (h : t) : Result t :=
  match label with
  | None => Err (HnswError InvalidArgument)
  | Some l =>
    if initialized h then
      if negb (length v =? numDimensions h) then Err (HnswError InvalidLength)
      else match points h !! l with
           | Some _ =>
             Ok (mk true (numDimensions h) (maxElements h) (ef h)
                    (<[l := v]> (points h)) (deleted h ∖ {[l]}))
           | None =>
             if maxElements h <=? size (points h) then Err (HnswError LimitExceeded)
             else Ok (mk true (numDimensions h) (maxElements h) (ef h)
                         (<[l := v]> (points h)) (deleted h))
           end
    else Err (HnswError NotInitialized)
  end.

Definition markDelete (label : option nat) (h : t) : Result t :=
  match label with
  | None => Err (HnswError InvalidArgument)
  | Some l =>
    if initialized h then
      match points h !! l with
      | None => Err (HnswError LabelNotFound)
      | Some _ =>
        if bool_decide (l ∈ deleted h) then Err (HnswError AlreadyDeleted)
        else Ok (mk true (numDimensions h) (maxElements h) (ef h)
                    (points h) ({[l]} ∪ deleted h))
      end
    else Err (HnswError NotInitialized)
  end.

Definition getPoint (l : nat) (h : t) : Result (list Q) :=
  match points h !! l with
  | Some v => Ok v
  | None => Err (HnswError LabelNotFound)
  end.

(** The type of the neighbour search: index, query, k, optional label
    predicate; it yields (label, distance) pairs or a fault. *)
Definition searchKnnT : Type :=
  t -> list Q -> nat -> option (nat -> bool) -> HnswFault + list (nat * Q).

End Hnsw.

(** ** The file system seen by the index *)

Record FileSystem := mkFs {
  dirs : gset string;
  files : gmap string Hnsw.t       (* path -> binary snapshot of an index *)
}.

Definition existsSync (p : string) (fs : FileSystem) : bool :=
  bool_decide (p ∈ dirs fs) || bool_decide (is_Some (files fs !! p)).

(** ** Types of [types/] *)

Record IndexConfig := mkIndexConfig {
  id : string;
  persistDirectory : string;
  numberOfDimensions : nat;
  maxElements : option nat;
  sizeOfDynamicListOfNearestNeighbors : option nat;
  indexResizeFactor : Q            (* the validator fills in 1 when it is absent *)
}.

Record IndexMetadata := mkIndexMetadata {
  elements : nat                   (* the cumulative counter *)
}.

Record IndexData := mkIndexData {
  data_id : string;
  embedding : list Q
}.

Record IndexSearchResult := mkHit {
  hit_id : option string;          (* [labelToId[label]], possibly undefined *)
  hit_distance : Q;
  hit_embedding : list Q
}.

Definition DEFAULT_MAX_ELEMENTS_IN_INDEX : nat := 1000.
Definition DEFAULT_SIZE_OF_DYNAMIC_LIST_OF_NEAREST_NEIGHBORS : nat := 10.

(** ** [DbIndex] (db-index.ts) *)

Record DbIndex := mkDbIndex {
  indexConfig : IndexConfig;
  _index : option Hnsw.t;                  (* null until initialised or loaded *)
  _indexMetadata : option IndexMetadata;   (* null until [initIndex] *)
  _saveFolder : option string;             (* undefined until [initIndex] *)
  idToLabel : gmap string nat;
  labelToId : gmap nat string
}.

(** An index object together with the disk it persists to. *)
Record World := mkWorld {
  self : DbIndex;
  disk : FileSystem
}.

Definition setSelf (f : DbIndex -> DbIndex) : M World unit :=
  fun w => (mkWorld (f (self w)) (disk w), Ok tt).

(** A template literal prints an undefined value as the word undefined. *)
Definition template (o : option string) : string :=
  match o with Some s => s | None => "undefined"%string end.

Definition indexSavePath (d : DbIndex) : string :=
  (template (_saveFolder d) +:+ "/index_" +:+ id (indexConfig d) +:+ ".bin")%string.

(** JavaScript truthiness of a label read from [idToLabel]: undefined and 0
    are falsy. *)
Definition truthy (o : option nat) : bool :=
  match o with
  | Some (S _) => true
  | _ => false
  end.

(** The cumulative counter, 0 while there is no metadata. *)
Definition counter (d : DbIndex) : nat :=
  match _indexMetadata d with Some md => elements md | None => 0 end.

(** [save()] *)
Definition save : M World unit :=
  fun w =>
    let d := self w in
    let mk_dir : Result FileSystem :=
      match _saveFolder d with
      | None => Err TypeError                       (* mkdirSync(undefined) *)
      | Some folder =>
        if existsSync folder (disk w) then Ok (disk w)
        else Ok (mkFs ({[folder]} ∪ dirs (disk w)) (files (disk w)))
      end in
    match mk_dir with
    | Err e => (w, Err e)
    | Ok fs =>
      match _index d with
      | None => (mkWorld d fs, Ok tt)
      | Some h =>
        if Hnsw.initialized h then
          (mkWorld d (mkFs (dirs fs) (<[indexSavePath d := h]> (files fs))), Ok tt)
        else (mkWorld d fs, Err (HnswError NotInitialized))
      end
    end.

(** [initIndex()] *)
Definition initIndex : M World unit :=
  let* w := get in
  let cfg := indexConfig (self w) in
  let h :=
    Hnsw.setEf
      (default DEFAULT_SIZE_OF_DYNAMIC_LIST_OF_NEAREST_NEIGHBORS
               (sizeOfDynamicListOfNearestNeighbors cfg))
      (Hnsw.initIndex (default DEFAULT_MAX_ELEMENTS_IN_INDEX (maxElements cfg))
                      (Hnsw.new (numberOfDimensions cfg))) in
  setSelf (fun d =>
    mkDbIndex (indexConfig d) (Some h) (Some (mkIndexMetadata 0))
              (Some (persistDirectory cfg +:+ "/index")%string)
              (idToLabel d) (labelToId d)) ;;;
  save.

(** [load()], run by the constructor while [_saveFolder] is still
    undefined. *)
Definition load (d : DbIndex) (fs : FileSystem) : DbIndex :=
  let indexSavePath := indexSavePath d in
  if negb (existsSync indexSavePath fs) then d
  else
    let cfg := indexConfig d in
    let fresh := Hnsw.new (numberOfDimensions cfg) in
    let efv := default DEFAULT_SIZE_OF_DYNAMIC_LIST_OF_NEAREST_NEIGHBORS
                       (sizeOfDynamicListOfNearestNeighbors cfg) in
    match files fs !! indexSavePath with
    | Some snap =>
      let h := Hnsw.mk true (numberOfDimensions cfg) (Hnsw.maxElements snap) efv
                       (Hnsw.points snap) (Hnsw.deleted snap) in
      mkDbIndex cfg (Some h) (_indexMetadata d) (_saveFolder d)
                (idToLabel d) (labelToId d)
    | None =>
      (* readIndexSync throws inside the un-awaited promise; the wrapper that
         was already assigned stays without an index *)
      mkDbIndex cfg (Some fresh) (_indexMetadata d) (_saveFolder d)
                (idToLabel d) (labelToId d)
    end.

(** [new DbIndex(indexConfig, logger)] *)
Definition constructor (indexConfig : IndexConfig) (fs : FileSystem) : DbIndex :=
  load (mkDbIndex indexConfig None None None ∅ ∅) fs.

(** Body of the first loop of [add]: a label for an unseen id. *)
Definition assignLabel (update : bool) (r : IndexData) : M DbIndex unit :=
  let* d := get in
  if truthy (idToLabel d !! data_id r) then
    if update then ret tt                    (* continue *)
    else throw (DuplicateId (data_id r))
  else
    match _indexMetadata d with
    | None => throw TypeError
    | Some md =>
      let nextLabel := elements md + 1 in
      put (mkDbIndex (indexConfig d) (_index d)
                     (Some (mkIndexMetadata nextLabel)) (_saveFolder d)
                     (<[data_id r := nextLabel]> (idToLabel d))
                     (<[nextLabel := data_id r]> (labelToId d)))
    end.

Definition assignLabels (indexData : list IndexData) (update : bool) : M DbIndex unit :=
  forEach (assignLabel update) indexData.

Definition setIndex (h : Hnsw.t) (d : DbIndex) : DbIndex :=
  mkDbIndex (indexConfig d) (Some h) (_indexMetadata d) (_saveFolder d)
            (idToLabel d) (labelToId d).

Definition Qmax (a b : Q) : Q := if Qle_bool a b then b else a.

(** The target of a resize: [Math.max(elements * indexResizeFactor, 1000)]. *)
Definition newSize (d : DbIndex) : Q :=
  Qmax (inject_Z (Z.of_nat (counter d)) * indexResizeFactor (indexConfig d))
       (inject_Z (Z.of_nat DEFAULT_MAX_ELEMENTS_IN_INDEX)).

(** The resize step of [add]. *)
Definition resizeStep : M DbIndex unit :=
  let* d := get in
  match _index d, _indexMetadata d with
  | Some h, Some md =>
    if Hnsw.getCurrentCount h <? elements md then
      match Hnsw.resizeIndex (newSize d) h with
      | Ok h' => put (setIndex h' d)
      | Err e => throw e
      end
    else ret tt
  | _, _ => throw TypeError
  end.

(** Body of the second loop of [add]: store the vector under its id's label. *)
Definition addPointOf (r : IndexData) : M DbIndex unit :=
  let* d := get in
  match _index d with
  | None => throw TypeError
  | Some h =>
    match Hnsw.addPoint (embedding r) (idToLabel d !! data_id r) h with
    | Ok h' => put (setIndex h' d)
    | Err e => throw e
    end
  end.

Definition addPoints (indexData : list IndexData) : M DbIndex unit :=
  forEach addPointOf indexData.

(** Runs a computation on the index object, leaving the disk alone. *)
Definition onSelf {A} (m : M DbIndex A) : M World A :=
  fun w => match m (self w) with (d, r) => (mkWorld d (disk w), r) end.

(** [add(indexData, update)] *)
Definition add (indexData : list IndexData) (update : bool) : M World unit :=
  match indexData with
  | [] => throw TypeError                    (* indexData[0].embedding *)
  | r0 :: _ =>
    let dimension := length (embedding r0) in
    let* w := get in
    (match _index (self w) with
     | None => initIndex
     | Some _ => ret tt
     end) ;;;
    let* w := get in
    match _index (self w) with
    | None => throw TypeError
    | Some h =>
      if negb (dimension =? Hnsw.getNumDimensions h) then throw DimensionMismatch
      else
        onSelf (assignLabels indexData update) ;;;
        onSelf resizeStep ;;;
        onSelf (addPoints indexData) ;;;
        save
    end
  end.

(** Body of the loop of [delete]. *)
Definition deleteOne (i : string) : M DbIndex unit :=
  let* d := get in
  let label := idToLabel d !! i in
  match _index d with
  | None => throw TypeError
  | Some h =>
    match Hnsw.markDelete label h with
    | Err e => throw e
    | Ok h' =>
      put (mkDbIndex (indexConfig d) (Some h') (_indexMetadata d) (_saveFolder d)
                     (delete i (idToLabel d))
                     (match label with
                      | Some l => delete l (labelToId d)
                      | None => labelToId d
                      end))
    end
  end.

Definition deleteLoop (ids : list string) : M DbIndex unit :=
  forEach deleteOne ids.

(** [delete(ids)] *)
Definition delete_ (ids : list string) : M World unit :=
  onSelf (deleteLoop ids) ;;; save.

(** *** [search] *)

(** The labels named by an id filter, as the source collects them: the value
    read from [idToLabel] for each id, undefined included. *)
Definition resolveLabels (d : DbIndex) (ids : list string) : gset (option nat) :=
  list_to_set ((fun i => idToLabel d !! i) <$> ids).

(** Pre-processing: the label set and the clamped k. *)
Definition preprocess (d : DbIndex) (k : nat) (ids : list string)
  : nat * gset (option nat) :=
  match ids with
  | [] => (k, ∅)
  | _ :: _ =>
    let labels := resolveLabels d ids in
    (if size labels <? k then size labels else k, labels)
  end.

Definition filterFn (labels : gset (option nat)) : option (nat -> bool) :=
  if size labels =? 0 then None
  else Some (fun lbl => bool_decide (Some lbl ∈ labels)).

(** Post-processing: each neighbour label becomes a hit. *)
Fixpoint hydrate (d : DbIndex) (h : Hnsw.t) (neighbors : list (nat * Q))
  : Result (list IndexSearchResult) :=
  match neighbors with
  | [] => Ok []
  | (neighborLabel, dist) :: rest =>
    match Hnsw.getPoint neighborLabel h with
    | Err e => Err e
    | Ok v =>
      match hydrate d h rest with
      | Err e => Err e
      | Ok hits => Ok (mkHit (labelToId d !! neighborLabel) dist v :: hits)
      end
    end
  end.

(** [Array.prototype.sort] with [(a, b) => a.distance - b.distance]: stable,
    ascending. *)
Fixpoint insertHit (x : IndexSearchResult) (l : list IndexSearchResult)
  : list IndexSearchResult :=
  match l with
  | [] => [x]
  | y :: t =>
    if Qle_bool (hit_distance x) (hit_distance y) then x :: y :: t
    else y :: insertHit x t
  end.

Definition sortHits (l : list IndexSearchResult) : list IndexSearchResult :=
  foldr insertHit [] l.

Definition postprocess (d : DbIndex) (h : Hnsw.t)
    (r : HnswFault + list (nat * Q)) : Result (list IndexSearchResult) :=
  match r with
  | inl f => Err (HnswError f)
  | inr neighbors =>
    match hydrate d h neighbors with
    | Err e => Err e
    | Ok hits => Ok (sortHits hits)
    end
  end.

(** [search(query, k, ids)]; it does not change the index. *)
Definition search (searchKnn : Hnsw.searchKnnT) (d : DbIndex)
    (query : list Q) (k : nat) (ids : list string)
  : Result (list IndexSearchResult) :=
  match _index d with
  | None => Err IndexNotCreated
  | Some h =>
    if negb (length query =? Hnsw.getNumDimensions h) then Err DimensionMismatch
    else
      match _indexMetadata d with
      | None => Err TypeError
      | Some md =>
        if elements md <? k then Err RequestedCountExceedsAvailable
        else
          let '(k', labels) := preprocess d k ids in
          postprocess d h (searchKnn h query k' (filterFn labels))
      end
  end.

(** *** Histories of an index *)

Inductive Op :=
| OpAdd (indexData : list IndexData) (update : bool)
| OpDelete (ids : list string).

(** The state an operation leaves, whether it returned or threw. *)
Definition step (w : World) (o : Op) : World :=
  match o with
  | OpAdd indexData update => fst (add indexData update w)
  | OpDelete ids => fst (delete_ ids w)
  end.

Definition run (ops : list Op) (w : World) : World := fold_left step ops w.

(** A freshly constructed index on some disk. *)
Definition fresh (cfg : IndexConfig) (fs : FileSystem) : World :=
  mkWorld (constructor cfg fs) fs.

Definition reachable (w : World) : Prop :=
  exists cfg fs ops, w = run ops (fresh cfg fs).

(** Labels marked deleted in the native index. *)
Definition tombstones (d : DbIndex) : gset nat :=
  match _index d with Some h => Hnsw.deleted h | None => ∅ end.

(** Labels the native index holds, live or tombstoned. *)
Definition stored (d : DbIndex) (l : nat) : Prop :=
  exists h, _index d = Some h /\ (is_Some (Hnsw.points h !! l) \/ l ∈ Hnsw.deleted h).

(** A label is occupied when some id maps to it or the native index holds it. *)
Definition occupied (d : DbIndex) (l : nat) : Prop :=
  (exists i, idToLabel d !! i = Some l) \/ stored d l.

(** An id is live when it has a label. *)
Definition live (d : DbIndex) (i : string) : Prop := is_Some (idToLabel d !! i).

(** The live labels an id filter names, in the words of the specification:
    ids without a live label contribute nothing. *)
Definition namedLiveLabels (d : DbIndex) (ids : list string) : gset nat :=
  list_to_set (omap (fun i => idToLabel d !! i) ids).

(** The number of live elements: ids that currently have a label. *)
Definition liveCount (d : DbIndex) : nat := size (idToLabel d).

(** The ids an operation inserts. *)
Definition addsId (o : Op) (i : string) : Prop :=
  match o with
  | OpAdd indexData _ => i ∈ (data_id <$> indexData)
  | OpDelete _ => False
  end.

(** ** [SqliteDb] (sqlite-db.ts)

    The relational store is the external capability behind knex: the two
    tables of the database file, held here as lists of rows.  Stringified
    columns are kept as the values they encode. *)

Record CollectionRowMetadata := mkMetadata {
  md_numberOfDimensions : nat;
  md_maxElements : option nat;
  md_sizeOfDynamicListOfNearestNeighbors : option nat;
  md_indexResizeFactor : option Q
}.

Record CollectionRow := mkCollectionRow {
  row_id : string;
  row_name : string;
  row_metadata : CollectionRowMetadata
}.

(** Modelled from the spec: types/embedding-row.ts is not among the sources;
    the fields are the columns of the embeddings table ("embeddings(id PK,
    collectionId, embedding, document, documentId, arg1, arg2, arg3)"). *)
Record EmbeddingRow := mkEmbeddingRow {
  emb_id : string;                 (* PRIMARY KEY *)
  emb_collectionId : string;
  emb_embedding : list Q;
  emb_document : option string;
  emb_documentId : option string;
  emb_arg1 : option string;
  emb_arg2 : option string;
  emb_arg3 : option string
}.

(** Modelled from the spec: types/embedding-input.ts is not among the
    sources; the fields are those [updateEmbedding] destructures, each
    optional but the collection name. *)
Record EmbeddingInput := mkEmbeddingInput {
  collectionName : string;
  in_document : option string;
  in_documentId : option string;
  in_embedding : option (list Q);
  in_arg1 : option string;
  in_arg2 : option string;
  in_arg3 : option string
}.

Record SqliteDb := mkSqliteDb {
  db_persistDirectory : string;
  collections : list CollectionRow;
  embeddings : list EmbeddingRow;
  _indexCache : option (gmap string DbIndex);   (* declared, never assigned by the constructor *)
  db_disk : FileSystem
}.

(** [new SqliteDb(dbConfig, logger)] over a disk and a database file whose
    two tables hold the rows [cs] and [es].  The constructor assigns
    [_validator] and [_knex] and nothing else. *)
Definition newSqliteDb (persistDirectory : string) (cs : list CollectionRow)
    (es : list EmbeddingRow) (fs : FileSystem) : SqliteDb :=
  mkSqliteDb persistDirectory cs es None fs.

(** [getCollectionById]: [.where("id", collectionId).first()] *)
Definition getCollectionById (db : SqliteDb) (collectionId : string)
  : option CollectionRow :=
  List.find (fun r => bool_decide (row_id r = collectionId)) (collections db).

(** [getCollectionByName]: [.where("id", collectionName).first()] *)
Definition getCollectionByName (db : SqliteDb) (collectionName : string)
  : option CollectionRow :=
  List.find (fun r => bool_decide (row_id r = collectionName)) (collections db).

(** [getEmbeddingById]: [.where("id", embeddingId).first()] *)
Definition getEmbeddingById (db : SqliteDb) (embeddingId : string)
  : option EmbeddingRow :=
  List.find (fun r => bool_decide (emb_id r = embeddingId)) (embeddings db).

(** [knex<CollectionRow>(COLLECTIONS_TABLE_NAME).insert(dataToInsert)]: the
    call goes to the imported [knex] factory, not to [this._knex].  The
    factory makes an instance of its own from the string it is given, so
    whatever the insert does, it does not reach the tables of this database.
    Whether the awaited call resolves or throws is the library's matter:
    [factoryResolves] is that answer. *)
Definition insertCollection (factoryResolves : bool) (row : CollectionRow)
  : M SqliteDb unit :=
  if factoryResolves then ret tt else throw KnexError.

Definition indexConfigOf (db : SqliteDb) (collectionId : string)
    (md : CollectionRowMetadata) : IndexConfig :=
  mkIndexConfig collectionId (db_persistDirectory db)
                (md_numberOfDimensions md) (md_maxElements md)
                (md_sizeOfDynamicListOfNearestNeighbors md)
                (default 1%Q (md_indexResizeFactor md)).

Definition setCache (cache : gmap string DbIndex) (db : SqliteDb) : SqliteDb :=
  mkSqliteDb (db_persistDirectory db) (collections db) (embeddings db)
             (Some cache) (db_disk db).

(** [createIndexForCollection(collectionId)] *)
Definition createIndexForCollection (collectionId : string) : M SqliteDb DbIndex :=
  fun db =>
    match _indexCache db with
    | None => (db, Err TypeError)            (* this._indexCache[collectionId] *)
    | Some cache =>
      match cache !! collectionId with
      | Some index => (db, Ok index)
      | None =>
        match getCollectionById db collectionId with
        | None => (db, Err NotFound)
        | Some collectionRow =>
          let index := constructor (indexConfigOf db collectionId
                                                  (row_metadata collectionRow))
                                   (db_disk db) in
          (setCache (<[collectionId := index]> cache) db, Ok index)
        end
      end
    end.

(** [createCollection(name, metadata, getOrCreate)]; [generated] is the
    identifier [shortUUID.generate()] yields for this call and
    [factoryResolves] the answer of the insert it issues. *)
Definition createCollection (name : string) (metadata : CollectionRowMetadata)
    (getOrCreate : bool) (generated : string) (factoryResolves : bool)
  : M SqliteDb CollectionRow :=
  let* db := get in
  match getCollectionByName db name with
  | Some existingCollection =>
    if getOrCreate then ret existingCollection
    else throw (AlreadyExists name)
  | None =>
    let dataToInsert := mkCollectionRow generated name metadata in
    insertCollection factoryResolves dataToInsert ;;;
    createIndexForCollection generated ;;;
    ret dataToInsert
  end.

(** A column is written only when the update gives it a value. *)
Definition setColumn {A} (new : option A) (old : option A) : option A :=
  match new with Some v => Some v | None => old end.

(** The object passed to [.update(...)], applied to one row. *)
Definition updateRow (input : EmbeddingInput) (r : EmbeddingRow) : EmbeddingRow :=
  mkEmbeddingRow (emb_id r) (emb_collectionId r)
    (match in_embedding input with
     | Some (x :: v) => x :: v
     | _ => emb_embedding r
     end)
    (setColumn (in_document input) (emb_document r))
    (setColumn (in_documentId input) (emb_documentId r))
    (setColumn (in_arg1 input) (emb_arg1 r))
    (setColumn (in_arg2 input) (emb_arg2 r))
    (setColumn (in_arg3 input) (emb_arg3 r)).

(** The transaction body of [updateEmbedding]: the index write, then
    [trx(EMBEDDINGS_TABLE_NAME).update(...)], which carries no [where]. *)
Definition updateTransaction (collectionId embeddingId : string)
    (input : EmbeddingInput) : M SqliteDb unit :=
  fun db =>
    match _indexCache db with
    | None => (db, Err TypeError)
    | Some cache =>
      match cache !! collectionId, in_embedding input with
      | None, _ => (db, Err TypeError)               (* index.add on undefined *)
      | Some _, None => (db, Err TypeError)          (* indexData[0].embedding.length *)
      | Some index, Some v =>
        match add [mkIndexData embeddingId v] true (mkWorld index (db_disk db)) with
        | (w, Err e) =>
          (mkSqliteDb (db_persistDirectory db) (collections db) (embeddings db)
                      (Some (<[collectionId := self w]> cache)) (disk w), Err e)
        | (w, Ok _) =>
          (mkSqliteDb (db_persistDirectory db) (collections db)
                      (updateRow input <$> embeddings db)
                      (Some (<[collectionId := self w]> cache)) (disk w), Ok tt)
        end
      end
    end.

(** [updateEmbedding(input)] with [input.embeddingId = embeddingId]. *)
Definition updateEmbedding (embeddingId : string) (input : EmbeddingInput)
  : M SqliteDb unit :=
  let* db := get in
  match getCollectionByName db (collectionName input) with
  | None => throw NotFound
  | Some collection =>
    match getEmbeddingById db embeddingId with
    | None => throw NotFound
    | Some embeddingFromDb =>
      if negb (bool_decide (emb_collectionId embeddingFromDb = row_id collection))
      then throw OwnershipMismatch
      else updateTransaction (row_id collection) embeddingId input
    end
  end.

(** ** Invariant of an index object and what an operation may change *)

Record Inv (d : DbIndex) : Prop := mkInv {
  (* the two dictionaries are inverse to each other *)
  inv_inverse : forall i l, idToLabel d !! i = Some l <-> labelToId d !! l = Some i;
  (* labels come from the counter, which starts at 1 *)
  inv_label_range : forall i l, idToLabel d !! i = Some l -> 1 <= l <= counter d;
  (* once the object counts, the native index holds labels of the counter only *)
  inv_stored_range : forall h md l,
      _index d = Some h -> _indexMetadata d = Some md ->
      is_Some (Hnsw.points h !! l) \/ l ∈ Hnsw.deleted h -> l <= elements md;
  (* no id maps to a tombstoned label *)
  inv_tombstone_free : forall h i l,
      _index d = Some h -> idToLabel d !! i = Some l -> l ∉ Hnsw.deleted h;
  inv_no_index : _index d = None -> _indexMetadata d = None;
  inv_no_meta : _indexMetadata d = None -> _saveFolder d = None
}.

Record Trans (d d' : DbIndex) : Prop := mkTrans {
  tr_counter : counter d <= counter d';
  tr_tombstones : tombstones d ⊆ tombstones d';
  tr_labels : forall i l,
      idToLabel d' !! i = Some l -> idToLabel d !! i = Some l \/ counter d < l
}.

(** What a step of [add] keeps: the invariant, the order of states, and an
    index that was loaded without metadata as it is. *)
Definition Keeps (d d' : DbIndex) : Prop :=
  Inv d -> Inv d' /\ Trans d d' /\
           (is_Some (_index d) -> _indexMetadata d = None -> d' = d).

(** What a body of [delete] keeps: the counter stands still and the
    dictionaries only lose entries. *)
Definition DelKeeps (d d' : DbIndex) : Prop :=
  Inv d ->
  Inv d' /\ counter d' = counter d /\ tombstones d ⊆ tombstones d' /\
  (forall i l, idToLabel d' !! i = Some l -> idToLabel d !! i = Some l) /\
  (forall l i, labelToId d' !! l = Some i -> labelToId d !! l = Some i) /\
  (is_Some (_index d) -> _indexMetadata d = None -> d' = d).

(** An id without a label still has none afterwards. *)
Definition StaysUnmapped (i : string) (d d' : DbIndex) : Prop :=
  idToLabel d !! i = None -> idToLabel d' !! i = None.

(** ** A reference neighbour search

    An exact search by squared Euclidean distance over the live labels that
    pass the predicate; it serves to run [search] on concrete indexes. *)

Definition sqdist (a b : list Q) : Q :=
  fold_right Qplus 0%Q (zip_with (fun x y => (x - y) * (x - y))%Q a b).

Fixpoint insertPair (x : nat * Q) (l : list (nat * Q)) : list (nat * Q) :=
  match l with
  | [] => [x]
  | y :: t => if Qle_bool (snd x) (snd y) then x :: y :: t else y :: insertPair x t
  end.

Definition exactKnn : Hnsw.searchKnnT :=
  fun h q k f =>
    if Hnsw.initialized h then
      let cands :=
        List.filter (fun p => negb (bool_decide (fst p ∈ Hnsw.deleted h))
                              && match f with Some g => g (fst p) | None => true end)
                    (map_to_list (Hnsw.points h)) in
      inr (take k (foldr insertPair [] ((fun p => (fst p, sqdist q (snd p))) <$> cands)))
    else inl NotInitialized.

(** ** Example states *)

Definition cfg0 : IndexConfig := mkIndexConfig "c1" "/data" 3 None None 1%Q.
Definition fs0 : FileSystem := mkFs ∅ ∅.
Definition rec_a : IndexData := mkIndexData "a" [1; 0; 0]%Q.
Definition rec_b : IndexData := mkIndexData "b" [0; 1; 0]%Q.
Definition rec_c : IndexData := mkIndexData "c" [0; 0; 1]%Q.

(** Three records inserted into a fresh index on an empty disk. *)
Definition w_abc : World := run [OpAdd [rec_a; rec_b; rec_c] false] (fresh cfg0 fs0).
(** ... then "a" deleted ... *)
Definition w_bc : World := run [OpDelete ["a"%string]] w_abc.
(** ... then "a" inserted again. *)
Definition w_bca : World := run [OpAdd [rec_a] false] w_bc.


(** The dimensionality [add] compares the first vector with: that of the
    native index, which a missing index gets from the configuration. *)
Definition indexDimension (d : DbIndex) : nat :=
  match _index d with
  | Some h => Hnsw.getNumDimensions h
  | None => numberOfDimensions (indexConfig d)
  end.




(** The metadata of a three-dimensional collection. *)
Definition md3 : CollectionRowMetadata := mkMetadata 3 None None None.

(** A database file with one collection and two embeddings of it, as the
    constructor opens it. *)
Definition emb1 : EmbeddingRow :=
  mkEmbeddingRow "e1" "c1" [1; 0; 0]%Q (Some "one"%string) None None None None.
Definition emb2 : EmbeddingRow :=
  mkEmbeddingRow "e2" "c1" [0; 1; 0]%Q (Some "two"%string) None None None None.
Definition db_file : SqliteDb :=
  newSqliteDb "/data" [mkCollectionRow "c1" "docs" md3] [emb1; emb2] fs0.

(** A database file with two collections. *)
Definition db_two : SqliteDb :=
  newSqliteDb "/data" [mkCollectionRow "c1" "docs" md3; mkCollectionRow "c2" "notes" md3]
              [] fs0.

(** An update of "e1": a new vector and a new document text. *)
Definition input_e1 : EmbeddingInput :=
  mkEmbeddingInput "c1" (Some "new"%string) None (Some [0; 0; 1]%Q) None None None.

(** ** What an index that has initialised itself looks like *)

Record Ready (d : DbIndex) : Prop := mkReady {
  (* the native index exists, is initialised and has the configured dimension *)
  rd_index : forall md, _indexMetadata d = Some md ->
      exists h, _index d = Some h /\ Hnsw.initialized h = true /\
                Hnsw.numDimensions h = numberOfDimensions (indexConfig d);
  (* every stored vector has that dimension *)
  rd_vectors : forall md h l v,
      _indexMetadata d = Some md -> _index d = Some h ->
      Hnsw.points h !! l = Some v -> length v = Hnsw.numDimensions h;
  (* the native index never holds more than its capacity *)
  rd_capacity : forall md h,
      _indexMetadata d = Some md -> _index d = Some h ->
      size (Hnsw.points h) <= Hnsw.maxElements h;
  (* snapshots go to the index folder of the persist directory *)
  rd_folder : forall md, _indexMetadata d = Some md ->
      _saveFolder d = Some (persistDirectory (indexConfig d) +:+ "/index")%string
}.

(** What a step keeps of [Ready]: readiness, the configuration, and the
    presence of metadata. *)
Definition KeepsReady (d d' : DbIndex) : Prop :=
  indexConfig d' = indexConfig d /\
  (is_Some (_indexMetadata d) -> is_Some (_indexMetadata d')) /\
  (Ready d -> Ready d').

(** The path snapshots of a configuration are written to. *)
Definition snapshotPath (cfg : IndexConfig) : string :=
  ((persistDirectory cfg +:+ "/index") +:+ "/index_" +:+ id cfg +:+ ".bin")%string.

(** The path the constructor reads, whatever the configuration's folder. *)
Definition loadPath (cfg : IndexConfig) : string :=
  ("undefined" +:+ "/index_" +:+ id cfg +:+ ".bin")%string.

(** Hits in ascending order of distance. *)
Definition ascending (a b : IndexSearchResult) : Prop :=
  (hit_distance a <= hit_distance b)%Q.

(** The hit the post-processing makes of one neighbour. *)
Definition hitOf (d : DbIndex) (h : Hnsw.t) (p : nat * Q) (y : IndexSearchResult) : Prop :=
  hit_id y = labelToId d !! fst p /\ hit_distance y = snd p /\
  Hnsw.points h !! fst p = Some (hit_embedding y).

(** The memory of the object outside the native index. *)
Definition sameBooks (d d' : DbIndex) : Prop :=
  idToLabel d' = idToLabel d /\ labelToId d' = labelToId d /\
  _indexMetadata d' = _indexMetadata d /\ _saveFolder d' = _saveFolder d /\
  indexConfig d' = indexConfig d.

(** Label 0 is not among the stored labels. *)
Definition NoZero (d : DbIndex) : Prop :=
  forall md h, _indexMetadata d = Some md -> _index d = Some h ->
               Hnsw.points h !! 0 = None.

Definition KeepsNoZero (d d' : DbIndex) : Prop :=
  Keeps d d' /\ (Inv d -> NoZero d -> NoZero d').

(** Some id of the filter has no label. *)
Definition hasUnknownId (d : DbIndex) (ids : list string) : bool :=
  bool_decide (Exists (fun i => idToLabel d !! i = None) ids).

(** ** Removing the index ([dropIndex]) *)

Inductive FsFault :=
| ERR_INVALID_ARG_TYPE      (* the path is undefined *)
| ENOENT                    (* nothing at the path *)
| ENOTDIR                   (* a file at the path *)
| ENOTEMPTY.                (* the directory has entries *)

(** A path lies in a folder when it continues the folder's path after a
    separator. *)
Definition inFolder (folder p : string) : bool :=
  String.prefix (folder +:+ "/") p.

Definition isEmptyDir (folder : string) (fs : FileSystem) : bool :=
  bool_decide (map_Forall (fun p _ => inFolder folder p = false) (files fs))
  && bool_decide (set_Forall (fun p => inFolder folder p = false) (dirs fs)).

(** [rmdirSync(path)], without the recursive option. *)
Definition rmdirSync (path : option string) (fs : FileSystem) : FsFault + FileSystem :=
  match path with
  | None => inl ERR_INVALID_ARG_TYPE
  | Some folder =>
    if bool_decide (folder ∈ dirs fs) then
      if isEmptyDir folder fs then inr (mkFs (dirs fs ∖ {[folder]}) (files fs))
      else inl ENOTEMPTY
    else if bool_decide (is_Some (files fs !! folder)) then inl ENOTDIR
    else inl ENOENT
  end.

(** [dropIndex()] *)
Definition dropIndex (w : World) : World * (FsFault + unit) :=
  let reset (d : DbIndex) :=
    mkDbIndex (indexConfig d) None (_indexMetadata d) (_saveFolder d) ∅ ∅ in
  match _index (self w) with
  | Some _ =>
    match rmdirSync (_saveFolder (self w)) (disk w) with
    | inl f => (w, inl f)
    | inr fs => (mkWorld (reset (self w)) fs, inr tt)
    end
  | None => (mkWorld (reset (self w)) (disk w), inr tt)
  end.

(** ** What a call does to the disk *)

Record DiskKeeps (w w' : World) : Prop := mkDiskKeeps {
  (* files are never removed *)
  dk_grow : forall p, is_Some (files (disk w) !! p) -> is_Some (files (disk w') !! p);
  (* a file is written only at the snapshot path of the object *)
  dk_write : forall p,
      (is_Some (_saveFolder (self w')) -> p <> indexSavePath (self w')) ->
      files (disk w') !! p = files (disk w) !! p;
  (* the folder, once set, stays *)
  dk_folder : is_Some (_saveFolder (self w)) ->
              _saveFolder (self w') = _saveFolder (self w);
  dk_config : indexConfig (self w') = indexConfig (self w);
  (* metadata appears together with a first snapshot *)
  dk_first : _indexMetadata (self w) = None -> is_Some (_indexMetadata (self w')) ->
             is_Some (_saveFolder (self w')) /\
             is_Some (files (disk w') !! indexSavePath (self w'))
}.

(** What a world keeps: the invariant of the object and the discipline of the
    disk, for an object that satisfies the invariant. *)
Definition WorldKeeps (w w' : World) : Prop :=
  Keeps (self w) (self w') /\ (Inv (self w) -> DiskKeeps w w').

(** The snapshot of an object that has metadata is on the disk. *)
Definition Snapshotted (w : World) : Prop :=
  is_Some (_indexMetadata (self w)) ->
  is_Some (_saveFolder (self w)) /\
  is_Some (files (disk w) !! indexSavePath (self w)).

(** ** The guard of the resize in [add] *)

(** The world in which [add] runs its loops: lazy initialisation has taken
    place if the object had no native index. *)
Definition entered (w : World) : World :=
  match _index (self w) with
  | Some _ => w
  | None => fst (initIndex w)
  end.


(** ** Ids that name members of [Object.prototype]

    [idToLabel] is a plain object: read at one of these names it yields the
    inherited member, not [undefined].  The dictionaries of the model hold
    own properties only, so a statement about what the code does with ids
    that need not have a label is made for the ids that are none of these
    names. *)
Definition inheritedNames : list string :=
  ["constructor"; "__proto__"; "hasOwnProperty"; "isPrototypeOf";
   "propertyIsEnumerable"; "toLocaleString"; "toString"; "valueOf";
   "__defineGetter__"; "__defineSetter__"; "__lookupGetter__";
   "__lookupSetter__"]%string.

Definition plainId (i : string) : Prop := i ∉ inheritedNames.

(** ** More of [SqliteDb] *)

(** [listCollections()] *)
Definition listCollections (db : SqliteDb) : list CollectionRow := collections db.

(** [validateCollectionRowMetadata(metadata)].  The callers discard what the
    check answers; what stays is the default the schema declares for
    [indexResizeFactor], which the validator writes into the object it is
    given. *)
Definition validateCollectionRowMetadata (metadata : CollectionRowMetadata)
  : CollectionRowMetadata :=
  mkMetadata (md_numberOfDimensions metadata) (md_maxElements metadata)
             (md_sizeOfDynamicListOfNearestNeighbors metadata)
             (Some (default 1%Q (md_indexResizeFactor metadata))).

(** An UPDATE of every row of the collections table (the statement carries no
    [where]).  The CREATE statement of the source for this table does not
    parse, so the table is the one the database file brings; [unique] says
    whether it enforces the UNIQUE constraint on the name which that
    statement asks for.  If it does, the update is refused when the rows it
    produces break it. *)
Definition updateAllCollections (unique : bool) (name : string)
    (metadata : CollectionRowMetadata) : M SqliteDb nat :=
  fun db =>
    let rows := (fun r => mkCollectionRow (row_id r) name metadata) <$> collections db in
    if unique && negb (bool_decide (NoDup (row_name <$> rows))) then
      (db, Err ConstraintViolation)
    else
      (mkSqliteDb (db_persistDirectory db) rows (embeddings db)
                  (_indexCache db) (db_disk db), Ok (length rows)).

(** JavaScript falsiness of an optional string: undefined and the empty
    string. *)
Definition falsyString (o : option string) : bool :=
  match o with
  | None => true
  | Some s => bool_decide (s = ""%string)
  end.

(** [updateCollection(currentName, newName, newMetadata)]; it resolves to
    the number of rows updated. *)
Definition updateCollection (unique : bool) (currentName : string)
    (newName : option string) (newMetadata : option CollectionRowMetadata)
  : M SqliteDb nat :=
  let* db := get in
  match getCollectionByName db currentName with
  | None => throw NotFound
  | Some currentCollection =>
    let newName := if falsyString newName then currentName
                   else default currentName newName in
    let newMetadata := default (row_metadata currentCollection) newMetadata in
    updateAllCollections unique newName (validateCollectionRowMetadata newMetadata)
  end.

(** What the coordinator can answer beyond the errors of [Error]. *)
Inductive Outcome (A : Type) :=
| Returned (a : A)
| Threw (e : Error)
| MissingIndex              (* "Cannot insert data to missing index." *)
| UndefinedBinding.         (* knex refuses an undefined value in a where *)
Arguments Returned {A} a.
Arguments Threw {A} e.
Arguments MissingIndex {A}.
Arguments UndefinedBinding {A}.

(** An insert into the embeddings table under its PRIMARY KEY. *)
Definition insertEmbedding (row : EmbeddingRow) : M SqliteDb unit :=
  fun db =>
    if existsb (fun r => bool_decide (emb_id r = emb_id row)) (embeddings db)
    then (db, Err ConstraintViolation)
    else (mkSqliteDb (db_persistDirectory db) (collections db)
                     (embeddings db ++ [row]) (_indexCache db) (db_disk db), Ok tt).

(** The index of a collection after a call on it, put back with its disk. *)
Definition withIndex (collectionId : string) (cache : gmap string DbIndex)
    (w : World) (db : SqliteDb) : SqliteDb :=
  mkSqliteDb (db_persistDirectory db) (collections db) (embeddings db)
             (Some (<[collectionId := self w]> cache)) (disk w).

(** [addEmbeddingToCollection(input)]; [generated] is the identifier
    [shortUUID.generate()] yields for the new row. *)
Definition addEmbeddingToCollection (input : EmbeddingInput) (generated : string)
    (db : SqliteDb) : SqliteDb * Outcome string :=
  match getCollectionByName db (collectionName input) with
  | None => (db, Threw NotFound)
  | Some collection =>
    match in_embedding input with
    | None => (db, Threw TypeError)                    (* embedding.toString() *)
    | Some embedding =>
      let dataToInsert :=
        mkEmbeddingRow generated (row_id collection) embedding
                       (in_document input) (in_documentId input)
                       (in_arg1 input) (in_arg2 input) (in_arg3 input) in
      match _indexCache db with
      | None => (db, Threw TypeError)
      | Some cache =>
        match cache !! row_id collection with
        | None => (db, MissingIndex)
        | Some index =>
          match add [mkIndexData generated embedding] false
                    (mkWorld index (db_disk db)) with
          | (w, Err e) => (withIndex (row_id collection) cache w db, Threw e)
          | (w, Ok _) =>
            match insertEmbedding dataToInsert
                    (withIndex (row_id collection) cache w db) with
            | (db', Err e) => (db', Threw e)
            | (db', Ok _) => (db', Returned generated)
            end
          end
        end
      end
    end
  end.

(** The transaction body of [deleteEmbedding]: the index first, then
    [.where("id", embeddingId).delete()]. *)
Definition deleteTransaction (collectionId embeddingId : string) : M SqliteDb nat :=
  fun db =>
    match _indexCache db with
    | None => (db, Err TypeError)
    | Some cache =>
      match cache !! collectionId with
      | None => (db, Err TypeError)                    (* index.delete on undefined *)
      | Some index =>
        match delete_ [embeddingId] (mkWorld index (db_disk db)) with
        | (w, Err e) => (withIndex collectionId cache w db, Err e)
        | (w, Ok _) =>
          let kept := List.filter (fun r => negb (bool_decide (emb_id r = embeddingId)))
                                  (embeddings db) in
          (mkSqliteDb (db_persistDirectory db) (collections db) kept
                      (Some (<[collectionId := self w]> cache)) (disk w),
           Ok (length (embeddings db) - length kept))
        end
      end
    end.

(** [deleteEmbedding(collectionName, embeddingId)] *)
Definition deleteEmbedding (collectionName : string) (embeddingId : string)
  : M SqliteDb nat :=
  let* db := get in
  match getCollectionByName db collectionName with
  | None => throw NotFound
  | Some collection =>
    match getEmbeddingById db embeddingId with
    | None => throw NotFound
    | Some embeddingFromDb =>
      if negb (bool_decide (emb_collectionId embeddingFromDb = row_id collection))
      then throw OwnershipMismatch
      else deleteTransaction (row_id collection) embeddingId
    end
  end.

(** [countEmbeddingsByCollectionName(collectionName)] *)
Definition countEmbeddingsByCollectionName (collectionName : string) (db : SqliteDb)
  : Result nat :=
  match getCollectionByName db collectionName with
  | None => Err NotFound
  | Some collection =>
    Ok (length (List.filter (fun r => bool_decide (emb_collectionId r = row_id collection))
                            (embeddings db)))
  end.

(** ** Queries ([get], [getNearestNeighbors]) *)

(** The [where] object of types/query-input.ts. *)
Record Where := mkWhere {
  wh_embedding : list Q;
  wh_documentId : option string;
  wh_embeddingIds : option (list string);
  wh_arg1 : option string;
  wh_arg2 : option string;
  wh_arg3 : option string
}.

Record QueryInput := mkQueryInput {
  q_collectionName : string;
  q_where : Where
}.

Record SearchQueryInput := mkSearchQueryInput {
  sq_input : QueryInput;
  searchEmbedding : list Q;
  nearestNeighbors : nat
}.

(** [SearchResult]: an index hit with the document fields of its row. *)
Record SearchResult := mkSearchResult {
  sr_id : option string;
  sr_distance : Q;
  sr_embedding : list Q;
  sr_documentId : option string;
  sr_document : option string
}.

(** [builder.where(column, value)] under [if (value)]: no condition for an
    absent or empty string, equality with the column otherwise (a NULL
    column equals nothing). *)
Definition whereColumn (value : option string) (column : option string) : bool :=
  if falsyString value then true else bool_decide (column = value).

(** The conditions the query builder collects, on one row.  An array is
    truthy, so the condition on the embedding is always there; how the store
    compares its text column with the array bound by
    [builder.where("embedding", where.embedding)] is left to
    [embeddingEq]. *)
Definition matchesWhere (embeddingEq : list Q -> EmbeddingRow -> bool)
    (wh : Where) (r : EmbeddingRow) : bool :=
  whereColumn (wh_documentId wh) (emb_documentId r)
  && match wh_embeddingIds wh with
     | Some (i :: ids) => bool_decide (emb_id r ∈ i :: ids)
     | _ => true
     end
  && embeddingEq (wh_embedding wh) r
  && whereColumn (wh_arg1 wh) (emb_arg1 r)
  && whereColumn (wh_arg2 wh) (emb_arg2 r)
  && whereColumn (wh_arg3 wh) (emb_arg3 r).

(** [get(queryInput)] *)
Definition get_ (embeddingEq : list Q -> EmbeddingRow -> bool)
    (queryInput : QueryInput) (db : SqliteDb) : Result (list EmbeddingRow) :=
  match getCollectionByName db (q_collectionName queryInput) with
  | None => Err NotFound
  | Some _ =>
    Ok (List.filter (matchesWhere embeddingEq (q_where queryInput)) (embeddings db))
  end.

(** The loop of [getNearestNeighbors] over the index results. *)
Fixpoint hydrateResults (db : SqliteDb) (indexSearchResults : list IndexSearchResult)
  : Outcome (list SearchResult) :=
  match indexSearchResults with
  | [] => Returned []
  | result :: rest =>
    match hit_id result with
    | None => UndefinedBinding                  (* .where("id", undefined) *)
    | Some i =>
      match getEmbeddingById db i with
      | None => Threw TypeError                 (* destructuring undefined *)
      | Some row =>
        match hydrateResults db rest with
        | Returned searchResults =>
          Returned (mkSearchResult (hit_id result) (hit_distance result)
                                   (hit_embedding result)
                                   (emb_documentId row) (emb_document row)
                    :: searchResults)
        | failure => failure
        end
      end
    end
  end.

(** [getNearestNeighbors(queryInput)] *)
Definition getNearestNeighbors (searchKnn : Hnsw.searchKnnT)
    (embeddingEq : list Q -> EmbeddingRow -> bool)
    (queryInput : SearchQueryInput) (db : SqliteDb) : Outcome (list SearchResult) :=
  match getCollectionByName db (q_collectionName (sq_input queryInput)) with
  | None => Threw NotFound
  | Some collection =>
    match get_ embeddingEq (sq_input queryInput) db with
    | Err e => Threw e
    | Ok rows =>
      let embeddingIds := emb_id <$> rows in
      match _indexCache db with
      | None => Threw TypeError
      | Some cache =>
        match cache !! row_id collection with
        | None => Threw TypeError               (* index.search on undefined *)
        | Some index =>
          match search searchKnn index (searchEmbedding queryInput)
                       (nearestNeighbors queryInput) embeddingIds with
          | Err e => Threw e
          | Ok indexSearchResults => hydrateResults db indexSearchResults
          end
        end
      end
    end
  end.

(** ** Histories of a database

    The calls that can change a database, applied one after the other to the
    database the constructor leaves.  A call that throws leaves the state it
    reached. *)

Inductive DbOp :=
| DbCreateCollection (name : string) (metadata : CollectionRowMetadata)
                     (getOrCreate : bool) (generated : string) (factoryResolves : bool)
| DbUpdateCollection (currentName : string) (newName : option string)
                     (newMetadata : option CollectionRowMetadata)
| DbAddEmbedding (input : EmbeddingInput) (generated : string)
| DbUpdateEmbedding (embeddingId : string) (input : EmbeddingInput)
| DbDeleteEmbedding (collectionName embeddingId : string).

Definition dbStep (unique : bool) (db : SqliteDb) (o : DbOp) : SqliteDb :=
  match o with
  | DbCreateCollection name metadata getOrCreate generated factoryResolves =>
    fst (createCollection name metadata getOrCreate generated factoryResolves db)
  | DbUpdateCollection currentName newName newMetadata =>
    fst (updateCollection unique currentName newName newMetadata db)
  | DbAddEmbedding input generated => fst (addEmbeddingToCollection input generated db)
  | DbUpdateEmbedding embeddingId input => fst (updateEmbedding embeddingId input db)
  | DbDeleteEmbedding collectionName embeddingId =>
    fst (deleteEmbedding collectionName embeddingId db)
  end.

Definition dbRun (unique : bool) (ops : list DbOp) (db : SqliteDb) : SqliteDb :=
  fold_left (dbStep unique) ops db.

(** A database some history of calls leads to from the constructor. *)
Definition dbReachable (db : SqliteDb) : Prop :=
  exists unique persistDirectory cs es fs ops,
    db = dbRun unique ops (newSqliteDb persistDirectory cs es fs).

(** * Properties *)

(** ** The monad and the loops *)

Lemma forEach_rel {S A} (body : A -> M S unit) (R : S -> S -> Prop) (l : list A) :
  (forall s, R s s) ->
  (forall s1 s2 s3, R s1 s2 -> R s2 s3 -> R s1 s3) ->
  (forall a s s' r, a ∈ l -> body a s = (s', r) -> R s s') ->
  forall s s' r, forEach body l s = (s', r) -> R s s'.
Proof.
  intros Hrefl Htrans. induction l as [|a l IH]; intros Hbody s s' r Hrun.
  - cbn in Hrun. unfold ret in Hrun. simplify_eq. apply Hrefl.
  - cbn in Hrun. unfold bind in Hrun.
    destruct (body a s) as [s1 [[]|e]] eqn:Ha.
    + eapply Htrans.
      * eapply Hbody; [left | exact Ha].
      * eapply IH; [|exact Hrun]. intros. eapply Hbody; [right|]; eauto.
    + simplify_eq. eapply Hbody; [left | exact Ha].
Qed.

Lemma onSelf_disk {A} (m : M DbIndex A) w w' r :
  onSelf m w = (w', r) -> disk w' = disk w /\ m (self w) = (self w', r).
Proof.
  unfold onSelf. destruct (m (self w)) as [d r'] eqn:E. intros; simplify_eq. done.
Qed.

Lemma save_self w w' r : save w = (w', r) -> self w' = self w.
Proof.
  unfold save. intros H.
  destruct (_saveFolder (self w)); [|by simplify_eq].
  destruct (existsSync _ _); cbn in H;
    destruct (_index (self w)) as [h|]; try destruct (Hnsw.initialized h);
    by simplify_eq.
Qed.

(** ** The invariant *)

Lemma Trans_refl d : Trans d d.
Proof. split; [lia | done | auto]. Qed.

Lemma Trans_trans d1 d2 d3 : Trans d1 d2 -> Trans d2 d3 -> Trans d1 d3.
Proof.
  intros [c1 t1 l1] [c2 t2 l2]. split.
  - lia.
  - set_solver.
  - intros i l H. destruct (l2 _ _ H) as [H2|H2].
    + apply l1 in H2. done.
    + right. lia.
Qed.

Lemma Inv_counter_none d : Inv d -> _indexMetadata d = None -> idToLabel d = ∅.
Proof.
  intros HI Hmd. apply map_eq. intros i. rewrite lookup_empty.
  destruct (idToLabel d !! i) as [l|] eqn:E; [|done].
  apply (inv_label_range _ HI) in E. unfold counter in E. rewrite Hmd in E. lia.
Qed.

Lemma truthy_false_Inv d i :
  Inv d -> truthy (idToLabel d !! i) = false -> idToLabel d !! i = None.
Proof.
  intros HI. destruct (idToLabel d !! i) as [l|] eqn:E; [|done].
  apply (inv_label_range _ HI) in E. destruct l; [lia|done].
Qed.


Lemma Keeps_refl d : Keeps d d.
Proof. intros HI. split; [done|]. split; [apply Trans_refl | done]. Qed.

Lemma Keeps_trans d1 d2 d3 : Keeps d1 d2 -> Keeps d2 d3 -> Keeps d1 d3.
Proof.
  intros H12 H23 HI. destruct (H12 HI) as (HI2 & T12 & F12).
  destruct (H23 HI2) as (HI3 & T23 & F23).
  split; [done|]. split; [by eapply Trans_trans|].
  intros Hs Hn. specialize (F12 Hs Hn). subst d2. auto.
Qed.

Ltac keeps_same := split; [done | split; [apply Trans_refl | done]].

Lemma assignLabel_keeps update r d d' res :
  assignLabel update r d = (d', res) -> Keeps d d'.
Proof.
  unfold assignLabel, bind, get. intros H HI.
  destruct (truthy (idToLabel d !! data_id r)) eqn:Ht.
  - destruct update; unfold ret, throw in H; simplify_eq; keeps_same.
  - apply (truthy_false_Inv _ _ HI) in Ht.
    destruct (_indexMetadata d) as [md|] eqn:Hmd;
      unfold throw, put in H; simplify_eq; [|keeps_same].
    assert (Hc : counter d = elements md) by (unfold counter; by rewrite Hmd).
    assert (Hfree : labelToId d !! (elements md + 1) = None).
    { destruct (labelToId d !! (elements md + 1)) as [j|] eqn:E; [|done].
      apply (inv_inverse _ HI) in E. apply (inv_label_range _ HI) in E. lia. }
    split; [|split].
    + split; cbn.
      * intros i l. destruct (decide (i = data_id r)) as [->|Hne].
        -- rewrite lookup_insert_eq. split.
           ++ intros ?; simplify_eq. by rewrite lookup_insert_eq.
           ++ intros Hl. destruct (decide (l = elements md + 1)) as [->|Hnl]; [done|].
              rewrite lookup_insert_ne in Hl by done.
              apply (inv_inverse _ HI) in Hl. congruence.
        -- rewrite lookup_insert_ne by done. split.
           ++ intros Hl. destruct (decide (l = elements md + 1)) as [->|Hnl].
              ** apply (inv_label_range _ HI) in Hl. lia.
              ** rewrite lookup_insert_ne by done. by apply (inv_inverse _ HI).
           ++ intros Hl. destruct (decide (l = elements md + 1)) as [->|Hnl].
              ** rewrite lookup_insert_eq in Hl. congruence.
              ** rewrite lookup_insert_ne in Hl by done. by apply (inv_inverse _ HI).
      * intros i l. unfold counter; cbn.
        destruct (decide (i = data_id r)) as [->|Hne].
        -- rewrite lookup_insert_eq. intros ?; simplify_eq. lia.
        -- rewrite lookup_insert_ne by done. intros Hl.
           apply (inv_label_range _ HI) in Hl. lia.
      * intros h md' l Hh ? Hl; simplify_eq. cbn.
        pose proof (inv_stored_range _ HI h md l Hh Hmd Hl). lia.
      * intros h i l Hh. destruct (decide (i = data_id r)) as [->|Hne].
        -- rewrite lookup_insert_eq. intros ? Hd; simplify_eq.
           pose proof (inv_stored_range _ HI h md _ Hh Hmd (or_intror Hd)). lia.
        -- rewrite lookup_insert_ne by done. by apply (inv_tombstone_free _ HI).
      * intros Hn. apply (inv_no_index _ HI) in Hn. congruence.
      * done.
    + split; cbn.
      * unfold counter; cbn. rewrite Hmd. lia.
      * done.
      * intros i l. destruct (decide (i = data_id r)) as [->|Hne].
        -- rewrite lookup_insert_eq. intros ?; simplify_eq. right. lia.
        -- rewrite lookup_insert_ne by done. auto.
    + intros _ ?. done.
Qed.

Lemma resizeStep_keeps d d' res : resizeStep d = (d', res) -> Keeps d d'.
Proof.
  unfold resizeStep, bind, get. intros H HI.
  destruct (_index d) as [h|] eqn:Hh; [|unfold throw in H; simplify_eq; keeps_same].
  destruct (_indexMetadata d) as [md|] eqn:Hmd;
    [|unfold throw in H; simplify_eq; keeps_same].
  destruct (Hnsw.getCurrentCount h <? elements md);
    [|unfold ret in H; simplify_eq; keeps_same].
  destruct (Hnsw.resizeIndex (newSize d) h) as [h'|e] eqn:Hr;
    unfold put, throw in H; simplify_eq; [|keeps_same].
  unfold Hnsw.resizeIndex in Hr.
  destruct (Hnsw.initialized h); [|done].
  destruct (_ <? _); simplify_eq.
  split; [|split].
  - split; cbn.
    + apply HI.
    + intros i l Hl. apply (inv_label_range _ HI) in Hl.
      unfold counter in *; cbn in *. by rewrite Hmd in *.
    + intros h0 md0 l ? ? Hl; simplify_eq. cbn in Hl.
      eapply (inv_stored_range _ HI); eauto.
    + intros h0 i l ? Hl; simplify_eq. cbn.
      by apply (inv_tombstone_free _ HI h i l).
    + done.
    + intros Hn. congruence.
  - split; cbn.
    + unfold counter; cbn. lia.
    + unfold tombstones; cbn. by rewrite Hh.
    + auto.
  - intros _ ?; congruence.
Qed.

Lemma addPointOf_keeps r d d' res : addPointOf r d = (d', res) -> Keeps d d'.
Proof.
  unfold addPointOf, bind, get. intros H HI.
  destruct (_index d) as [h|] eqn:Hh; [|unfold throw in H; simplify_eq; keeps_same].
  destruct (Hnsw.addPoint _ _ h) as [h'|e] eqn:Ha;
    unfold put, throw in H; simplify_eq; [|keeps_same].
  unfold Hnsw.addPoint in Ha.
  destruct (idToLabel d !! data_id r) as [l|] eqn:Hl; [|done].
  destruct (Hnsw.initialized h); [|done].
  destruct (negb _); [done|].
  pose proof (inv_tombstone_free _ HI h _ _ Hh Hl) as Hnd.
  assert (Hdel : Hnsw.deleted h' = Hnsw.deleted h).
  { destruct (Hnsw.points h !! l); [|destruct (_ <=? _)]; simplify_eq; cbn;
      [set_solver|done]. }
  assert (Hpts : forall l', is_Some (Hnsw.points h' !! l') ->
                            l' = l \/ is_Some (Hnsw.points h !! l')).
  { intros l' Hs. destruct (decide (l' = l)) as [->|Hne]; [by left|right].
    destruct (Hnsw.points h !! l); [|destruct (_ <=? _)]; simplify_eq; cbn in Hs;
      by rewrite lookup_insert_ne in Hs. }
  split; [|split].
  - split; cbn.
    + apply HI.
    + apply HI.
    + intros h0 md l' ? Hmd [Hs|Hd]; simplify_eq.
      * destruct (Hpts _ Hs) as [->|Hs'].
        -- apply (inv_label_range _ HI) in Hl. unfold counter in Hl.
           rewrite Hmd in Hl. lia.
        -- apply (inv_stored_range _ HI h md l'); auto.
      * rewrite Hdel in Hd. apply (inv_stored_range _ HI h md l'); auto.
    + intros h0 i l' ? Hl'; simplify_eq. rewrite Hdel.
      by apply (inv_tombstone_free _ HI h i l').
    + done.
    + apply HI.
  - split; cbn; [unfold counter; cbn; lia| |auto].
    unfold tombstones, setIndex; cbn. by rewrite Hh, Hdel.
  - intros _ Hn. apply (Inv_counter_none _ HI) in Hn. rewrite Hn in Hl.
    by rewrite lookup_empty in Hl.
Qed.

Lemma assignLabels_keeps indexData update d d' res :
  assignLabels indexData update d = (d', res) -> Keeps d d'.
Proof.
  apply (forEach_rel _ Keeps); [apply Keeps_refl | apply Keeps_trans |].
  intros a s s' r _. apply assignLabel_keeps.
Qed.

Lemma addPoints_keeps indexData d d' res :
  addPoints indexData d = (d', res) -> Keeps d d'.
Proof.
  apply (forEach_rel _ Keeps); [apply Keeps_refl | apply Keeps_trans |].
  intros a s s' r _. apply addPointOf_keeps.
Qed.


Lemma DelKeeps_refl d : DelKeeps d d.
Proof.
  intros HI. split; [done|]. split; [done|]. split; [done|].
  split; [auto|]. split; auto.
Qed.

Lemma DelKeeps_trans d1 d2 d3 : DelKeeps d1 d2 -> DelKeeps d2 d3 -> DelKeeps d1 d3.
Proof.
  intros H12 H23 HI. destruct (H12 HI) as (HI2 & C12 & T12 & L12 & R12 & F12).
  destruct (H23 HI2) as (HI3 & C23 & T23 & L23 & R23 & F23).
  split; [done|]. split; [lia|]. split; [set_solver|].
  split; [auto|]. split; [auto|].
  intros Hs Hn. specialize (F12 Hs Hn). subst d2. auto.
Qed.

Ltac del_same :=
  split; [done|]; split; [done|]; split; [done|]; split; [auto|]; split; auto.

Lemma markDelete_Ok label h h' :
  Hnsw.markDelete label h = Ok h' ->
  exists l, label = Some l /\ is_Some (Hnsw.points h !! l) /\ (l ∉ Hnsw.deleted h) /\
            Hnsw.points h' = Hnsw.points h /\
            Hnsw.deleted h' = {[l]} ∪ Hnsw.deleted h.
Proof.
  unfold Hnsw.markDelete. destruct label as [l|]; [|done].
  destruct (Hnsw.initialized h); [|done].
  destruct (Hnsw.points h !! l) eqn:Hp; [|done].
  case_bool_decide; [done|]. intros ?; simplify_eq. exists l. cbn. eauto 10.
Qed.

Lemma deleteOne_Ok i d d' :
  Inv d -> deleteOne i d = (d', Ok tt) ->
  exists l, idToLabel d !! i = Some l /\ idToLabel d' !! i = None /\
            labelToId d' !! l = None /\ (l ∈ tombstones d').
Proof.
  unfold deleteOne, bind, get. intros HI H.
  destruct (_index d) as [h|] eqn:Hh; [|by unfold throw in H].
  destruct (Hnsw.markDelete _ h) as [h'|e] eqn:Hm; [|by unfold throw in H].
  unfold put in H. simplify_eq.
  destruct (markDelete_Ok _ _ _ Hm) as (l & Hl & _ & _ & _ & Hd).
  exists l. rewrite Hl. cbn. rewrite !lookup_delete_eq.
  unfold tombstones; cbn. rewrite Hd. set_solver.
Qed.

Lemma deleteOne_keeps i d d' res : deleteOne i d = (d', res) -> DelKeeps d d'.
Proof.
  unfold deleteOne, bind, get. intros H HI.
  destruct (_index d) as [h|] eqn:Hh;
    [|unfold throw in H; simplify_eq; del_same].
  destruct (Hnsw.markDelete _ h) as [h'|e] eqn:Hm;
    unfold put, throw in H; simplify_eq; [|del_same].
  destruct (markDelete_Ok _ _ _ Hm) as (l & Hl & Hin & Hnd & Hp & Hd).
  rewrite Hl.
  assert (Hinv : forall j l', delete i (idToLabel d) !! j = Some l' ->
                              idToLabel d !! j = Some l' /\ j <> i /\ l' <> l).
  { intros j l' Hj. apply lookup_delete_Some in Hj as [Hne Hj].
    split; [done|]. split; [done|].
    intros ->. apply (inv_inverse _ HI) in Hj, Hl. congruence. }
  split; [|split; [|split; [|split; [|split]]]].
  - split; cbn.
    + intros j l'. split.
      * intros Hj. destruct (Hinv _ _ Hj) as (Hj' & ? & ?).
        rewrite lookup_delete_ne by done. by apply (inv_inverse _ HI).
      * intros Hj. apply lookup_delete_Some in Hj as [Hne Hj].
        apply (inv_inverse _ HI) in Hj.
        rewrite lookup_delete_ne; [done|]. intros ->. congruence.
    + intros j l' Hj. destruct (Hinv _ _ Hj) as (Hj' & _).
      apply (inv_label_range _ HI) in Hj'. unfold counter in *; by cbn.
    + intros h0 md l' ? Hmd Hs; simplify_eq. cbn in Hs.
      rewrite Hp, Hd in Hs.
      destruct Hs as [Hs|Hs]; [by eapply (inv_stored_range _ HI); eauto|].
      apply elem_of_union in Hs as [Hs|Hs].
      * apply elem_of_singleton in Hs. subst l'.
        apply (inv_label_range _ HI) in Hl. unfold counter in Hl.
        rewrite Hmd in Hl. lia.
      * eapply (inv_stored_range _ HI); eauto.
    + intros h0 j l' ? Hj; simplify_eq. destruct (Hinv _ _ Hj) as (Hj' & ? & ?).
      rewrite Hd. pose proof (inv_tombstone_free _ HI h _ _ Hh Hj'). set_solver.
    + done.
    + apply HI.
  - done.
  - unfold tombstones; cbn. rewrite Hh, Hd. set_solver.
  - cbn. intros j l' Hj. by destruct (Hinv _ _ Hj).
  - cbn. intros l' j Hj. by apply lookup_delete_Some in Hj as [_ Hj].
  - intros _ Hn. apply (Inv_counter_none _ HI) in Hn. rewrite Hn in Hl.
    by rewrite lookup_empty in Hl.
Qed.

Lemma deleteLoop_keeps ids d d' res : deleteLoop ids d = (d', res) -> DelKeeps d d'.
Proof.
  apply (forEach_rel _ DelKeeps); [apply DelKeeps_refl | apply DelKeeps_trans |].
  intros a s s' r _. apply deleteOne_keeps.
Qed.

Lemma deleteLoop_Ok ids : forall d d',
  Inv d -> deleteLoop ids d = (d', Ok tt) ->
  forall i, i ∈ ids ->
    exists l, idToLabel d !! i = Some l /\ idToLabel d' !! i = None /\
              labelToId d' !! l = None /\ (l ∈ tombstones d').
Proof.
  induction ids as [|a ids IH]; intros d d' HI H i Hi; [by apply elem_of_nil in Hi|].
  unfold deleteLoop in H. cbn in H. unfold bind in H.
  destruct (deleteOne a d) as [d1 [[]|e]] eqn:Ha; [|done].
  destruct (deleteOne_keeps _ _ _ _ Ha HI) as (HI1 & _ & _ & L1 & R1 & _).
  destruct (deleteLoop_keeps _ _ _ _ H HI1) as (_ & _ & T2 & L2 & R2 & _).
  apply elem_of_cons in Hi as [->|Hi].
  - destruct (deleteOne_Ok _ _ _ HI Ha) as (l & Hl & Hn & Hr & Ht).
    exists l. split; [done|]. split; [|split].
    + destruct (idToLabel d' !! a) eqn:E; [|done]. apply L2 in E. congruence.
    + destruct (labelToId d' !! l) eqn:E; [|done]. apply R2 in E. congruence.
    + set_solver.
  - destruct (IH _ _ HI1 H i Hi) as (l & Hl & ?). exists l. split; auto.
Qed.

(** ** Whole operations *)

Lemma constructor_Inv cfg fs : Inv (constructor cfg fs).
Proof.
  unfold constructor, load. cbn.
  destruct (negb _); [|destruct (files fs !! _)];
    (split; cbn; [intros i l; by rewrite !lookup_empty
                 |intros i l; by rewrite lookup_empty
                 |done|intros h i l _; by rewrite lookup_empty|done|done]).
Qed.

Lemma initIndex_keeps w w' res :
  _index (self w) = None -> initIndex w = (w', res) ->
  Keeps (self w) (self w') /\ res = Ok tt /\ is_Some (_index (self w')).
Proof.
  intros Hn H. unfold initIndex, bind, get, setSelf in H.
  match type of H with save ?w0 = _ => set (w1 := w0) in * end.
  pose proof (save_self _ _ _ H) as Hs.
  assert (Hres : res = Ok tt).
  { unfold save in H. cbn in H. destruct (existsSync _ _); cbn in H; by simplify_eq. }
  rewrite Hs. subst w1. cbn. split; [|split; [done|eauto]].
  intros HI. pose proof (inv_no_index _ HI Hn) as Hmd.
  pose proof (Inv_counter_none _ HI Hmd) as Hemp.
  split; [|split].
  - split; cbn.
    + apply HI.
    + intros i l. rewrite Hemp. by rewrite lookup_empty.
    + intros h md l ? ? Hl; simplify_eq. cbn in Hl.
      destruct Hl as [[? Hl]|Hl]; [by rewrite lookup_empty in Hl|set_solver].
    + intros h i l ?. rewrite Hemp. by rewrite lookup_empty.
    + done.
    + done.
  - split; cbn.
    + unfold counter. rewrite Hmd. cbn. lia.
    + unfold tombstones. rewrite Hn. set_solver.
    + auto.
  - rewrite Hn. by intros [? ?].
Qed.

(** [add] is a chain of its steps: a relation every step respects holds
    between the index before and after the call. *)
Lemma add_rel (R : DbIndex -> DbIndex -> Prop) indexData update :
  (forall d, R d d) ->
  (forall d1 d2 d3, R d1 d2 -> R d2 d3 -> R d1 d3) ->
  (forall w w' r, _index (self w) = None -> initIndex w = (w', r) ->
                  R (self w) (self w')) ->
  (forall d d' r, assignLabels indexData update d = (d', r) -> R d d') ->
  (forall d d' r, resizeStep d = (d', r) -> R d d') ->
  (forall d d' r, addPoints indexData d = (d', r) -> R d d') ->
  forall w w' res, add indexData update w = (w', res) -> R (self w) (self w').
Proof.
  intros Hrefl Htrans Hinit Hassign Hresize Hpoints w w' res H. unfold add in H.
  destruct indexData as [|r0 rest]; [unfold throw in H; simplify_eq; apply Hrefl|].
  unfold bind at 1, get at 1 in H. unfold bind at 1 in H.
  assert (Hi : exists w1 r1, (match _index (self w) with
                              | Some _ => ret tt | None => initIndex end) w = (w1, r1)
                             /\ R (self w) (self w1)).
  { destruct (_index (self w)) as [h|] eqn:Hh.
    - exists w, (Ok tt). unfold ret. split; [done|apply Hrefl].
    - destruct (initIndex w) as [w1 r1] eqn:Hi. exists w1, r1. split; [done|].
      eapply Hinit; eauto. }
  destruct Hi as (w1 & r1 & Hi & K1). rewrite Hi in H.
  eapply Htrans; [exact K1|].
  destruct r1 as [[]|e]; [|simplify_eq; apply Hrefl].
  unfold bind at 1, get at 1 in H.
  destruct (_index (self w1)) as [h|]; [|unfold throw in H; simplify_eq; apply Hrefl].
  destruct (negb _); [unfold throw in H; simplify_eq; apply Hrefl|].
  unfold bind in H.
  destruct (onSelf (assignLabels _ _) w1) as [w2 r2] eqn:H2.
  apply onSelf_disk in H2 as [_ H2]. apply Hassign in H2.
  destruct r2 as [[]|e]; [|by simplify_eq].
  eapply Htrans; [exact H2|].
  destruct (onSelf resizeStep w2) as [w3 r3] eqn:H3.
  apply onSelf_disk in H3 as [_ H3]. apply Hresize in H3.
  destruct r3 as [[]|e]; [|by simplify_eq].
  eapply Htrans; [exact H3|].
  destruct (onSelf (addPoints _) w3) as [w4 r4] eqn:H4.
  apply onSelf_disk in H4 as [_ H4]. apply Hpoints in H4.
  destruct r4 as [[]|e]; [|by simplify_eq].
  apply save_self in H. by rewrite H.
Qed.

Lemma add_keeps indexData update w w' res :
  add indexData update w = (w', res) -> Keeps (self w) (self w').
Proof.
  apply (add_rel Keeps); [apply Keeps_refl | apply Keeps_trans | | | |].
  - intros w0 w1 r Hn Hi. by destruct (initIndex_keeps _ _ _ Hn Hi).
  - apply assignLabels_keeps.
  - apply resizeStep_keeps.
  - apply addPoints_keeps.
Qed.

Lemma delete_keeps ids w w' res :
  delete_ ids w = (w', res) -> DelKeeps (self w) (self w').
Proof.
  unfold delete_, bind. intros H.
  destruct (onSelf (deleteLoop ids) w) as [w1 r1] eqn:H1.
  apply onSelf_disk in H1 as [_ H1]. pose proof (deleteLoop_keeps _ _ _ _ H1) as K.
  destruct r1 as [[]|e]; [|by simplify_eq].
  apply save_self in H. by rewrite H.
Qed.

Lemma delete_Ok ids w w' :
  Inv (self w) -> delete_ ids w = (w', Ok tt) ->
  forall i, i ∈ ids ->
    exists l, idToLabel (self w) !! i = Some l /\ idToLabel (self w') !! i = None /\
              labelToId (self w') !! l = None /\ (l ∈ tombstones (self w')).
Proof.
  unfold delete_, bind. intros HI H.
  destruct (onSelf (deleteLoop ids) w) as [w1 r1] eqn:H1.
  apply onSelf_disk in H1 as [_ H1].
  destruct r1 as [[]|e]; [|by simplify_eq].
  apply save_self in H. rewrite H. by apply deleteLoop_Ok.
Qed.

Lemma step_Inv w o : Inv (self w) -> Inv (self (step w o)).
Proof.
  intros HI. destruct o as [indexData update|ids]; cbn.
  - destruct (add indexData update w) as [w' r] eqn:E. cbn.
    by destruct (add_keeps _ _ _ _ _ E HI).
  - destruct (delete_ ids w) as [w' r] eqn:E. cbn.
    by destruct (delete_keeps _ _ _ _ E HI).
Qed.

Lemma run_Inv ops : forall w, Inv (self w) -> Inv (self (run ops w)).
Proof.
  induction ops as [|o ops IH]; intros w HI; [done|].
  cbn. apply IH. by apply step_Inv.
Qed.

Lemma reachable_Inv w : reachable w -> Inv (self w).
Proof.
  intros (cfg & fs & ops & ->). apply run_Inv. cbn. apply constructor_Inv.
Qed.

Lemma not_occupied d l : Inv d -> is_Some (_indexMetadata d) \/ _index d = None ->
  counter d < l -> ~ occupied d l.
Proof.
  intros HI Hshape Hl [[i Hi]|(h & Hh & Hs)].
  - apply (inv_label_range _ HI) in Hi. lia.
  - destruct Hshape as [[md Hmd]|Hn]; [|congruence].
    pose proof (inv_stored_range _ HI h md l Hh Hmd Hs).
    unfold counter in Hl. rewrite Hmd in Hl. lia.
Qed.

Lemma run_tombstones ops : forall w,
  Inv (self w) -> tombstones (self w) ⊆ tombstones (self (run ops w)).
Proof.
  induction ops as [|o ops IH]; intros w HI; [done|].
  cbn. etrans; [|apply IH; by apply step_Inv].
  destruct o as [indexData update|ids]; cbn.
  - destruct (add indexData update w) as [w' r] eqn:E. cbn.
    destruct (add_keeps _ _ _ _ _ E HI) as (_ & T & _). apply T.
  - destruct (delete_ ids w) as [w' r] eqn:E. cbn.
    destruct (delete_keeps _ _ _ _ E HI) as (_ & _ & T & _). apply T.
Qed.

(** ** Ids that an operation does not insert stay without a label *)


Lemma add_unmapped i indexData update w w' res :
  i ∉ (data_id <$> indexData) ->
  add indexData update w = (w', res) -> StaysUnmapped i (self w) (self w').
Proof.
  intros Hi. apply (add_rel (StaysUnmapped i)); unfold StaysUnmapped.
  - auto.
  - auto.
  - intros w0 w1 r _ H. unfold initIndex, bind, get, setSelf in H.
    apply save_self in H. by rewrite H.
  - intros d d' r. apply (forEach_rel _ (StaysUnmapped i)); unfold StaysUnmapped; auto.
    intros a s s' r' Ha H Hs. unfold assignLabel, bind, get in H.
    destruct (truthy _); [destruct update; unfold ret, throw in H; by simplify_eq|].
    destruct (_indexMetadata s); unfold put, throw in H; simplify_eq; [|done].
    cbn. rewrite lookup_insert_ne; [done|]. intros <-. apply Hi.
    apply list_elem_of_fmap. eauto.
  - intros d d' r H. unfold resizeStep, bind, get in H.
    destruct (_index d); [|unfold throw in H; by simplify_eq].
    destruct (_indexMetadata d); [|unfold throw in H; by simplify_eq].
    destruct (_ <? _); [|unfold ret in H; by simplify_eq].
    destruct (Hnsw.resizeIndex _ _); unfold put, throw in H; by simplify_eq.
  - intros d d' r. apply (forEach_rel _ (StaysUnmapped i)); unfold StaysUnmapped; auto.
    intros a s s' r' _ H. unfold addPointOf, bind, get in H.
    destruct (_index s); [|unfold throw in H; by simplify_eq].
    destruct (Hnsw.addPoint _ _ _); unfold put, throw in H; by simplify_eq.
Qed.

Lemma step_unmapped i w o :
  Inv (self w) -> ~ addsId o i ->
  idToLabel (self w) !! i = None -> idToLabel (self (step w o)) !! i = None.
Proof.
  intros HI Ha Hn. destruct o as [indexData update|ids]; cbn in *.
  - destruct (add indexData update w) as [w' r] eqn:E. cbn.
    by eapply add_unmapped.
  - destruct (delete_ ids w) as [w' r] eqn:E. cbn.
    destruct (delete_keeps _ _ _ _ E HI) as (_ & _ & _ & L & _).
    destruct (idToLabel (self w') !! i) eqn:E'; [|done]. apply L in E'. congruence.
Qed.

Lemma run_unmapped i ops : forall w,
  Inv (self w) -> (forall o, o ∈ ops -> ~ addsId o i) ->
  idToLabel (self w) !! i = None -> idToLabel (self (run ops w)) !! i = None.
Proof.
  induction ops as [|o ops IH]; intros w HI Ha Hn; [done|].
  cbn. apply IH.
  - by apply step_Inv.
  - intros o' Ho'. apply Ha. by right.
  - apply step_unmapped; auto. apply Ha. by left.
Qed.

(** ** Hits of a search *)

Lemma insertHit_In x y l : In y (insertHit x l) -> y = x \/ In y l.
Proof.
  induction l as [|z l IH]; cbn.
  - intros [<-|[]]. by left.
  - destruct (Qle_bool _ _); cbn.
    + intros [<-|H]; auto.
    + intros [<-|H]; auto. destruct (IH H); auto.
Qed.

Lemma sortHits_In y l : In y (sortHits l) -> In y l.
Proof.
  induction l as [|x l IH]; cbn; [done|].
  intros H. apply insertHit_In in H as [->|H]; auto.
Qed.

Lemma hydrate_In d h : forall neighbors hits y,
  hydrate d h neighbors = Ok hits -> In y hits ->
  exists l, hit_id y = labelToId d !! l.
Proof.
  induction neighbors as [|[l q] ns IH]; intros hits y H Hy; cbn in H.
  - simplify_eq. destruct Hy.
  - destruct (Hnsw.getPoint l h); [|done].
    destruct (hydrate d h ns) as [hs|] eqn:E; [|done]. simplify_eq.
    destruct Hy as [<-|Hy]; [by exists l|]. by eapply IH.
Qed.

Lemma search_hit_live searchKnn d q k ids hits y i :
  Inv d -> search searchKnn d q k ids = Ok hits -> In y hits ->
  hit_id y = Some i -> is_Some (idToLabel d !! i).
Proof.
  intros HI H Hy Hid. unfold search in H.
  destruct (_index d) as [h|]; [|done].
  destruct (negb _); [done|].
  destruct (_indexMetadata d) as [md|]; [|done].
  destruct (_ <? _); [done|].
  destruct (preprocess d k ids) as [k' labels].
  unfold postprocess in H. destruct (searchKnn _ _ _ _) as [f|ns]; [done|].
  destruct (hydrate d h ns) as [hs|] eqn:E; [|done]. simplify_eq.
  apply sortHits_In in Hy. destruct (hydrate_In _ _ _ _ _ E Hy) as [l Hl].
  rewrite Hid in Hl. symmetry in Hl. apply (inv_inverse _ HI) in Hl. eauto.
Qed.

(** ** Deleting an id that has no label *)

Lemma deleteOne_map i d d' :
  deleteOne i d = (d', Ok tt) -> idToLabel d' = delete i (idToLabel d).
Proof.
  unfold deleteOne, bind, get. intros H.
  destruct (_index d) as [h|]; [|by unfold throw in H].
  destruct (Hnsw.markDelete _ h); unfold put, throw in H; by simplify_eq.
Qed.

Lemma deleteOne_unknown i d :
  idToLabel d !! i = None -> exists e, deleteOne i d = (d, Err e).
Proof.
  intros Hn. unfold deleteOne, bind, get. rewrite Hn.
  destruct (_index d) as [h|]; unfold throw; eauto.
Qed.

Lemma deleteLoop_unknown ids : forall d i,
  i ∈ ids -> idToLabel d !! i = None -> exists d' e, deleteLoop ids d = (d', Err e).
Proof.
  induction ids as [|a ids IH]; intros d i Hi Hn; [by apply elem_of_nil in Hi|].
  unfold deleteLoop. cbn. unfold bind.
  destruct (deleteOne a d) as [d1 [[]|e]] eqn:Ha; [|eauto].
  apply elem_of_cons in Hi as [->|Hi].
  - destruct (deleteOne_unknown a d Hn) as [e He]. congruence.
  - apply (IH d1 i Hi). rewrite (deleteOne_map _ _ _ Ha).
    destruct (decide (a = i)) as [->|Hne];
      [apply lookup_delete_eq | by rewrite lookup_delete_ne].
Qed.

(** ** The resize target *)

Lemma Qmax_ge_l a b : (a <= Qmax a b)%Q.
Proof.
  unfold Qmax. destruct (Qle_bool a b) eqn:E.
  - by apply Qle_bool_iff.
  - apply Qle_refl.
Qed.

Lemma target_covers (n : nat) (factor : Q) :
  (1 <= factor)%Q ->
  n <= Z.to_nat (Qfloor (Qmax (inject_Z (Z.of_nat n) * factor)
                              (inject_Z (Z.of_nat DEFAULT_MAX_ELEMENTS_IN_INDEX)))).
Proof.
  intros Hf.
  assert (H1 : (inject_Z (Z.of_nat n) <= inject_Z (Z.of_nat n) * factor)%Q).
  { rewrite <- (Qmult_1_r (inject_Z (Z.of_nat n))) at 1.
    rewrite !(Qmult_comm (inject_Z (Z.of_nat n))).
    apply Qmult_le_compat_r; [done|].
    change 0%Q with (inject_Z 0). rewrite <- Zle_Qle. lia. }
  pose proof (Qle_trans _ _ _ H1 (Qmax_ge_l _ (inject_Z (Z.of_nat DEFAULT_MAX_ELEMENTS_IN_INDEX)))) as H2.
  apply Qfloor_resp_le in H2. rewrite Qfloor_Z in H2. lia.
Qed.

(** ** Resolving an id filter *)

Lemma size_set_map_Some (X : gset nat) :
  size (set_map (D:=gset (option nat)) Some X) = size X.
Proof.
  induction X as [|x X Hx IH] using set_ind_L.
  - by rewrite set_map_empty, !size_empty.
  - rewrite set_map_union_L, set_map_singleton_L.
    rewrite !size_union, !size_singleton, IH; [done| |].
    + set_solver.
    + intros y Hy1 Hy2. apply elem_of_singleton in Hy1 as ->.
      apply elem_of_map in Hy2 as (z & Hz & Hzin). by simplify_eq.
Qed.

Lemma resolveLabels_Some d ids l :
  Some l ∈ resolveLabels d ids <-> l ∈ namedLiveLabels d ids.
Proof.
  unfold resolveLabels, namedLiveLabels.
  rewrite !elem_of_list_to_set, list_elem_of_fmap, list_elem_of_omap.
  split; intros (i & H1 & H2); exists i; auto.
Qed.

Lemma resolveLabels_live d ids :
  (forall i, i ∈ ids -> live d i) ->
  resolveLabels d ids = set_map Some (namedLiveLabels d ids).
Proof.
  intros Hlive. apply set_eq. intros o. rewrite elem_of_map.
  unfold resolveLabels. rewrite elem_of_list_to_set, list_elem_of_fmap. split.
  - intros (i & -> & Hi). destruct (Hlive i Hi) as [l Hl].
    exists l. split; [done|]. apply resolveLabels_Some.
    unfold resolveLabels. rewrite elem_of_list_to_set, list_elem_of_fmap. eauto.
  - intros (l & -> & Hl). apply resolveLabels_Some in Hl.
    unfold resolveLabels in Hl. by rewrite elem_of_list_to_set, list_elem_of_fmap in Hl.
Qed.

Lemma deleteLoop_metadata ids d d' r :
  deleteLoop ids d = (d', r) -> _indexMetadata d' = _indexMetadata d.
Proof.
  apply (forEach_rel _ (fun d d' => _indexMetadata d' = _indexMetadata d));
    [done | congruence |].
  intros i s s' r' _ H. unfold deleteOne, bind, get in H.
  destruct (_index s); [|unfold throw in H; by simplify_eq].
  destruct (Hnsw.markDelete _ _); unfold put, throw in H; by simplify_eq.
Qed.

Lemma delete_counter ids w : counter (self (fst (delete_ ids w))) = counter (self w).
Proof.
  unfold delete_, bind.
  destruct (onSelf (deleteLoop ids) w) as [w1 r1] eqn:H1.
  apply onSelf_disk in H1 as [_ H1]. apply deleteLoop_metadata in H1.
  assert (counter (self w1) = counter (self w)) by (unfold counter; by rewrite H1).
  destruct r1 as [[]|e]; [|done].
  destruct (save w1) as [w2 r2] eqn:H2. apply save_self in H2. cbn. by rewrite H2.
Qed.

Lemma hydrate_error d h ns e : hydrate d h ns = Err e -> e = HnswError LabelNotFound.
Proof.
  induction ns as [|[l q] ns IH]; cbn; [done|].
  unfold Hnsw.getPoint. destruct (Hnsw.points h !! l); [|by intros; simplify_eq].
  destruct (hydrate d h ns); [done|]. intros; simplify_eq. by apply IH.
Qed.

(** ** Lookups in a table *)

Lemma find_all_false {A} (f : A -> bool) (l : list A) :
  (forall x, In x l -> f x = false) -> List.find f l = None.
Proof.
  induction l as [|a l IH]; intros H; cbn; [done|].
  rewrite (H a) by (by left). apply IH. intros x Hx. apply H. by right.
Qed.

(** * Further properties of the index *)

(** ** Readiness *)

Lemma KeepsReady_refl d : KeepsReady d d.
Proof. by split; [|split]. Qed.

Lemma KeepsReady_trans d1 d2 d3 : KeepsReady d1 d2 -> KeepsReady d2 d3 -> KeepsReady d1 d3.
Proof.
  intros (C1 & M1 & R1) (C2 & M2 & R2). split; [congruence|]. split; auto.
Qed.

Lemma constructor_Ready cfg fs : Ready (constructor cfg fs).
Proof.
  unfold constructor, load. cbn.
  destruct (negb _); [|destruct (files fs !! _)]; by split.
Qed.

Lemma assignLabel_ready update r d d' res :
  assignLabel update r d = (d', res) -> KeepsReady d d'.
Proof.
  unfold assignLabel, bind, get. intros H.
  destruct (truthy _); [destruct update; unfold ret, throw in H; simplify_eq;
                        apply KeepsReady_refl|].
  destruct (_indexMetadata d) as [md|] eqn:Hmd;
    unfold put, throw in H; simplify_eq; [|apply KeepsReady_refl].
  split; [done|]. split; [cbn; eauto|].
  intros [R1 R2 R3 R4]. split; cbn.
  - intros _ _. eapply R1; eauto.
  - intros _ h l v _. eapply R2; eauto.
  - intros _ h _. eapply R3; eauto.
  - intros _ _. eapply R4; eauto.
Qed.

Lemma resizeStep_ready d d' res : resizeStep d = (d', res) -> KeepsReady d d'.
Proof.
  unfold resizeStep, bind, get. intros H.
  destruct (_index d) as [h|] eqn:Hh; [|unfold throw in H; simplify_eq; apply KeepsReady_refl].
  destruct (_indexMetadata d) as [md|] eqn:Hmd;
    [|unfold throw in H; simplify_eq; apply KeepsReady_refl].
  destruct (_ <? _); [|unfold ret in H; simplify_eq; apply KeepsReady_refl].
  destruct (Hnsw.resizeIndex (newSize d) h) as [h'|e] eqn:Hr;
    unfold put, throw in H; simplify_eq; [|apply KeepsReady_refl].
  unfold Hnsw.resizeIndex in Hr.
  destruct (Hnsw.initialized h) eqn:Hi; [|done].
  destruct (_ <? _) eqn:Hlt; simplify_eq. apply Nat.ltb_ge in Hlt.
  split; [done|]. split; [cbn; by rewrite Hmd|].
  intros [R1 R2 R3 R4]. split; cbn.
  - intros md0 Hmd0. destruct (R1 _ Hmd0) as (h0 & ? & ? & ?). simplify_eq.
    eexists. split; [done|]. cbn. done.
  - intros md0 h0 l v Hmd0 ? Hl. simplify_eq. cbn in *. eapply R2; eauto.
  - intros md0 h0 Hmd0 ?. simplify_eq. cbn. done.
  - intros md0 Hmd0. eapply R4; eauto.
Qed.

Lemma addPoint_Ok v l h h' :
  Hnsw.addPoint v (Some l) h = Ok h' ->
  Hnsw.initialized h = true /\ length v = Hnsw.numDimensions h /\
  Hnsw.initialized h' = true /\
  Hnsw.numDimensions h' = Hnsw.numDimensions h /\
  Hnsw.maxElements h' = Hnsw.maxElements h /\
  Hnsw.points h' = <[l := v]> (Hnsw.points h) /\
  (is_Some (Hnsw.points h !! l) \/ size (Hnsw.points h) < Hnsw.maxElements h).
Proof.
  unfold Hnsw.addPoint.
  destruct (Hnsw.initialized h) eqn:Hi; [|done].
  destruct (length v =? Hnsw.numDimensions h) eqn:Hlen; cbn; [|done].
  apply Nat.eqb_eq in Hlen.
  destruct (Hnsw.points h !! l) eqn:Hl.
  - intros ?; simplify_eq. cbn. eauto 10.
  - destruct (_ <=? _) eqn:Hcap; [done|]. apply Nat.leb_gt in Hcap.
    intros ?; simplify_eq. cbn. eauto 10.
Qed.

Lemma addPointOf_ready r d d' res : addPointOf r d = (d', res) -> KeepsReady d d'.
Proof.
  unfold addPointOf, bind, get. intros H.
  destruct (_index d) as [h|] eqn:Hh; [|unfold throw in H; simplify_eq; apply KeepsReady_refl].
  destruct (Hnsw.addPoint _ _ h) as [h'|e] eqn:Ha;
    unfold put, throw in H; simplify_eq; [|apply KeepsReady_refl].
  destruct (idToLabel d !! data_id r) as [l|]; [|done].
  destruct (addPoint_Ok _ _ _ _ Ha) as (Hi & Hlen & Hi' & Hdim & Hmax & Hp & Hroom).
  split; [done|]. split; [done|].
  intros [R1 R2 R3 R4]. split; cbn.
  - intros md0 Hmd0. destruct (R1 _ Hmd0) as (h0 & ? & ? & ?). simplify_eq.
    exists h'. split; [done|]. split; [done|]. congruence.
  - intros md0 h0 l' v Hmd0 Heq Hl. injection Heq as <-.
    rewrite Hdim. rewrite Hp in Hl.
    destruct (decide (l' = l)) as [->|Hne].
    + rewrite lookup_insert_eq in Hl. by simplify_eq.
    + rewrite lookup_insert_ne in Hl by done. eapply R2; eauto.
  - intros md0 h0 Hmd0 Heq. injection Heq as <-. specialize (R3 _ _ Hmd0 Hh).
    rewrite Hp, Hmax. destruct (Hnsw.points h !! l) eqn:Hl.
    + rewrite map_size_insert_Some; [done|eauto].
    + destruct Hroom as [[? ?]|Hroom]; [done|].
      rewrite map_size_insert_None by done. lia.
  - intros md0 Hmd0. eapply R4; eauto.
Qed.

Lemma deleteOne_ready i d d' res : deleteOne i d = (d', res) -> KeepsReady d d'.
Proof.
  unfold deleteOne, bind, get. intros H.
  destruct (_index d) as [h|] eqn:Hh; [|unfold throw in H; simplify_eq; apply KeepsReady_refl].
  destruct (Hnsw.markDelete _ h) as [h'|e] eqn:Hm;
    unfold put, throw in H; simplify_eq; [|apply KeepsReady_refl].
  destruct (markDelete_Ok _ _ _ Hm) as (l & Hl & Hin & Hnd & Hp & Hd).
  unfold Hnsw.markDelete in Hm. rewrite Hl in Hm.
  destruct (Hnsw.initialized h) eqn:Hi; [|done].
  destruct (Hnsw.points h !! l); [|done]. case_bool_decide; [done|]. simplify_eq.
  split; [done|]. split; [done|].
  intros [R1 R2 R3 R4]. split; cbn.
  - intros md0 Hmd0. destruct (R1 _ Hmd0) as (h0 & ? & ? & ?). simplify_eq.
    eexists. split; [done|]. cbn. done.
  - intros md0 h0 l' v Hmd0 ? Hl'. simplify_eq. cbn in *. eapply R2; eauto.
  - intros md0 h0 Hmd0 ?. simplify_eq. cbn. eapply R3; eauto.
  - intros md0 Hmd0. eapply R4; eauto.
Qed.

Lemma initIndex_self w :
  self (fst (initIndex w)) =
  mkDbIndex (indexConfig (self w))
    (Some (Hnsw.setEf
             (default DEFAULT_SIZE_OF_DYNAMIC_LIST_OF_NEAREST_NEIGHBORS
                      (sizeOfDynamicListOfNearestNeighbors (indexConfig (self w))))
             (Hnsw.initIndex (default DEFAULT_MAX_ELEMENTS_IN_INDEX
                                      (maxElements (indexConfig (self w))))
                             (Hnsw.new (numberOfDimensions (indexConfig (self w)))))))
    (Some (mkIndexMetadata 0))
    (Some (persistDirectory (indexConfig (self w)) +:+ "/index")%string)
    (idToLabel (self w)) (labelToId (self w)).
Proof.
  destruct (initIndex w) as [w' r] eqn:H. cbn.
  unfold initIndex, bind, get, setSelf in H. apply save_self in H. by rewrite H.
Qed.

Lemma initIndex_ready w w' r :
  initIndex w = (w', r) -> KeepsReady (self w) (self w').
Proof.
  intros H. assert (Hs : self w' = self (fst (initIndex w))) by (by rewrite H).
  rewrite initIndex_self in Hs. rewrite Hs.
  split; [done|]. split; [cbn; eauto|].
  intros _. split; cbn.
  - intros _ _. eexists. split; [done|]. cbn. done.
  - intros _ h l v _ ? Hl; simplify_eq; cbn in Hl; by rewrite lookup_empty in Hl.
  - intros _ h _ ?; simplify_eq; cbn; rewrite map_size_empty; lia.
  - done.
Qed.

Lemma add_ready indexData update w w' res :
  add indexData update w = (w', res) -> KeepsReady (self w) (self w').
Proof.
  apply (add_rel KeepsReady); [apply KeepsReady_refl | apply KeepsReady_trans | | | |].
  - intros w0 w1 r _. apply initIndex_ready.
  - intros d d' r. apply (forEach_rel _ KeepsReady);
      [apply KeepsReady_refl | apply KeepsReady_trans |].
    intros a s s' r' _. apply assignLabel_ready.
  - apply resizeStep_ready.
  - intros d d' r. apply (forEach_rel _ KeepsReady);
      [apply KeepsReady_refl | apply KeepsReady_trans |].
    intros a s s' r' _. apply addPointOf_ready.
Qed.

Lemma delete_ready ids w w' res :
  delete_ ids w = (w', res) -> KeepsReady (self w) (self w').
Proof.
  unfold delete_, bind. intros H.
  destruct (onSelf (deleteLoop ids) w) as [w1 r1] eqn:H1.
  apply onSelf_disk in H1 as [_ H1].
  assert (K : KeepsReady (self w) (self w1)).
  { revert H1. apply (forEach_rel _ KeepsReady);
      [apply KeepsReady_refl | apply KeepsReady_trans |].
    intros a s s' r' _. apply deleteOne_ready. }
  destruct r1 as [[]|e]; [|by simplify_eq].
  apply save_self in H. by rewrite H.
Qed.

Lemma step_ready w o : KeepsReady (self w) (self (step w o)).
Proof.
  destruct o as [indexData update|ids]; cbn.
  - destruct (add indexData update w) as [w' r] eqn:E. by eapply add_ready.
  - destruct (delete_ ids w) as [w' r] eqn:E. by eapply delete_ready.
Qed.

Lemma run_ready ops : forall w, KeepsReady (self w) (self (run ops w)).
Proof.
  induction ops as [|o ops IH]; intros w; [apply KeepsReady_refl|].
  cbn. eapply KeepsReady_trans; [apply step_ready | apply IH].
Qed.

Lemma reachable_Ready w : reachable w -> Ready (self w).
Proof.
  intros (cfg & fs & ops & ->). apply run_ready. cbn. apply constructor_Ready.
Qed.

(** ** The steps of a call of [add] that returns *)

Lemma add_Ok indexData update w w' :
  add indexData update w = (w', Ok tt) ->
  exists r0 rest w1 h d2 d3 d4,
    indexData = r0 :: rest /\
    ((is_Some (_index (self w)) /\ w1 = w) \/
     (_index (self w) = None /\ initIndex w = (w1, Ok tt))) /\
    _index (self w1) = Some h /\
    length (embedding r0) = Hnsw.getNumDimensions h /\
    assignLabels indexData update (self w1) = (d2, Ok tt) /\
    resizeStep d2 = (d3, Ok tt) /\
    addPoints indexData d3 = (d4, Ok tt) /\
    save (mkWorld d4 (disk w1)) = (w', Ok tt).
Proof.
  unfold add. intros H. destruct indexData as [|r0 rest]; [by unfold throw in H|].
  unfold bind at 1, get at 1 in H. unfold bind at 1 in H.
  destruct ((match _index (self w) with Some _ => ret tt | None => initIndex end) w)
    as [w1 r1] eqn:Hi.
  destruct r1 as [[]|e]; [|done].
  unfold bind at 1, get at 1 in H.
  destruct (_index (self w1)) as [h|] eqn:Hh; [|by unfold throw in H].
  destruct (length (embedding r0) =? Hnsw.getNumDimensions h) eqn:Hdim;
    cbn [negb] in H; [|by unfold throw in H].
  apply Nat.eqb_eq in Hdim. unfold bind in H.
  destruct (onSelf (assignLabels _ _) w1) as [w2 r2] eqn:H2.
  apply onSelf_disk in H2 as [D2 H2]. destruct r2 as [[]|e]; [|done].
  destruct (onSelf resizeStep w2) as [w3 r3] eqn:H3.
  apply onSelf_disk in H3 as [D3 H3]. destruct r3 as [[]|e]; [|done].
  destruct (onSelf (addPoints _) w3) as [w4 r4] eqn:H4.
  apply onSelf_disk in H4 as [D4 H4]. destruct r4 as [[]|e]; [|done].
  exists r0, rest, w1, h, (self w2), (self w3), (self w4).
  split; [done|]. split.
  { destruct (_index (self w)) as [h0|] eqn:Hh0.
    - left. unfold ret in Hi. simplify_eq. eauto.
    - right. done. }
  split; [done|]. split; [done|]. split; [done|]. split; [done|]. split; [done|].
  replace (disk w1) with (disk w4) by congruence. by destruct w4.
Qed.

Lemma forEach_app {S A} (body : A -> M S unit) (l1 l2 : list A) (s : S) :
  forEach body (l1 ++ l2) s =
  match forEach body l1 s with
  | (s1, Ok _) => forEach body l2 s1
  | (s1, Err e) => (s1, Err e)
  end.
Proof.
  revert s. induction l1 as [|a l1 IH]; intros s; cbn; [done|].
  unfold bind. destruct (body a s) as [s1 [[]|e]]; [apply IH|done].
Qed.

Lemma sameBooks_refl d : sameBooks d d.
Proof. by repeat split. Qed.

Lemma sameBooks_trans d1 d2 d3 : sameBooks d1 d2 -> sameBooks d2 d3 -> sameBooks d1 d3.
Proof.
  intros (A1 & B1 & C1 & D1 & E1) (A2 & B2 & C2 & D2 & E2).
  repeat split; congruence.
Qed.

Lemma resizeStep_books d d' r : resizeStep d = (d', r) -> sameBooks d d'.
Proof.
  unfold resizeStep, bind, get. intros H.
  destruct (_index d); [|unfold throw in H; simplify_eq; apply sameBooks_refl].
  destruct (_indexMetadata d); [|unfold throw in H; simplify_eq; apply sameBooks_refl].
  destruct (_ <? _); [|unfold ret in H; simplify_eq; apply sameBooks_refl].
  destruct (Hnsw.resizeIndex _ _); unfold put, throw in H; simplify_eq;
    [by repeat split | apply sameBooks_refl].
Qed.

Lemma addPointOf_books r d d' res : addPointOf r d = (d', res) -> sameBooks d d'.
Proof.
  unfold addPointOf, bind, get. intros H.
  destruct (_index d); [|unfold throw in H; simplify_eq; apply sameBooks_refl].
  destruct (Hnsw.addPoint _ _ _); unfold put, throw in H; simplify_eq;
    [by repeat split | apply sameBooks_refl].
Qed.

Lemma addPoints_books indexData d d' res :
  addPoints indexData d = (d', res) -> sameBooks d d'.
Proof.
  apply (forEach_rel _ sameBooks); [apply sameBooks_refl | apply sameBooks_trans |].
  intros a s s' r _. apply addPointOf_books.
Qed.

Lemma counter_books d d' : sameBooks d d' -> counter d' = counter d.
Proof. intros (_ & _ & H & _). unfold counter. by rewrite H. Qed.

(** ** Labels given to a batch *)

Lemma assignLabel_new update r d md :
  idToLabel d !! data_id r = None -> _indexMetadata d = Some md ->
  assignLabel update r d =
    (mkDbIndex (indexConfig d) (_index d) (Some (mkIndexMetadata (elements md + 1)))
               (_saveFolder d) (<[data_id r := elements md + 1]> (idToLabel d))
               (<[elements md + 1 := data_id r]> (labelToId d)), Ok tt).
Proof.
  intros Hn Hmd. unfold assignLabel, bind, get. rewrite Hn. cbn. by rewrite Hmd.
Qed.

Lemma assignLabels_false_Ok batch : forall d d',
  Inv d -> assignLabels batch false d = (d', Ok tt) ->
  NoDup (data_id <$> batch) /\
  (forall r, r ∈ batch -> idToLabel d !! data_id r = None) /\
  counter d' = counter d + length batch /\
  (forall k r, batch !! k = Some r ->
               idToLabel d' !! data_id r = Some (counter d + S k)) /\
  (forall i, i ∉ (data_id <$> batch) -> idToLabel d' !! i = idToLabel d !! i) /\
  _index d' = _index d.
Proof.
  induction batch as [|r batch IH]; intros d d' HI H.
  - unfold assignLabels in H. cbn in H. unfold ret in H. simplify_eq.
    split; [constructor|]. split; [by intros r Hr; apply elem_of_nil in Hr|].
    split; [cbn; lia|]. split; [by intros k r Hk|]. done.
  - unfold assignLabels in H. cbn in H. unfold bind at 1 in H.
    destruct (assignLabel false r d) as [d1 [[]|e]] eqn:H1; [|done].
    pose proof (assignLabel_keeps _ _ _ _ _ H1 HI) as (HI1 & _ & _).
    assert (Hn : idToLabel d !! data_id r = None).
    { unfold assignLabel, bind, get in H1.
      destruct (truthy _) eqn:Ht; [by unfold throw in H1|].
      by apply truthy_false_Inv. }
    destruct (_indexMetadata d) as [md|] eqn:Hmd.
    2:{ unfold assignLabel, bind, get in H1. rewrite Hn, Hmd in H1. done. }
    rewrite (assignLabel_new _ _ _ _ Hn Hmd) in H1. simplify_eq.
    match type of HI1 with Inv ?x => set (d1 := x) in * end.
    destruct (IH d1 d' HI1 H) as (ND & Hun & Hc & Hl & Ho & Hx).
    assert (Hc1 : counter d1 = counter d + 1).
    { unfold counter, d1. cbn. by rewrite Hmd. }
    assert (Hnotin : data_id r ∉ (data_id <$> batch)).
    { intros Hin. apply list_elem_of_fmap in Hin as (r' & Heq & Hr').
      specialize (Hun r' Hr'). rewrite <- Heq in Hun.
      unfold d1 in Hun. cbn in Hun. by rewrite lookup_insert_eq in Hun. }
    split; [cbn; by constructor|]. split; [|split; [|split; [|split]]].
    + intros r' Hr'. apply elem_of_cons in Hr' as [->|Hr']; [done|].
      specialize (Hun r' Hr'). unfold d1 in Hun. cbn in Hun.
      apply lookup_insert_None in Hun. tauto.
    + cbn. lia.
    + intros [|k] r' Hk; cbn in Hk.
      * simplify_eq. rewrite (Ho _ Hnotin). unfold d1. cbn.
        rewrite lookup_insert_eq. f_equal. unfold counter. rewrite Hmd. lia.
      * rewrite (Hl _ _ Hk). f_equal. lia.
    + intros i Hi. cbn in Hi. apply not_elem_of_cons in Hi as [Hne Hi].
      rewrite (Ho _ Hi). unfold d1. cbn. by rewrite lookup_insert_ne.
    + done.
Qed.

Lemma assignLabels_fresh update batch : forall d md,
  Inv d -> _indexMetadata d = Some md ->
  NoDup (data_id <$> batch) ->
  (forall r, r ∈ batch -> idToLabel d !! data_id r = None) ->
  exists d', assignLabels batch update d = (d', Ok tt) /\
             Inv d' /\
             counter d' = counter d + length batch /\
             (forall k r, batch !! k = Some r ->
                          idToLabel d' !! data_id r = Some (counter d + S k)) /\
             (forall i, i ∉ (data_id <$> batch) -> idToLabel d' !! i = idToLabel d !! i) /\
             _index d' = _index d /\ is_Some (_indexMetadata d').
Proof.
  induction batch as [|r batch IH]; intros d md HI Hmd ND Hun.
  - exists d. unfold assignLabels. cbn. unfold ret.
    split; [done|]. split; [done|]. split; [cbn; lia|].
    split; [by intros k r Hk|]. split; [done|]. split; [done|eauto].
  - cbn in ND. apply NoDup_cons in ND as [Hnotin ND].
    assert (Hn : idToLabel d !! data_id r = None) by (apply Hun; left).
    pose proof (assignLabel_new update _ _ _ Hn Hmd) as H1.
    pose proof (assignLabel_keeps _ _ _ _ _ H1 HI) as (HI1 & _ & _).
    match type of HI1 with Inv ?x => set (d1 := x) in * end.
    assert (Hc1 : counter d1 = counter d + 1).
    { unfold counter, d1. cbn. by rewrite Hmd. }
    destruct (IH d1 (mkIndexMetadata (elements md + 1)) HI1 eq_refl ND)
      as (d' & Hrun & HI' & Hc & Hl & Ho & Hx & Hm).
    { intros r' Hr'. unfold d1. cbn. rewrite lookup_insert_ne.
      - apply Hun. by right.
      - intros Heq. apply Hnotin. apply list_elem_of_fmap. eauto. }
    exists d'. unfold assignLabels. cbn. unfold bind. rewrite H1.
    split; [exact Hrun|]. split; [done|]. split; [cbn; lia|].
    split; [|split; [|split; [done|done]]].
    + intros [|k] r' Hk; cbn in Hk.
      * simplify_eq. rewrite (Ho _ Hnotin). unfold d1. cbn.
        rewrite lookup_insert_eq. f_equal. unfold counter. rewrite Hmd. lia.
      * rewrite (Hl _ _ Hk). f_equal. lia.
    + intros i Hi. cbn in Hi. apply not_elem_of_cons in Hi as [Hne Hi].
      rewrite (Ho _ Hi). unfold d1. cbn. by rewrite lookup_insert_ne.
Qed.

(** ** Vectors stored for a batch *)

Lemma addPointOf_Ok r d d' :
  addPointOf r d = (d', Ok tt) ->
  exists h h' l, _index d = Some h /\ idToLabel d !! data_id r = Some l /\
                 Hnsw.addPoint (embedding r) (Some l) h = Ok h' /\ d' = setIndex h' d.
Proof.
  unfold addPointOf, bind, get. intros H.
  destruct (_index d) as [h|]; [|by unfold throw in H].
  destruct (idToLabel d !! data_id r) as [l|] eqn:Hl; [|by unfold throw in H].
  destruct (Hnsw.addPoint _ _ h) as [h'|e] eqn:Ha; unfold put, throw in H; simplify_eq.
  eauto 10.
Qed.

Lemma addPoints_other batch : forall d d' h h' l,
  addPoints batch d = (d', Ok tt) -> _index d = Some h -> _index d' = Some h' ->
  (forall r, r ∈ batch -> idToLabel d !! data_id r <> Some l) ->
  Hnsw.points h' !! l = Hnsw.points h !! l.
Proof.
  induction batch as [|r batch IH]; intros d d' h h' l H Hh Hh' Hne.
  - unfold addPoints in H. cbn in H. unfold ret in H. by simplify_eq.
  - unfold addPoints in H. cbn in H. unfold bind at 1 in H.
    destruct (addPointOf r d) as [d1 [[]|e]] eqn:H1; [|done].
    destruct (addPointOf_Ok _ _ _ H1) as (h0 & h1 & l0 & Hh0 & Hl0 & Ha & ->).
    simplify_eq. destruct (addPoint_Ok _ _ _ _ Ha) as (_ & _ & _ & _ & _ & Hp & _).
    rewrite (IH (setIndex h1 d) d' h1 h' l H eq_refl Hh').
    + rewrite Hp. rewrite lookup_insert_ne; [done|].
      intros ->. apply (Hne r); [by left|done].
    + intros r' Hr'. cbn. apply Hne. by right.
Qed.

Lemma addPoints_index batch : forall d d' h,
  addPoints batch d = (d', Ok tt) -> _index d = Some h ->
  exists h', _index d' = Some h' /\ Hnsw.deleted h' ⊆ Hnsw.deleted h.
Proof.
  induction batch as [|r batch IH]; intros d d' h H Hh.
  - unfold addPoints in H. cbn in H. unfold ret in H. simplify_eq. eauto.
  - unfold addPoints in H. cbn in H. unfold bind at 1 in H.
    destruct (addPointOf r d) as [d1 [[]|e]] eqn:H1; [|done].
    destruct (addPointOf_Ok _ _ _ H1) as (h0 & h1 & l0 & Hh0 & Hl0 & Ha & ->).
    simplify_eq. destruct (IH (setIndex h1 d) d' h1 H eq_refl) as (h' & Hh' & Hd).
    exists h'. split; [done|]. etrans; [exact Hd|].
    unfold Hnsw.addPoint in Ha. destruct (Hnsw.initialized h); [|done].
    destruct (negb _); [done|].
    destruct (Hnsw.points h !! l0); [|destruct (_ <=? _)]; simplify_eq; cbn; set_solver.
Qed.

Lemma addPoints_stored batch : forall d d' h',
  Inv d -> NoDup (data_id <$> batch) ->
  addPoints batch d = (d', Ok tt) -> _index d' = Some h' ->
  forall r, r ∈ batch ->
    exists l, idToLabel d !! data_id r = Some l /\
              Hnsw.points h' !! l = Some (embedding r).
Proof.
  induction batch as [|r batch IH]; intros d d' h' HI ND H Hh' r' Hr';
    [by apply elem_of_nil in Hr'|].
  cbn in ND. apply NoDup_cons in ND as [Hnotin ND].
  unfold addPoints in H. cbn in H. unfold bind at 1 in H.
  destruct (addPointOf r d) as [d1 [[]|e]] eqn:H1; [|done].
  pose proof (addPointOf_keeps _ _ _ _ H1 HI) as (HI1 & _ & _).
  destruct (addPointOf_Ok _ _ _ H1) as (h0 & h1 & l0 & Hh0 & Hl0 & Ha & ->).
  destruct (addPoint_Ok _ _ _ _ Ha) as (_ & _ & _ & _ & _ & Hp & _).
  apply elem_of_cons in Hr' as [->|Hr'].
  - exists l0. split; [done|].
    rewrite (addPoints_other batch (setIndex h1 d) d' h1 h' l0 H eq_refl Hh').
    + rewrite Hp. apply lookup_insert_eq.
    + intros r' Hr' Heq. cbn in Heq.
      apply (inv_inverse _ HI) in Heq, Hl0.
      apply Hnotin. apply list_elem_of_fmap. exists r'. split; [congruence|done].
  - destruct (IH (setIndex h1 d) d' h' HI1 ND H Hh' r' Hr') as (l & Hl & Hs).
    exists l. split; [exact Hl|exact Hs].
Qed.

(** ** Saving *)

Lemma save_Ok w w' :
  save w = (w', Ok tt) ->
  self w' = self w /\ is_Some (_saveFolder (self w)) /\
  forall h, _index (self w) = Some h ->
            Hnsw.initialized h = true /\
            files (disk w') = <[indexSavePath (self w) := h]> (files (disk w)).
Proof.
  unfold save. intros H.
  destruct (_saveFolder (self w)) as [folder|] eqn:Hf; [|done].
  split; [|split; [eauto|]].
  - destruct (existsSync _ _); cbn in H;
      destruct (_index (self w)) as [h|]; try destruct (Hnsw.initialized h);
      by simplify_eq.
  - intros h Hh. rewrite Hh in H.
    destruct (existsSync _ _); cbn in H;
      destruct (Hnsw.initialized h); by simplify_eq.
Qed.

Lemma save_files w w' r p :
  save w = (w', r) -> is_Some (files (disk w) !! p) -> is_Some (files (disk w') !! p).
Proof.
  unfold save. intros H Hp.
  destruct (_saveFolder (self w)) as [folder|]; [|by simplify_eq].
  destruct (existsSync _ _); cbn in H;
    destruct (_index (self w)) as [h|]; try destruct (Hnsw.initialized h);
    simplify_eq; cbn; try done;
    (destruct (decide (indexSavePath (self w) = p)) as [->|Hne];
     [rewrite lookup_insert_eq; eauto | by rewrite lookup_insert_ne]).
Qed.

Lemma indexSavePath_ready d md :
  Ready d -> _indexMetadata d = Some md -> indexSavePath d = snapshotPath (indexConfig d).
Proof.
  intros HR Hmd. unfold indexSavePath, snapshotPath.
  by rewrite (rd_folder _ HR _ Hmd).
Qed.

Lemma run_config ops cfg fs : indexConfig (self (run ops (fresh cfg fs))) = cfg.
Proof.
  destruct (run_ready ops (fresh cfg fs)) as (-> & _). cbn.
  unfold constructor, load. cbn.
  destruct (negb _); [done|]. by destruct (files fs !! _).
Qed.

Lemma resizeStep_index d d' r h :
  resizeStep d = (d', r) -> _index d = Some h ->
  exists h', _index d' = Some h' /\ Hnsw.points h' = Hnsw.points h /\
             Hnsw.deleted h' = Hnsw.deleted h.
Proof.
  unfold resizeStep, bind, get. intros H Hh. rewrite Hh in H.
  destruct (_indexMetadata d); [|unfold throw in H; simplify_eq; eauto].
  destruct (_ <? _); [|unfold ret in H; simplify_eq; eauto].
  destruct (Hnsw.resizeIndex _ _) as [h'|e] eqn:Hr; unfold put, throw in H;
    simplify_eq; [|eauto].
  unfold Hnsw.resizeIndex in Hr. destruct (Hnsw.initialized h); [|done].
  destruct (_ <? _); simplify_eq. cbn. eauto.
Qed.

(** ** Label 0 is never stored *)

Lemma KeepsNoZero_refl d : KeepsNoZero d d.
Proof. split; [apply Keeps_refl|auto]. Qed.

Lemma KeepsNoZero_trans d1 d2 d3 :
  KeepsNoZero d1 d2 -> KeepsNoZero d2 d3 -> KeepsNoZero d1 d3.
Proof.
  intros [K1 Z1] [K2 Z2]. split; [by eapply Keeps_trans|].
  intros HI HZ. destruct (K1 HI) as (HI2 & _). auto.
Qed.

Lemma assignLabel_nozero update r d d' res :
  assignLabel update r d = (d', res) -> KeepsNoZero d d'.
Proof.
  intros H. split; [by eapply assignLabel_keeps|]. intros _ HZ.
  unfold assignLabel, bind, get in H.
  destruct (truthy _); [destruct update; unfold ret, throw in H; by simplify_eq|].
  destruct (_indexMetadata d) as [md|] eqn:Hmd; unfold put, throw in H;
    simplify_eq; [|done].
  intros md' h _ Hh. cbn in Hh. eapply HZ; eauto.
Qed.

Lemma resizeStep_nozero d d' res : resizeStep d = (d', res) -> KeepsNoZero d d'.
Proof.
  intros H. split; [by eapply resizeStep_keeps|]. intros _ HZ md h' Hmd Hh'.
  destruct (resizeStep_books _ _ _ H) as (_ & _ & Hm & _).
  destruct (_index d) as [h|] eqn:Hh.
  - destruct (resizeStep_index _ _ _ _ H Hh) as (h0 & ? & Hp & _). simplify_eq.
    rewrite Hp. eapply (HZ md); eauto. by rewrite <- Hm.
  - unfold resizeStep, bind, get in H. rewrite Hh in H. unfold throw in H.
    simplify_eq.
Qed.

Lemma addPointOf_nozero r d d' res : addPointOf r d = (d', res) -> KeepsNoZero d d'.
Proof.
  intros H. split; [by eapply addPointOf_keeps|]. intros HI HZ.
  destruct res as [[]|e].
  - destruct (addPointOf_Ok _ _ _ H) as (h & h' & l & Hh & Hl & Ha & ->).
    destruct (addPoint_Ok _ _ _ _ Ha) as (_ & _ & _ & _ & _ & Hp & _).
    intros md h0 Hmd Heq. cbn in Heq. injection Heq as <-. rewrite Hp.
    apply (inv_label_range _ HI) in Hl. rewrite lookup_insert_ne by lia.
    eapply HZ; eauto.
  - unfold addPointOf, bind, get in H.
    destruct (_index d); [|unfold throw in H; by simplify_eq].
    destruct (Hnsw.addPoint _ _ _); unfold put, throw in H; by simplify_eq.
Qed.

Lemma deleteOne_nozero i d d' res :
  deleteOne i d = (d', res) -> Inv d -> NoZero d -> NoZero d'.
Proof.
  unfold deleteOne, bind, get. intros H _ HZ.
  destruct (_index d) as [h|] eqn:Hh; [|unfold throw in H; by simplify_eq].
  destruct (Hnsw.markDelete _ h) as [h'|e] eqn:Hm;
    unfold put, throw in H; simplify_eq; [|done].
  destruct (markDelete_Ok _ _ _ Hm) as (l & Hl & Hin & Hnd & Hp & Hd).
  intros md h0 Hmd Heq. cbn in Heq. injection Heq as <-. rewrite Hp.
  eapply HZ; eauto.
Qed.

Lemma add_nozero indexData update w w' res :
  add indexData update w = (w', res) -> KeepsNoZero (self w) (self w').
Proof.
  apply (add_rel KeepsNoZero); [apply KeepsNoZero_refl | apply KeepsNoZero_trans | | | |].
  - intros w0 w1 r Hn Hi. split; [by destruct (initIndex_keeps _ _ _ Hn Hi)|].
    intros _ _ md h _ Hh.
    assert (Hs : self w1 = self (fst (initIndex w0))) by (by rewrite Hi).
    rewrite initIndex_self in Hs. rewrite Hs in Hh. cbn in Hh.
    injection Hh as <-. cbn. apply lookup_empty.
  - intros d d' r. apply (forEach_rel _ KeepsNoZero);
      [apply KeepsNoZero_refl | apply KeepsNoZero_trans |].
    intros a s s' r' _. apply assignLabel_nozero.
  - apply resizeStep_nozero.
  - intros d d' r. apply (forEach_rel _ KeepsNoZero);
      [apply KeepsNoZero_refl | apply KeepsNoZero_trans |].
    intros a s s' r' _. apply addPointOf_nozero.
Qed.

Lemma deleteLoop_nozero ids : forall d d' res,
  deleteLoop ids d = (d', res) -> Inv d -> NoZero d -> NoZero d'.
Proof.
  induction ids as [|i ids IH]; intros d d' res H HI HZ.
  - unfold deleteLoop in H. cbn in H. unfold ret in H. by simplify_eq.
  - unfold deleteLoop in H. cbn in H. unfold bind at 1 in H.
    destruct (deleteOne i d) as [d1 [[]|e]] eqn:H1.
    + pose proof (deleteOne_keeps _ _ _ _ H1 HI) as (HI1 & _).
      eapply IH; eauto. by eapply deleteOne_nozero.
    + simplify_eq. by eapply deleteOne_nozero.
Qed.

Lemma run_nozero ops : forall w,
  Inv (self w) -> NoZero (self w) -> NoZero (self (run ops w)).
Proof.
  induction ops as [|o ops IH]; intros w HI HZ; [done|].
  cbn. apply IH; [by apply step_Inv|].
  destruct o as [indexData update|ids]; cbn.
  - destruct (add indexData update w) as [w' r] eqn:E. cbn.
    by apply (add_nozero _ _ _ _ _ E).
  - destruct (delete_ ids w) as [w' r] eqn:E. cbn.
    unfold delete_, bind in E.
    destruct (onSelf (deleteLoop ids) w) as [w1 r1] eqn:H1.
    apply onSelf_disk in H1 as [_ H1].
    pose proof (deleteLoop_nozero _ _ _ _ H1 HI HZ) as HZ1.
    destruct r1 as [[]|e]; [|by simplify_eq].
    apply save_self in E. by rewrite E.
Qed.

Lemma reachable_NoZero w : reachable w -> NoZero (self w).
Proof.
  intros (cfg & fs & ops & ->). apply run_nozero.
  - cbn. apply constructor_Inv.
  - intros md h Hmd. cbn in Hmd. unfold constructor, load in Hmd. cbn in Hmd.
    destruct (negb _); [done|]. by destruct (files fs !! _).
Qed.

Lemma stored_count_le_counter d h md :
  Inv d -> NoZero d -> _index d = Some h -> _indexMetadata d = Some md ->
  size (Hnsw.points h) <= elements md.
Proof.
  intros HI HZ Hh Hmd. rewrite <- (size_dom (D:=gset nat)).
  rewrite <- (size_set_seq (C:=gset nat) 1 (elements md)).
  apply subseteq_size. intros l Hl. apply elem_of_dom in Hl.
  apply elem_of_set_seq.
  pose proof (inv_stored_range _ HI h md l Hh Hmd (or_introl Hl)).
  destruct l; [|lia]. rewrite (HZ md h Hmd Hh) in Hl. by destruct Hl.
Qed.

(** ** Running [add] forwards *)

Lemma add_step r0 rest update w h :
  _index (self w) = Some h ->
  length (embedding r0) = Hnsw.getNumDimensions h ->
  add (r0 :: rest) update w =
    (onSelf (assignLabels (r0 :: rest) update) ;;;
     onSelf resizeStep ;;;
     onSelf (addPoints (r0 :: rest)) ;;;
     save) w.
Proof.
  intros Hh Hdim. unfold add. unfold bind at 1, get at 1. unfold bind at 1.
  rewrite Hh. unfold ret. unfold bind at 1, get at 1. rewrite Hh.
  apply Nat.eqb_eq in Hdim. by rewrite Hdim.
Qed.

Lemma resizeStep_succeeds d h md :
  _index d = Some h -> _indexMetadata d = Some md ->
  Hnsw.initialized h = true ->
  (1 <= indexResizeFactor (indexConfig d))%Q ->
  exists d', resizeStep d = (d', Ok tt).
Proof.
  intros Hh Hmd Hi Hf. unfold resizeStep, bind, get. rewrite Hh, Hmd.
  destruct (_ <? _) eqn:Hlt; [|unfold ret; eauto].
  apply Nat.ltb_lt in Hlt. unfold Hnsw.getCurrentCount in Hlt. rewrite Hi in Hlt.
  unfold Hnsw.resizeIndex. rewrite Hi.
  pose proof (target_covers (elements md) _ Hf) as Hcov.
  assert (Hns : newSize d = Qmax (inject_Z (Z.of_nat (elements md)) *
                                  indexResizeFactor (indexConfig d))
                                 (inject_Z (Z.of_nat DEFAULT_MAX_ELEMENTS_IN_INDEX))).
  { unfold newSize, counter. by rewrite Hmd. }
  rewrite Hns.
  destruct (_ <? _) eqn:E; [apply Nat.ltb_lt in E; lia|].
  unfold put. eauto.
Qed.

(** ** Sorting the hits *)

Lemma insertHit_perm x l : insertHit x l ≡ₚ x :: l.
Proof.
  induction l as [|y l IH]; cbn; [done|].
  destruct (Qle_bool _ _); [done|]. rewrite IH. apply Permutation_swap.
Qed.

Lemma sortHits_perm l : sortHits l ≡ₚ l.
Proof.
  induction l as [|x l IH]; cbn; [done|].
  fold (sortHits l). by rewrite insertHit_perm, IH.
Qed.

Lemma insertHit_hd x y l :
  ascending y x -> HdRel ascending y l -> HdRel ascending y (insertHit x l).
Proof.
  intros Hyx Hl. destruct l as [|z l]; cbn; [by constructor|].
  destruct (Qle_bool _ _); constructor; [done|]. by inversion Hl.
Qed.

Lemma insertHit_sorted x l : Sorted ascending l -> Sorted ascending (insertHit x l).
Proof.
  induction 1 as [|y l Hs IH Hhd]; cbn; [by repeat constructor|].
  destruct (Qle_bool (hit_distance x) (hit_distance y)) eqn:E.
  - apply Qle_bool_iff in E. constructor; [by constructor|by constructor].
  - constructor; [done|]. apply insertHit_hd; [|done].
    unfold ascending. apply Qlt_le_weak, Qnot_le_lt. intros Hle.
    apply Qle_bool_iff in Hle. congruence.
Qed.

Lemma sortHits_sorted l : Sorted ascending (sortHits l).
Proof.
  induction l as [|x l IH]; cbn; [constructor|].
  fold (sortHits l). by apply insertHit_sorted.
Qed.

Lemma hydrate_Forall2 d h : forall neighbors hs,
  hydrate d h neighbors = Ok hs -> Forall2 (hitOf d h) neighbors hs.
Proof.
  induction neighbors as [|[l q] ns IH]; intros hs H; cbn in H.
  - simplify_eq. constructor.
  - unfold Hnsw.getPoint in H. destruct (Hnsw.points h !! l) as [v|] eqn:Hv; [|done].
    destruct (hydrate d h ns) as [hs'|] eqn:E; [|done]. simplify_eq.
    constructor; [|by apply IH]. by split.
Qed.

Lemma preprocess_le d k ids : fst (preprocess d k ids) <= k.
Proof.
  unfold preprocess. destruct ids as [|i ids]; cbn [fst]; [lia|].
  destruct (_ <? _) eqn:E; [apply Nat.ltb_lt in E|]; lia.
Qed.

(** ** The label set of a filter *)

Lemma resolveLabels_None d ids :
  None ∈ resolveLabels d ids <-> Exists (fun i => idToLabel d !! i = None) ids.
Proof.
  unfold resolveLabels. rewrite elem_of_list_to_set, list_elem_of_fmap, Exists_exists.
  split; intros (i & H1 & H2); exists i; auto.
Qed.

Lemma resolveLabels_split d ids :
  resolveLabels d ids =
  set_map Some (namedLiveLabels d ids) ∪ (if hasUnknownId d ids then {[None]} else ∅).
Proof.
  apply set_eq. intros o. rewrite elem_of_union, elem_of_map. split.
  - intros Ho. destruct o as [l|].
    + left. exists l. split; [done|]. by apply resolveLabels_Some.
    + right. apply resolveLabels_None in Ho. unfold hasUnknownId.
      rewrite bool_decide_eq_true_2 by done. set_solver.
  - intros [(l & -> & Hl)|Hn].
    + by apply resolveLabels_Some.
    + unfold hasUnknownId in Hn. case_bool_decide; [|set_solver].
      apply elem_of_singleton in Hn as ->. by apply resolveLabels_None.
Qed.

Lemma resolveLabels_size d ids :
  size (resolveLabels d ids) =
  size (namedLiveLabels d ids) + (if hasUnknownId d ids then 1 else 0).
Proof.
  rewrite resolveLabels_split, size_union.
  - rewrite size_set_map_Some. destruct (hasUnknownId d ids);
      [by rewrite size_singleton | by rewrite size_empty].
  - intros o Ho1 Ho2. apply elem_of_map in Ho1 as (l & -> & _).
    destruct (hasUnknownId d ids); set_solver.
Qed.

Lemma resolveLabels_nonempty d i ids : size (resolveLabels d (i :: ids)) <> 0.
Proof.
  apply size_non_empty_iff. intros Hemp.
  assert (Hin : idToLabel d !! i ∈ resolveLabels d (i :: ids)).
  { unfold resolveLabels. rewrite elem_of_list_to_set, list_elem_of_fmap.
    exists i. split; [done|by left]. }
  rewrite Hemp in Hin. set_solver.
Qed.

(** ** The disk *)

Lemma DiskKeeps_refl w : DiskKeeps w w.
Proof.
  split; auto. intros Hn [md Hmd]. congruence.
Qed.

Lemma WorldKeeps_refl w : WorldKeeps w w.
Proof. split; [apply Keeps_refl|]. intros _. apply DiskKeeps_refl. Qed.

Lemma indexSavePath_eq d d' :
  _saveFolder d' = _saveFolder d -> indexConfig d' = indexConfig d ->
  indexSavePath d' = indexSavePath d.
Proof. intros Hf Hc. unfold indexSavePath. by rewrite Hf, Hc. Qed.

Lemma WorldKeeps_trans w1 w2 w3 :
  WorldKeeps w1 w2 -> WorldKeeps w2 w3 -> WorldKeeps w1 w3.
Proof.
  intros [K1 D1] [K2 D2]. split; [by eapply Keeps_trans|].
  intros HI. destruct (K1 HI) as (HI2 & _ & F1).
  destruct (D1 HI) as [G1 W1 Fo1 C1 S1]. destruct (D2 HI2) as [G2 W2 Fo2 C2 S2].
  split.
  - auto.
  - intros p Hp. rewrite W2 by done. apply W1. intros Hs2.
    rewrite <- (indexSavePath_eq (self w2) (self w3)); auto.
    apply Hp. by rewrite (Fo2 Hs2).
  - intros Hs. rewrite Fo2; [by apply Fo1|]. by rewrite (Fo1 Hs).
  - congruence.
  - intros Hn Hs3. destruct (_indexMetadata (self w2)) as [md2|] eqn:Hmd2.
    + destruct (S1 Hn) as [Hf2 Hfile2]; [eauto|].
      split; [by rewrite (Fo2 Hf2)|].
      rewrite (indexSavePath_eq (self w2) (self w3)); auto.
    + by apply S2.
Qed.

(** A step on the object alone. *)
Lemma onSelf_world {A} (m : M DbIndex A) w w' r :
  onSelf m w = (w', r) ->
  (forall d d' r', m d = (d', r') ->
     Keeps d d' /\ _saveFolder d' = _saveFolder d /\ indexConfig d' = indexConfig d /\
     (_indexMetadata d = None -> _indexMetadata d' = None)) ->
  WorldKeeps w w'.
Proof.
  intros H Hm. apply onSelf_disk in H as [Hd H].
  destruct (Hm _ _ _ H) as (K & Hf & Hc & Hn).
  split; [done|]. intros _. split.
  - intros p. by rewrite Hd.
  - intros p _. by rewrite Hd.
  - done.
  - done.
  - intros Hn0 [md Hmd]. rewrite (Hn Hn0) in Hmd. done.
Qed.

Lemma assignLabel_folder update r d d' res :
  assignLabel update r d = (d', res) ->
  _saveFolder d' = _saveFolder d /\ indexConfig d' = indexConfig d /\
  (_indexMetadata d = None -> _indexMetadata d' = None).
Proof.
  unfold assignLabel, bind, get. intros H.
  destruct (truthy _); [destruct update; unfold ret, throw in H; by simplify_eq|].
  destruct (_indexMetadata d) eqn:Hmd; unfold put, throw in H; simplify_eq; [|done].
  cbn. split; [done|]. split; [done|]. congruence.
Qed.

Lemma assignLabels_folder indexData update d d' res :
  assignLabels indexData update d = (d', res) ->
  _saveFolder d' = _saveFolder d /\ indexConfig d' = indexConfig d /\
  (_indexMetadata d = None -> _indexMetadata d' = None).
Proof.
  apply (forEach_rel _ (fun d d' =>
           _saveFolder d' = _saveFolder d /\ indexConfig d' = indexConfig d /\
           (_indexMetadata d = None -> _indexMetadata d' = None))).
  - done.
  - intros d1 d2 d3 (A1 & B1 & C1) (A2 & B2 & C2). repeat split; try congruence. auto.
  - intros a s s' r _. apply assignLabel_folder.
Qed.

Lemma deleteLoop_folder ids d d' res :
  deleteLoop ids d = (d', res) ->
  _saveFolder d' = _saveFolder d /\ indexConfig d' = indexConfig d /\
  (_indexMetadata d = None -> _indexMetadata d' = None).
Proof.
  apply (forEach_rel _ (fun d d' =>
           _saveFolder d' = _saveFolder d /\ indexConfig d' = indexConfig d /\
           (_indexMetadata d = None -> _indexMetadata d' = None))).
  - done.
  - intros d1 d2 d3 (A1 & B1 & C1) (A2 & B2 & C2). repeat split; try congruence. auto.
  - intros i s s' r _ H. unfold deleteOne, bind, get in H.
    destruct (_index s); [|unfold throw in H; by simplify_eq].
    destruct (Hnsw.markDelete _ _); unfold put, throw in H; by simplify_eq.
Qed.

Lemma save_world w w' r : save w = (w', r) -> WorldKeeps w w'.
Proof.
  intros H. pose proof (save_self _ _ _ H) as Hs.
  split; [rewrite Hs; apply Keeps_refl|]. intros _. split.
  - intros p. by apply (save_files _ _ _ _ H).
  - intros p Hp. rewrite Hs in Hp. unfold save in H.
    destruct (_saveFolder (self w)) as [folder|]; [|by simplify_eq].
    specialize (Hp (ltac:(eauto))).
    destruct (existsSync _ _); cbn in H;
      destruct (_index (self w)) as [h|]; try destruct (Hnsw.initialized h);
      simplify_eq; cbn; try done; by rewrite lookup_insert_ne.
  - by rewrite Hs.
  - by rewrite Hs.
  - rewrite Hs. intros Hn [md Hmd]. congruence.
Qed.

Lemma initIndex_world w w' r :
  _index (self w) = None -> initIndex w = (w', r) -> WorldKeeps w w'.
Proof.
  intros Hn H. destruct (initIndex_keeps _ _ _ Hn H) as (K & -> & _).
  split; [done|]. intros HI.
  pose proof (inv_no_meta _ HI (inv_no_index _ HI Hn)) as Hfold.
  assert (Hs : self w' = self (fst (initIndex w))) by (by rewrite H).
  rewrite initIndex_self in Hs.
  unfold initIndex, bind, get, setSelf in H.
  pose proof (fun p => save_files _ _ _ p H) as Hgrow. cbn in Hgrow.
  destruct (save_Ok _ _ H) as (Hs' & _ & Hfile). cbn in Hs', Hfile.
  destruct (Hfile _ eq_refl) as [_ Hfiles].
  split.
  - intros p. apply Hgrow.
  - intros p Hp. rewrite Hfiles. rewrite lookup_insert_ne; [done|].
    intros <-. apply Hp; [rewrite Hs; cbn; eauto|].
    apply indexSavePath_eq; by rewrite Hs.
  - rewrite Hfold. by intros [? ?].
  - by rewrite Hs.
  - intros _ _. split; [rewrite Hs; cbn; eauto|].
    rewrite Hfiles. rewrite (indexSavePath_eq _ (self w')) by (by rewrite Hs).
    rewrite lookup_insert_eq. eauto.
Qed.

Lemma add_world indexData update w w' res :
  add indexData update w = (w', res) -> WorldKeeps w w'.
Proof.
  unfold add. intros H.
  destruct indexData as [|r0 rest]; [unfold throw in H; simplify_eq; apply WorldKeeps_refl|].
  unfold bind at 1, get at 1 in H. unfold bind at 1 in H.
  assert (Hi : exists w1 r1, (match _index (self w) with
                              | Some _ => ret tt | None => initIndex end) w = (w1, r1)
                             /\ WorldKeeps w w1).
  { destruct (_index (self w)) as [h|] eqn:Hh.
    - exists w, (Ok tt). unfold ret. split; [done|apply WorldKeeps_refl].
    - destruct (initIndex w) as [w1 r1] eqn:Hi. exists w1, r1. split; [done|].
      by eapply initIndex_world. }
  destruct Hi as (w1 & r1 & Hi & K1). rewrite Hi in H.
  eapply WorldKeeps_trans; [exact K1|].
  destruct r1 as [[]|e]; [|simplify_eq; apply WorldKeeps_refl].
  unfold bind at 1, get at 1 in H.
  destruct (_index (self w1)) as [h|]; [|unfold throw in H; simplify_eq; apply WorldKeeps_refl].
  destruct (negb _); [unfold throw in H; simplify_eq; apply WorldKeeps_refl|].
  unfold bind in H.
  destruct (onSelf (assignLabels _ _) w1) as [w2 r2] eqn:H2.
  assert (K2 : WorldKeeps w1 w2).
  { eapply onSelf_world; [exact H2|]. intros d d' r' Hm.
    split; [by eapply assignLabels_keeps|]. by eapply assignLabels_folder. }
  eapply WorldKeeps_trans; [exact K2|].
  destruct r2 as [[]|e]; [|simplify_eq; apply WorldKeeps_refl].
  destruct (onSelf resizeStep w2) as [w3 r3] eqn:H3.
  assert (K3 : WorldKeeps w2 w3).
  { eapply onSelf_world; [exact H3|]. intros d d' r' Hm.
    split; [by eapply resizeStep_keeps|].
    destruct (resizeStep_books _ _ _ Hm) as (_ & _ & C & D & E).
    split; [done|]. split; [done|]. congruence. }
  eapply WorldKeeps_trans; [exact K3|].
  destruct r3 as [[]|e]; [|simplify_eq; apply WorldKeeps_refl].
  destruct (onSelf (addPoints _) w3) as [w4 r4] eqn:H4.
  assert (K4 : WorldKeeps w3 w4).
  { eapply onSelf_world; [exact H4|]. intros d d' r' Hm.
    split; [by eapply addPoints_keeps|].
    destruct (addPoints_books _ _ _ _ Hm) as (_ & _ & C & D & E).
    split; [done|]. split; [done|]. congruence. }
  eapply WorldKeeps_trans; [exact K4|].
  destruct r4 as [[]|e]; [|simplify_eq; apply WorldKeeps_refl].
  by eapply save_world.
Qed.

Lemma delete_world ids w w' res : delete_ ids w = (w', res) -> WorldKeeps w w'.
Proof.
  unfold delete_, bind. intros H.
  destruct (onSelf (deleteLoop ids) w) as [w1 r1] eqn:H1.
  assert (K1 : WorldKeeps w w1).
  { eapply onSelf_world; [exact H1|]. intros d d' r' Hm.
    split; [|by eapply deleteLoop_folder].
    intros HI. destruct (deleteLoop_keeps _ _ _ _ Hm HI) as (HI' & C & T & L & R & F).
    split; [done|]. split; [|done]. split; [lia|done|auto]. }
  eapply WorldKeeps_trans; [exact K1|].
  destruct r1 as [[]|e]; [|simplify_eq; apply WorldKeeps_refl].
  by eapply save_world.
Qed.

Lemma run_world ops : forall w, WorldKeeps w (run ops w).
Proof.
  induction ops as [|o ops IH]; intros w; [apply WorldKeeps_refl|].
  cbn. eapply WorldKeeps_trans; [|apply IH].
  destruct o as [indexData update|ids]; cbn.
  - destruct (add indexData update w) as [w' r] eqn:E. by eapply add_world.
  - destruct (delete_ ids w) as [w' r] eqn:E. by eapply delete_world.
Qed.

Lemma fresh_blank cfg fs :
  _indexMetadata (self (fresh cfg fs)) = None /\
  _saveFolder (self (fresh cfg fs)) = None /\
  idToLabel (self (fresh cfg fs)) = ∅ /\ labelToId (self (fresh cfg fs)) = ∅.
Proof.
  cbn. unfold constructor, load. cbn.
  destruct (negb _); [done|]. by destruct (files fs !! _).
Qed.

Lemma reachable_Snapshotted cfg fs ops : Snapshotted (run ops (fresh cfg fs)).
Proof.
  intros Hmd.
  destruct (run_world ops (fresh cfg fs)) as [_ D].
  destruct (D (constructor_Inv cfg fs)) as [_ _ _ _ S].
  apply S; [apply fresh_blank|done].
Qed.

(** ** Paths *)

Lemma append_cons x (a b : string) : String x a +:+ b = String x (a +:+ b).
Proof. reflexivity. Qed.

Lemma prefix_app a b c : String.prefix (a +:+ b) (a +:+ c) = String.prefix b c.
Proof.
  induction a as [|x a IH]; [done|]. rewrite !append_cons. cbn.
  destruct (Ascii.ascii_dec x x); [exact IH|done].
Qed.

Lemma snapshot_inFolder cfg :
  inFolder (persistDirectory cfg +:+ "/index") (snapshotPath cfg) = true.
Proof.
  unfold inFolder, snapshotPath. rewrite prefix_app.
  rewrite !append_cons. reflexivity.
Qed.

Lemma length_append (a b : string) :
  String.length (a +:+ b) = String.length a + String.length b.
Proof.
  induction a as [|x a IH]; [done|]. rewrite append_cons. cbn. by rewrite IH.
Qed.

Lemma loadPath_not_snapshotPath cfg : loadPath cfg <> snapshotPath cfg.
Proof.
  unfold loadPath, snapshotPath.
  generalize ("/index_" +:+ id cfg +:+ ".bin")%string. intros s H.
  pose proof (f_equal String.length H) as Hlen.
  rewrite !length_append in Hlen. cbn in Hlen.
  destruct (persistDirectory cfg) as [|c1 [|c2 [|c3 [|c4 pd]]]]; cbn in Hlen; try lia.
  vm_compute in H. by simplify_eq.
Qed.

Lemma blank_path cfg : indexSavePath (mkDbIndex cfg None None None ∅ ∅) = loadPath cfg.
Proof. reflexivity. Qed.

(** ** What a returning [search] went through *)

Lemma search_Ok searchKnn d q k ids hits :
  search searchKnn d q k ids = Ok hits ->
  exists h md ns hs,
    _index d = Some h /\ _indexMetadata d = Some md /\ k <= elements md /\
    searchKnn h q (fst (preprocess d k ids)) (filterFn (snd (preprocess d k ids)))
      = inr ns /\
    hydrate d h ns = Ok hs /\ hits = sortHits hs.
Proof.
  unfold search. intros H.
  destruct (_index d) as [h|]; [|done].
  destruct (negb _); [done|].
  destruct (_indexMetadata d) as [md|]; [|done].
  destruct (_ <? _) eqn:Hk; [done|]. apply Nat.ltb_ge in Hk.
  destruct (preprocess d k ids) as [k' labels]. cbn [fst snd].
  unfold postprocess in H.
  destruct (searchKnn h q k' (filterFn labels)) as [e|ns] eqn:Hs; [done|].
  destruct (hydrate d h ns) as [hs|] eqn:Hy; [|done]. simplify_eq.
  by exists h, md, ns, hs.
Qed.

(** ** Entering [add] *)

Lemma entered_keeps w :
  Keeps (self w) (self (entered w)) /\ KeepsReady (self w) (self (entered w)) /\
  KeepsNoZero (self w) (self (entered w)) /\
  exists h, _index (self (entered w)) = Some h /\
            Hnsw.getNumDimensions h = indexDimension (self w).
Proof.
  unfold entered, indexDimension. destruct (_index (self w)) as [h|] eqn:Hh.
  - split; [apply Keeps_refl|]. split; [apply KeepsReady_refl|].
    split; [apply KeepsNoZero_refl|]. eauto.
  - destruct (initIndex w) as [w1 r1] eqn:Hi. cbn [fst].
    destruct (initIndex_keeps _ _ _ Hh Hi) as (K & _ & _).
    assert (Hs : self w1 = self (fst (initIndex w))) by (by rewrite Hi).
    rewrite initIndex_self in Hs.
    split; [exact K|]. split; [by eapply initIndex_ready|]. split.
    + split; [exact K|]. intros _ _ md h _ Hh1. rewrite Hs in Hh1. cbn in Hh1.
      injection Hh1 as <-. cbn. apply lookup_empty.
    + rewrite Hs. cbn. eexists. split; [reflexivity|]. reflexivity.
Qed.

Lemma add_entered r0 rest update w h :
  _index (self (entered w)) = Some h ->
  add (r0 :: rest) update w =
    if negb (length (embedding r0) =? Hnsw.getNumDimensions h)
    then (entered w, Err DimensionMismatch)
    else (onSelf (assignLabels (r0 :: rest) update) ;;;
          onSelf resizeStep ;;;
          onSelf (addPoints (r0 :: rest)) ;;;
          save) (entered w).
Proof.
  unfold entered. intros Hh. unfold add. unfold bind at 1, get at 1. unfold bind at 1.
  destruct (_index (self w)) as [h0|] eqn:Hh0.
  - unfold ret. unfold bind at 1, get at 1. rewrite Hh0. simplify_eq.
    by destruct (negb _).
  - destruct (initIndex w) as [w1 r1] eqn:Hi. cbn [fst] in Hh.
    destruct (initIndex_keeps _ _ _ Hh0 Hi) as (_ & -> & _).
    unfold bind at 1, get at 1. rewrite Hh. by destruct (negb _).
Qed.

(** ** The first loop of [add] *)




(** ** The second loop of [add] *)


(** ** Lazy initialisation and the disk *)

Lemma initIndex_disk w :
  let cfg := indexConfig (self w) in
  let w' := fst (initIndex w) in
  exists h, _index (self w') = Some h /\
            Hnsw.initialized h = true /\
            Hnsw.points h = ∅ /\ Hnsw.deleted h = ∅ /\
            files (disk w') = <[snapshotPath cfg := h]> (files (disk w)) /\
            existsSync (persistDirectory cfg +:+ "/index") (disk w') = true /\
            dirs (disk w) ⊆ dirs (disk w') /\
            dirs (disk w') ⊆ {[(persistDirectory cfg +:+ "/index")%string]} ∪ dirs (disk w).
Proof.
  intros cfg w'. subst cfg w'. unfold initIndex, bind, get, setSelf, save. cbn.
  destruct (existsSync _ (disk w)) eqn:He; cbn.
  - eexists. split; [reflexivity|]. split; [done|]. split; [done|]. split; [done|].
    split; [done|]. split; [|set_solver].
    unfold existsSync in *. cbn. apply orb_true_iff in He as [He|He].
    + by rewrite He.
    + apply bool_decide_eq_true in He. apply orb_true_iff. right.
      apply bool_decide_eq_true. apply lookup_insert_is_Some'. by right.
  - eexists. split; [reflexivity|]. split; [done|]. split; [done|]. split; [done|].
    split; [done|]. split; [|set_solver].
    unfold existsSync. cbn. rewrite bool_decide_eq_true_2; [done|set_solver].
Qed.

(** ** The database *)

Lemma getCollectionByName_Some db name c :
  getCollectionByName db name = Some c -> c ∈ collections db /\ row_id c = name.
Proof.
  unfold getCollectionByName. intros H. apply find_some in H as [H1 H2].
  split; [by apply list_elem_of_In|]. by apply bool_decide_eq_true in H2.
Qed.

Lemma getCollectionByName_None db name :
  (forall r, r ∈ collections db -> row_id r <> name) ->
  getCollectionByName db name = None.
Proof.
  intros Hid. unfold getCollectionByName. apply find_all_false. intros r Hr.
  apply bool_decide_eq_false. apply Hid. by apply list_elem_of_In.
Qed.

Lemma NoDup_replicate_le {A} (x : A) n : NoDup (replicate n x) -> n <= 1.
Proof.
  destruct n as [|[|n]]; [lia|lia|]. cbn. intros H.
  apply NoDup_cons in H as [H _]. exfalso. apply H. by left.
Qed.

Lemma names_after_update name md (l : list CollectionRow) :
  row_name <$> ((fun r => mkCollectionRow (row_id r) name md) <$> l)
  = replicate (length l) name.
Proof. induction l as [|r l IH]; cbn; [done|]. by rewrite IH. Qed.

Lemma ids_after_update name md (l : list CollectionRow) :
  row_id <$> ((fun r => mkCollectionRow (row_id r) name md) <$> l) = row_id <$> l.
Proof. induction l as [|r l IH]; cbn; [done|]. by rewrite IH. Qed.

(** Without an index cache. *)

Lemma createCollection_no_cache name metadata getOrCreate generated factoryResolves db :
  _indexCache db = None ->
  createCollection name metadata getOrCreate generated factoryResolves db =
    (db, match getCollectionByName db name with
         | Some existingCollection =>
           if getOrCreate then Ok existingCollection else Err (AlreadyExists name)
         | None => if factoryResolves then Err TypeError else Err KnexError
         end).
Proof.
  intros Hnone. unfold createCollection, bind, get.
  destruct (getCollectionByName db name) as [c|].
  - by destruct getOrCreate.
  - unfold insertCollection. destruct factoryResolves; [|done].
    unfold ret, createIndexForCollection. by rewrite Hnone.
Qed.

Lemma addEmbedding_no_cache input generated db :
  _indexCache db = None ->
  exists e, addEmbeddingToCollection input generated db = (db, Threw e).
Proof.
  intros Hnone. unfold addEmbeddingToCollection.
  destruct (getCollectionByName db _); [|eauto].
  destruct (in_embedding input); [|eauto]. rewrite Hnone. eauto.
Qed.

Lemma deleteEmbedding_no_cache collectionName embeddingId db :
  _indexCache db = None ->
  exists e, deleteEmbedding collectionName embeddingId db = (db, Err e).
Proof.
  intros Hnone. unfold deleteEmbedding, bind, get, throw.
  destruct (getCollectionByName db _); [|eauto].
  destruct (getEmbeddingById db _); [|eauto].
  destruct (negb _); [eauto|]. unfold deleteTransaction. rewrite Hnone. eauto.
Qed.

Lemma updateEmbedding_no_cache embeddingId input db :
  _indexCache db = None ->
  exists e, updateEmbedding embeddingId input db = (db, Err e) /\
    (forall collection row,
       getCollectionByName db (collectionName input) = Some collection ->
       getEmbeddingById db embeddingId = Some row ->
       emb_collectionId row = row_id collection -> e = TypeError).
Proof.
  intros Hnone. unfold updateEmbedding, bind, get, throw.
  destruct (getCollectionByName db _) as [c|]; [|by eexists].
  destruct (getEmbeddingById db _) as [row|]; [|by eexists].
  destruct (negb _) eqn:Hown.
  - eexists. split; [done|]. intros c' row' ? ? Heq. simplify_eq.
    rewrite bool_decide_eq_true_2 in Hown by done. done.
  - unfold updateTransaction. rewrite Hnone. by eexists.
Qed.

Lemma updateCollection_frame unique currentName newName newMetadata db db' res :
  updateCollection unique currentName newName newMetadata db = (db', res) ->
  _indexCache db' = _indexCache db /\ embeddings db' = embeddings db /\
  db_disk db' = db_disk db /\ db_persistDirectory db' = db_persistDirectory db /\
  row_id <$> collections db' = row_id <$> collections db.
Proof.
  unfold updateCollection, bind, get. intros H.
  destruct (getCollectionByName db currentName) as [c|];
    [|unfold throw in H; by simplify_eq].
  unfold updateAllCollections in H.
  destruct (_ && _); simplify_eq; [done|]. cbn.
  by rewrite ids_after_update.
Qed.

Lemma dbStep_frame unique db o :
  _indexCache db = None ->
  let db' := dbStep unique db o in
  _indexCache db' = None /\ embeddings db' = embeddings db /\
  db_disk db' = db_disk db /\ db_persistDirectory db' = db_persistDirectory db /\
  row_id <$> collections db' = row_id <$> collections db.
Proof.
  intros Hnone. cbv zeta.
  destruct o as [name md g gen f|cur new newmd|input generated|embeddingId input|cname embeddingId];
    unfold dbStep.
  - by rewrite createCollection_no_cache.
  - destruct (updateCollection _ _ _ _ db) as [db' res] eqn:E.
    destruct (updateCollection_frame _ _ _ _ _ _ _ E) as (H1 & H2 & H3 & H4 & H5).
    cbn [fst]. by rewrite H1.
  - destruct (addEmbedding_no_cache input generated db Hnone) as [e ->]. done.
  - destruct (updateEmbedding_no_cache embeddingId input db Hnone) as (e & -> & _). done.
  - destruct (deleteEmbedding_no_cache cname embeddingId db Hnone) as [e ->].
    done.
Qed.

Lemma dbRun_frame unique ops : forall db,
  _indexCache db = None ->
  let db' := dbRun unique ops db in
  _indexCache db' = None /\ embeddings db' = embeddings db /\
  db_disk db' = db_disk db /\ db_persistDirectory db' = db_persistDirectory db /\
  row_id <$> collections db' = row_id <$> collections db.
Proof.
  induction ops as [|o ops IH]; intros db Hnone; cbv zeta; [done|].
  change (dbRun unique (o :: ops) db) with (dbRun unique ops (dbStep unique db o)).
  destruct (dbStep_frame unique db o Hnone) as (H1 & H2 & H3 & H4 & H5).
  destruct (IH _ H1) as (I1 & I2 & I3 & I4 & I5).
  rewrite I2, I3, I4, I5. done.
Qed.

Lemma dbReachable_no_cache db : dbReachable db -> _indexCache db = None.
Proof.
  intros (unique & pd & cs & es & fs & ops & ->).
  by destruct (dbRun_frame unique ops (newSqliteDb pd cs es fs) eq_refl).
Qed.

(** ** Plain ids *)

Ltac plain_id :=
  unfold plainId;
  match goal with |- ?P => refine (@bool_decide_unpack P _ _) end;
  vm_compute; exact I.

(** * The claims *)

(** C1.  Label discipline.  In every state an index reaches through calls of
    [add] and [delete] (returning or throwing): the two dictionaries are
    inverse to each other, so ids and labels of live records are in
    bijection, and every label lies between 1 and the counter.  A call of
    [add] never lowers the counter, keeps every tombstone, keeps the label of
    every id that had one, and gives any other id a label above the old
    counter that no id and no stored or tombstoned vector occupied.  A call
    of [delete] leaves the counter alone, keeps every tombstone, assigns
    nothing, and when it returns each id it was given has lost its entry in
    both dictionaries while its label is tombstoned.  An id deleted with
    label [l] never gets [l] again, whatever is done afterwards. *)
Theorem labels_never_reused (w : World) :
  reachable w ->
  (forall i l, idToLabel (self w) !! i = Some l <-> labelToId (self w) !! l = Some i) /\
  (forall i j l, idToLabel (self w) !! i = Some l ->
                 idToLabel (self w) !! j = Some l -> i = j) /\
  (forall i l, idToLabel (self w) !! i = Some l -> 1 <= l <= counter (self w)) /\
  (forall indexData update,
      let w' := fst (add indexData update w) in
      counter (self w) <= counter (self w') /\
      tombstones (self w) ⊆ tombstones (self w') /\
      forall i l, idToLabel (self w') !! i = Some l ->
                  idToLabel (self w) !! i = Some l \/
                  (counter (self w) < l <= counter (self w') /\ ~ occupied (self w) l)) /\
  (forall ids,
      let w' := fst (delete_ ids w) in
      counter (self w') = counter (self w) /\
      tombstones (self w) ⊆ tombstones (self w') /\
      (forall i l, idToLabel (self w') !! i = Some l -> idToLabel (self w) !! i = Some l) /\
      (snd (delete_ ids w) = Ok tt ->
       forall i, i ∈ ids ->
         exists l, idToLabel (self w) !! i = Some l /\
                   idToLabel (self w') !! i = None /\
                   labelToId (self w') !! l = None /\
                   (l ∈ tombstones (self w')) /\
                   forall ops, idToLabel (self (run ops w')) !! i <> Some l)).
Proof.
  intros Hr. pose proof (reachable_Inv _ Hr) as HI.
  split; [apply HI|]. split; [|split; [apply HI|split]].
  - intros i j l Hi Hj. apply (inv_inverse _ HI) in Hi, Hj. congruence.
  - intros indexData update w'. subst w'.
    destruct (add indexData update w) as [w' r] eqn:E. cbn.
    destruct (add_keeps _ _ _ _ _ E HI) as (HI' & [C T L] & F).
    split; [done|]. split; [done|].
    intros i l Hl. destruct (L _ _ Hl) as [?|Hlt]; [by left|].
    destruct (_index (self w)) as [h|] eqn:Hh.
    + destruct (_indexMetadata (self w)) as [md|] eqn:Hmd.
      * right. split; [|apply not_occupied; eauto].
        apply (inv_label_range _ HI') in Hl. lia.
      * left. rewrite <- (F (ltac:(eauto)) eq_refl). done.
    + right. split; [|apply not_occupied; eauto].
      apply (inv_label_range _ HI') in Hl. lia.
  - intros ids w'. subst w'.
    destruct (delete_ ids w) as [w' r] eqn:E. cbn.
    destruct (delete_keeps _ _ _ _ E HI) as (HI' & C & T & L & R & F).
    split; [done|]. split; [done|]. split; [done|].
    intros -> i Hi.
    destruct (delete_Ok _ _ _ HI E i Hi) as (l & Hl & Hn & Hrm & Ht).
    exists l. split; [done|]. split; [done|]. split; [done|]. split; [done|].
    intros ops Hops.
    pose proof (run_Inv ops _ HI') as HIo.
    pose proof (run_tombstones ops _ HI') as To.
    destruct (_index (self (run ops w'))) as [h|] eqn:Hh.
    + apply (inv_tombstone_free _ HIo h _ _ Hh Hops).
      apply To in Ht. unfold tombstones in Ht. by rewrite Hh in Ht.
    + apply To in Ht. unfold tombstones in Ht. rewrite Hh in Ht. set_solver.
Qed.

Lemma labels_never_reused_witness :
  reachable w_bc /\
  idToLabel (self w_abc) !! "a"%string = Some 1 /\
  idToLabel (self w_bca) !! "a"%string = Some 4 /\
  (forall i j l, idToLabel (self w_bc) !! i = Some l ->
                 idToLabel (self w_bc) !! j = Some l -> i = j).
Proof.
  assert (Hr : reachable w_bc).
  { exists cfg0, fs0, [OpAdd [rec_a; rec_b; rec_c] false; OpDelete ["a"%string]].
    reflexivity. }
  split; [exact Hr|].
  split; [vm_compute; reflexivity|].
  split; [vm_compute; reflexivity|].
  apply (labels_never_reused w_bc Hr).
Defined.

(** C2.  A reconstructed index cannot answer.  The constructor looks for the
    snapshot while [_saveFolder] is still undefined, and neither the
    dictionaries nor the metadata are part of a snapshot: whatever the disk
    holds, a search on a freshly constructed index throws, and it throws
    "Index not created" unless a file lies at the path built from the
    undefined folder.  In particular, after three records were inserted and
    persisted, the original index answers a query and an index reconstructed
    over the same disk does not. *)
Theorem reconstructed_index_cannot_search :
  (forall (searchKnn : Hnsw.searchKnnT) cfg fs q k ids,
      exists e, search searchKnn (constructor cfg fs) q k ids = Err e /\
                (files fs !! ("undefined/index_" +:+ id cfg +:+ ".bin")%string = None ->
                 (("undefined/index_" +:+ id cfg +:+ ".bin")%string ∉ dirs fs) ->
                 e = IndexNotCreated)) /\
  is_Some (files (disk w_abc) !! "/data/index/index_c1.bin"%string) /\
  search exactKnn (self w_abc) [9 # 10; 1 # 10; 0]%Q 1 []
  = Ok [mkHit (Some "a"%string) (200 # 10000)%Q [1; 0; 0]%Q] /\
  search exactKnn (constructor cfg0 (disk w_abc)) [9 # 10; 1 # 10; 0]%Q 1 []
  = Err IndexNotCreated.
Proof.
  split; [|split; [vm_compute; eauto|split; vm_compute; reflexivity]].
  intros searchKnn cfg fs q k ids. unfold constructor, load, search.
  change (indexSavePath (mkDbIndex cfg None None None ∅ ∅))
    with ("undefined/index_" +:+ id cfg +:+ ".bin")%string.
  set (p := ("undefined/index_" +:+ id cfg +:+ ".bin")%string).
  destruct (existsSync p fs) eqn:Hex; cbn [negb].
  - assert (Hnot : ~ (files fs !! p = None /\ p ∉ dirs fs)).
    { unfold existsSync in Hex. intros [Hf Hd]. rewrite Hf in Hex.
      rewrite bool_decide_eq_false_2 in Hex by done.
      rewrite bool_decide_eq_false_2 in Hex; [done|]. by intros [? ?]. }
    destruct (files fs !! p); cbn;
      destruct (negb _); eexists; (split; [reflexivity|]); intros; tauto.
  - cbn. eexists. split; [reflexivity|done].
Qed.

(** C3.  A second [createCollection] with the same name.  [createCollection]
    stores nothing: its insert is issued on the imported [knex] factory and
    not on the database of the object, and the index cache it reads next was
    never assigned.  And an existing collection is looked up by
    [getCollectionByName], which compares the id column with the name.  So
    on every database reached from the constructor in which no row has the
    name as its id, whether or not a row has it as its name: a first call
    throws and leaves the database as it was, and so does a second call with
    the same name, for either value of [getOrCreate].  The error is the one
    of the factory's insert or the TypeError of the missing cache; it is
    never AlreadyExists, and no collection is returned. *)
Theorem createCollection_same_name (db : SqliteDb) (name : string)
    (metadata1 metadata2 : CollectionRowMetadata) (getOrCreate1 getOrCreate2 : bool)
    (generated1 generated2 : string) (factoryResolves1 factoryResolves2 : bool) :
  dbReachable db ->
  (forall r, r ∈ collections db -> row_id r <> name) ->
  let first :=
    createCollection name metadata1 getOrCreate1 generated1 factoryResolves1 db in
  let second :=
    createCollection name metadata2 getOrCreate2 generated2 factoryResolves2 (fst first) in
  fst first = db /\ fst second = db /\
  snd first = Err (if factoryResolves1 then TypeError else KnexError) /\
  snd second = Err (if factoryResolves2 then TypeError else KnexError) /\
  (forall row, snd second <> Ok row) /\ snd second <> Err (AlreadyExists name).
Proof.
  intros Hr Hid first second. subst first second.
  pose proof (dbReachable_no_cache _ Hr) as Hnone.
  pose proof (getCollectionByName_None _ _ Hid) as Hfind.
  rewrite !(createCollection_no_cache _ _ _ _ _ _ Hnone). cbn [fst snd].
  rewrite ?(createCollection_no_cache _ _ _ _ _ _ Hnone). cbn [fst snd].
  rewrite Hfind.
  split; [done|]. split; [done|]. split; [by destruct factoryResolves1|].
  split; [by destruct factoryResolves2|].
  split; [intros row|]; by destruct factoryResolves2.
Qed.

Lemma createCollection_same_name_witness :
  (exists r, r ∈ collections db_file /\ row_name r = "docs"%string) /\
  createCollection "docs" md3 false "id2" true db_file = (db_file, Err TypeError) /\
  createCollection "docs" md3 true "id3" true db_file = (db_file, Err TypeError) /\
  createCollection "docs" md3 true "id3" false db_file = (db_file, Err KnexError).
Proof.
  assert (Hr : dbReachable db_file).
  { exists true, "/data"%string, [mkCollectionRow "c1" "docs" md3], [emb1; emb2], fs0, [].
    reflexivity. }
  assert (Hid : forall r, r ∈ collections db_file -> row_id r <> "docs"%string).
  { intros r Hin. apply list_elem_of_singleton in Hin as ->. discriminate. }
  split; [exists (mkCollectionRow "c1" "docs" md3); split; [left|reflexivity]|].
  destruct (createCollection_same_name db_file "docs" md3 md3 false true "id2" "id3"
              true true Hr Hid) as (H1 & H2 & H3 & H4 & _).
  destruct (createCollection_same_name db_file "docs" md3 md3 false true "id2" "id3"
              true false Hr Hid) as (_ & H5 & _ & H6 & _).
  cbv zeta in *. rewrite H1 in H2, H4, H5, H6.
  split; [by apply injective_projections|].
  split; by apply injective_projections.
Defined.

(** C4 (amended).  [search] fails with RequestedCountExceedsAvailable exactly
    when the index exists, the query has its dimensionality, and k exceeds the
    cumulative counter.  The test comes before the id filter is looked at,
    and [delete] never lowers the counter, so deletions do not lower the
    bound. *)
Theorem search_count_check (searchKnn : Hnsw.searchKnnT) (d : DbIndex)
    (q : list Q) (k : nat) (ids : list string) :
  (search searchKnn d q k ids = Err RequestedCountExceedsAvailable <->
   exists h md, _index d = Some h /\ length q = Hnsw.getNumDimensions h /\
                _indexMetadata d = Some md /\ elements md < k) /\
  (forall w ids', counter (self (fst (delete_ ids' w))) = counter (self w)).
Proof.
  split; [|intros; apply delete_counter].
  unfold search. split.
  - destruct (_index d) as [h|]; [|done].
    destruct (length q =? Hnsw.getNumDimensions h) eqn:Hq; cbn [negb]; [|done].
    destruct (_indexMetadata d) as [md|]; [|done].
    destruct (elements md <? k) eqn:Hk.
    + intros _. exists h, md. apply Nat.eqb_eq in Hq. apply Nat.ltb_lt in Hk. done.
    + destruct (preprocess d k ids) as [k' labels]. unfold postprocess.
      destruct (searchKnn _ _ _ _); [intros; simplify_eq|].
      destruct (hydrate _ _ _) eqn:E; [intros; simplify_eq|].
      apply hydrate_error in E. intros; simplify_eq.
  - intros (h & md & -> & Hq & -> & Hk).
    apply Nat.eqb_eq in Hq. apply Nat.ltb_lt in Hk. rewrite Hq. cbn [negb].
    by rewrite Hk.
Qed.

(** C4 as stated fails.  With three records inserted and one deleted, two
    elements are live; a search for three neighbours is not refused and
    returns the two. *)
Lemma search_bound_is_counter :
  liveCount (self w_bc) = 2 /\
  counter (self w_bc) = 3 /\
  exists h1 h2, search exactKnn (self w_bc) [9 # 10; 1 # 10; 0]%Q 3 [] = Ok [h1; h2].
Proof.
  split; [vm_compute; reflexivity|]. split; [vm_compute; reflexivity|].
  vm_compute. eauto.
Qed.




(** C6 (amended).  [add] compares the length of the first vector of the batch
    with the dimensionality of the index.  When they differ the call fails
    with DimensionMismatch.  On an index that is already initialised nothing
    is mutated: the object and the disk are returned as they were.  On an
    index that is not, the only effect is the lazy initialisation that comes
    before the check: an empty native index with counter 0 is created and
    persisted, that is, written to persistDirectory/index/index_<id>.bin in
    a folder that exists afterwards, no other file being touched; and both
    dictionaries are unchanged. *)
Theorem add_wrong_dimension (w : World) (r0 : IndexData) (rest : list IndexData)
    (update : bool) :
  length (embedding r0) <> indexDimension (self w) ->
  add (r0 :: rest) update w =
    (match _index (self w) with Some _ => w | None => fst (initIndex w) end,
     Err DimensionMismatch) /\
  (_index (self w) = None ->
   let w' := fst (initIndex w) in
   let cfg := indexConfig (self w) in
   idToLabel (self w') = idToLabel (self w) /\
   labelToId (self w') = labelToId (self w) /\
   counter (self w') = 0 /\
   exists h, _index (self w') = Some h /\ Hnsw.points h = ∅ /\ Hnsw.deleted h = ∅ /\
             files (disk w') = <[snapshotPath cfg := h]> (files (disk w)) /\
             existsSync (persistDirectory cfg +:+ "/index") (disk w') = true /\
             dirs (disk w) ⊆ dirs (disk w') /\
             dirs (disk w') ⊆ {[(persistDirectory cfg +:+ "/index")%string]} ∪ dirs (disk w)).
Proof.
  intros Hdim. split.
  - destruct (entered_keeps w) as (_ & _ & _ & h & Hh & Hd).
    rewrite (add_entered _ _ _ _ _ Hh). rewrite Hd.
    apply Nat.eqb_neq in Hdim. rewrite Hdim. cbn [negb]. reflexivity.
  - intros Hh w' cfg. subst w' cfg.
    assert (Hs := initIndex_self w). rewrite Hs. cbn.
    split; [done|]. split; [done|]. split; [done|].
    destruct (initIndex_disk w) as (h & Hi & _ & Hp & Hdel & Hf & He & Hd1 & Hd2).
    rewrite Hs in Hi. cbn in Hi. exists h. done.
Qed.

Lemma add_wrong_dimension_witness :
  length (embedding (mkIndexData "d" [1; 0]%Q)) <> indexDimension (self w_bc) /\
  add [mkIndexData "d" [1; 0]%Q; rec_a] false w_bc = (w_bc, Err DimensionMismatch) /\
  (let w0 := fresh cfg0 fs0 in
   exists w' h,
     add [mkIndexData "d" [1; 0]%Q] false w0 = (w', Err DimensionMismatch) /\
     _index (self w') = Some h /\ Hnsw.points h = ∅ /\
     files (disk w') = {[ "/data/index/index_c1.bin"%string := h ]}).
Proof.
  assert (H : length (embedding (mkIndexData "d" [1; 0]%Q)) <> indexDimension (self w_bc))
    by (vm_compute; lia).
  split; [exact H|].
  split; [exact (proj1 (add_wrong_dimension w_bc (mkIndexData "d" [1; 0]%Q) [rec_a] false H))|].
  intros w0.
  assert (H0 : length (embedding (mkIndexData "d" [1; 0]%Q)) <> indexDimension (self w0))
    by (vm_compute; lia).
  destruct (add_wrong_dimension w0 (mkIndexData "d" [1; 0]%Q) [] false H0) as [Ha Hb].
  destruct (Hb eq_refl) as (_ & _ & _ & h & Hh & Hp & _ & Hf & _).
  exists (fst (initIndex w0)), h. split; [exact Ha|]. split; [exact Hh|].
  split; [exact Hp|]. rewrite Hf. reflexivity.
Defined.

(** C6 as stated fails.  A batch whose second vector is too short passes the
    check: labels are assigned (the counter moves from 3 to 5) and the error
    comes from the native index; and on an index not yet initialised a batch
    of the wrong length leaves a snapshot on the disk. *)
Lemma add_mismatch_mutates :
  let batch := [mkIndexData "d" [1; 0; 1]%Q; mkIndexData "e" [1; 0]%Q] in
  (exists r, r ∈ batch /\ length (embedding r) <> indexDimension (self w_bc)) /\
  snd (add batch false w_bc) = Err (HnswError InvalidLength) /\
  counter (self w_bc) = 3 /\
  counter (self (fst (add batch false w_bc))) = 5 /\
  idToLabel (self (fst (add batch false w_bc))) !! "e"%string = Some 5 /\
  (let w0 := fresh cfg0 fs0 in
   snd (add [mkIndexData "d" [1; 0]%Q] false w0) = Err DimensionMismatch /\
   files (disk w0) !! "/data/index/index_c1.bin"%string = None /\
   is_Some (files (disk (fst (add [mkIndexData "d" [1; 0]%Q] false w0)))
              !! "/data/index/index_c1.bin"%string)).
Proof.
  cbv zeta. split.
  - exists (mkIndexData "e" [1; 0]%Q). split; [right; left|vm_compute; lia].
  - repeat split; try (vm_compute; reflexivity).
    vm_compute. eauto.
Qed.

(** C7.  Once [delete([i])] has returned, the counter is what it was, and no
    search returns [i] among its hits, with or without an id filter and
    whatever the native neighbour search answers, in the state the call
    leaves and in every state reached from it by operations that do not
    insert [i] again. *)
Theorem deleted_id_never_returned (searchKnn : Hnsw.searchKnnT)
    (w w1 : World) (i : string) :
  reachable w ->
  delete_ [i] w = (w1, Ok tt) ->
  counter (self w1) = counter (self w) /\
  forall ops, (forall o, o ∈ ops -> ~ addsId o i) ->
    forall q k ids hits,
      search searchKnn (self (run ops w1)) q k ids = Ok hits ->
      Some i ∉ (hit_id <$> hits).
Proof.
  intros Hr Hd. pose proof (reachable_Inv _ Hr) as HI.
  destruct (delete_keeps _ _ _ _ Hd HI) as (HI1 & C & _).
  split; [done|]. intros ops Hops q k ids hits Hs Hin.
  destruct (delete_Ok _ _ _ HI Hd i) as (l & _ & Hn & _); [by left|].
  pose proof (run_unmapped i ops w1 HI1 Hops Hn) as Hno.
  apply list_elem_of_fmap in Hin as (y & Hy & Hyin).
  apply list_elem_of_In in Hyin.
  symmetry in Hy.
  destruct (search_hit_live _ _ _ _ _ _ _ i (run_Inv ops _ HI1) Hs Hyin Hy) as [l' Hl'].
  congruence.
Qed.

Lemma deleted_id_never_returned_witness :
  reachable w_abc /\
  delete_ ["a"%string] w_abc = (w_bc, Ok tt) /\
  counter (self w_bc) = 3 /\
  forall q k ids hits,
    search exactKnn (self (run [OpAdd [rec_b] true; OpDelete ["c"%string]] w_bc))
           q k ids = Ok hits ->
    Some "a"%string ∉ (hit_id <$> hits).
Proof.
  assert (Hr : reachable w_abc).
  { exists cfg0, fs0, [OpAdd [rec_a; rec_b; rec_c] false]. reflexivity. }
  assert (Hd : delete_ ["a"%string] w_abc = (w_bc, Ok tt)) by (vm_compute; reflexivity).
  split; [exact Hr|]. split; [exact Hd|].
  destruct (deleted_id_never_returned exactKnn w_abc w_bc "a"%string Hr Hd) as [Hc Hs].
  split; [vm_compute; reflexivity|].
  apply Hs. intros o Ho.
  apply elem_of_cons in Ho as [->|Ho]; [|apply list_elem_of_singleton in Ho as ->].
  - cbn. intros Hin. apply list_elem_of_singleton in Hin. discriminate.
  - cbn. tauto.
Defined.

(** C8 (amended).  For a search that passes the checks (index present, query
    of the right length, k not above the cumulative counter): with an empty
    id filter the native search is asked for k neighbours without a label
    predicate, so every live label is a candidate; with a non-empty filter
    whose ids are all live, it is asked for min(k, n) neighbours, n being the
    number of labels the filter names, under the predicate that accepts
    exactly these labels.  The result of [search] is the post-processed
    answer of that one native call. *)
Theorem search_filter_clamp (searchKnn : Hnsw.searchKnnT) (d : DbIndex)
    (h : Hnsw.t) (md : IndexMetadata) (q : list Q) (k : nat) (ids : list string) :
  _index d = Some h ->
  length q = Hnsw.getNumDimensions h ->
  _indexMetadata d = Some md ->
  k <= elements md ->
  (ids = [] ->
   search searchKnn d q k ids = postprocess d h (searchKnn h q k None)) /\
  (ids <> [] -> (forall i, i ∈ ids -> live d i) ->
   exists f,
     search searchKnn d q k ids =
       postprocess d h (searchKnn h q (k `min` size (namedLiveLabels d ids)) (Some f)) /\
     forall l, f l = true <-> l ∈ namedLiveLabels d ids).
Proof.
  intros Hh Hq Hmd Hk. unfold search. rewrite Hh, Hmd.
  apply Nat.eqb_eq in Hq. rewrite Hq. cbn [negb].
  apply Nat.ltb_ge in Hk. rewrite Hk. split.
  - intros ->. cbn. unfold filterFn. by rewrite size_empty.
  - intros Hne Hlive. destruct ids as [|i0 ids0]; [done|].
    set (ids := i0 :: ids0) in *.
    assert (Hpre : preprocess d k ids =
                   (k `min` size (namedLiveLabels d ids), resolveLabels d ids)).
    { unfold preprocess, ids. fold ids. f_equal.
      rewrite (resolveLabels_live d ids Hlive), size_set_map_Some.
      generalize (size (namedLiveLabels d ids)). intros n.
      destruct (n <? k) eqn:E; [apply Nat.ltb_lt in E | apply Nat.ltb_ge in E]; lia. }
    rewrite Hpre.
    assert (Hpos : size (resolveLabels d ids) <> 0).
    { apply size_non_empty_iff. destruct (Hlive i0) as [l Hl]; [by left|].
      intros Hemp. assert (Hin : Some l ∈ resolveLabels d ids).
      { unfold resolveLabels. rewrite elem_of_list_to_set, list_elem_of_fmap.
        exists i0. split; [done|by left]. }
      rewrite Hemp in Hin. set_solver. }
    unfold filterFn. apply Nat.eqb_neq in Hpos. rewrite Hpos.
    eexists. split; [reflexivity|].
    intros l. cbv beta. rewrite bool_decide_eq_true. apply resolveLabels_Some.
Qed.

Lemma search_filter_clamp_witness :
  exists h f,
    _index (self w_abc) = Some h /\
    search exactKnn (self w_abc) [9 # 10; 1 # 10; 0]%Q 3 ["b"; "c"]%string =
      postprocess (self w_abc) h (exactKnn h [9 # 10; 1 # 10; 0]%Q 2 (Some f)) /\
    forall l, f l = true <-> l ∈ namedLiveLabels (self w_abc) ["b"; "c"]%string.
Proof.
  destruct (_index (self w_abc)) as [h|] eqn:Hh; [|vm_compute in Hh; discriminate].
  assert (Hq : length [9 # 10; 1 # 10; 0]%Q = Hnsw.getNumDimensions h).
  { vm_compute in Hh. injection Hh as <-. reflexivity. }
  assert (Hmd : _indexMetadata (self w_abc) = Some (mkIndexMetadata 3))
    by (vm_compute; reflexivity).
  assert (Hk : 3 <= elements (mkIndexMetadata 3)) by (cbn; lia).
  destruct (search_filter_clamp exactKnn (self w_abc) h _ [9 # 10; 1 # 10; 0]%Q 3
              ["b"; "c"]%string Hh Hq Hmd Hk) as [_ H2].
  destruct H2 as (f & Hs & Hf).
  - discriminate.
  - intros i Hi. apply elem_of_cons in Hi as [->|Hi];
      [|apply list_elem_of_singleton in Hi as ->]; vm_compute; eauto.
  - exists h, f. split; [reflexivity|]. split; [|exact Hf]. rewrite Hs.
    replace (size (namedLiveLabels (self w_abc) ["b"; "c"]%string)) with 2
      by (vm_compute; reflexivity).
    reflexivity.
Defined.

(** C8 as stated fails.  With three live records, a search for five
    neighbours under a filter naming one of them is refused: the test against
    the counter comes before the clamp. *)
Lemma search_filter_not_clamped :
  size (namedLiveLabels (self w_abc) ["a"%string]) = 1 /\
  search exactKnn (self w_abc) [9 # 10; 1 # 10; 0]%Q 5 ["a"%string]
  = Err RequestedCountExceedsAvailable.
Proof. split; vm_compute; reflexivity. Qed.

(** C9.  [updateEmbedding] never writes.  The constructor does not assign
    [_indexCache] and no method creates it, so the transaction of
    [updateEmbedding] throws a TypeError where it reads the index of the
    collection: before the vector is written to the index and before the
    UPDATE (which carries no [where]) is issued.  On every database reached
    from the constructor [updateEmbedding] throws and leaves the database as
    it was; when the collection and the row are found and the row belongs to
    the collection, the error is that TypeError and the row addressed is
    found afterwards as it was before. *)
Theorem updateEmbedding_never_writes (db : SqliteDb) (embeddingId : string)
    (input : EmbeddingInput) :
  dbReachable db ->
  exists e,
    updateEmbedding embeddingId input db = (db, Err e) /\
    (forall collection row,
       getCollectionByName db (collectionName input) = Some collection ->
       getEmbeddingById db embeddingId = Some row ->
       emb_collectionId row = row_id collection ->
       e = TypeError /\
       getEmbeddingById (fst (updateEmbedding embeddingId input db)) embeddingId
       = Some row).
Proof.
  intros Hr. pose proof (dbReachable_no_cache _ Hr) as Hnone.
  destruct (updateEmbedding_no_cache embeddingId input db Hnone) as (e & He & Hty).
  exists e. split; [exact He|].
  intros collection row Hc Hrow Hown. split; [by eapply Hty|].
  by rewrite He.
Qed.

Lemma updateEmbedding_never_writes_witness :
  getEmbeddingById db_file "e1" = Some emb1 /\
  emb_document emb1 = Some "one"%string /\
  in_document input_e1 = Some "new"%string /\
  updateEmbedding "e1" input_e1 db_file = (db_file, Err TypeError).
Proof.
  assert (Hr : dbReachable db_file).
  { exists true, "/data"%string, [mkCollectionRow "c1" "docs" md3], [emb1; emb2], fs0, [].
    reflexivity. }
  split; [reflexivity|]. split; [reflexivity|]. split; [reflexivity|].
  destruct (updateEmbedding_never_writes db_file "e1" input_e1 Hr) as (e & He & Hty).
  destruct (Hty (mkCollectionRow "c1" "docs" md3) emb1 eq_refl eq_refl eq_refl)
    as [-> _].
  exact He.
Defined.

(** C10.  An id without a label makes [delete] fail.  If some id of the
    argument has no label when the call starts, the call throws and the disk
    is left as it was: no snapshot is written.  At such an id the loop body
    hands the native index an undefined label, which the index refuses, and
    the object is not changed by that body.  Hence a call that returns was
    given live ids only. *)
Theorem delete_unknown_id_fails (w : World) (ids : list string) (i : string) :
  i ∈ ids ->
  idToLabel (self w) !! i = None ->
  (exists e, snd (delete_ ids w) = Err e) /\
  disk (fst (delete_ ids w)) = disk w /\
  (forall h, _index (self w) = Some h ->
             Hnsw.markDelete (idToLabel (self w) !! i) h = Err (HnswError InvalidArgument) /\
             deleteOne i (self w) = (self w, Err (HnswError InvalidArgument))) /\
  (forall ids' w', delete_ ids' w = (w', Ok tt) ->
                   forall j, j ∈ ids' -> is_Some (idToLabel (self w) !! j)).
Proof.
  intros Hi Hn.
  assert (Hfail : forall ids0, i ∈ ids0 ->
             exists e, snd (delete_ ids0 w) = Err e /\ disk (fst (delete_ ids0 w)) = disk w).
  { intros ids0 Hi0. destruct (deleteLoop_unknown ids0 (self w) i Hi0 Hn) as (d' & e & He).
    exists e. unfold delete_, bind, onSelf. rewrite He. done. }
  destruct (Hfail ids Hi) as (e & He & Hdisk).
  split; [eauto|]. split; [done|]. split.
  - intros h Hh. rewrite Hn. split; [done|].
    unfold deleteOne, bind, get. rewrite Hh, Hn. done.
  - intros ids' w' Hok j Hj.
    destruct (idToLabel (self w) !! j) as [l|] eqn:E; [eauto|].
    destruct (deleteLoop_unknown ids' (self w) j Hj E) as (d' & e' & He').
    unfold delete_, bind, onSelf in Hok. rewrite He' in Hok. done.
Qed.

Lemma delete_unknown_id_fails_witness :
  ("zzz"%string ∈ ["b"; "zzz"]%string) /\
  idToLabel (self w_bc) !! "zzz"%string = None /\
  (exists e, snd (delete_ ["b"; "zzz"]%string w_bc) = Err e) /\
  disk (fst (delete_ ["b"; "zzz"]%string w_bc)) = disk w_bc.
Proof.
  assert (Hi : "zzz"%string ∈ ["b"; "zzz"]%string) by (right; left).
  assert (Hn : idToLabel (self w_bc) !! "zzz"%string = None) by (vm_compute; reflexivity).
  split; [exact Hi|]. split; [exact Hn|].
  destruct (delete_unknown_id_fails w_bc _ _ Hi Hn) as (He & Hd & _).
  split; [exact He | exact Hd].
Defined.

(** * Further properties: statements *)

(** X1.  A call [add(batch, false)] that returns, on an index reached by
    calls of [add] and [delete]: the ids of the batch are distinct and none
    had a label; the counter has advanced by the length of the batch; the
    record at position k carries the label counter + k + 1 in both
    dictionaries and its vector is stored under that label; the labels of
    other ids are untouched; and the snapshot on disk is the native index the
    call leaves. *)
Theorem add_postcondition (w w' : World) (batch : list IndexData) :
  reachable w ->
  add batch false w = (w', Ok tt) ->
  NoDup (data_id <$> batch) /\
  (forall r, r ∈ batch -> idToLabel (self w) !! data_id r = None) /\
  counter (self w') = counter (self w) + length batch /\
  (forall i, i ∉ (data_id <$> batch) ->
             idToLabel (self w') !! i = idToLabel (self w) !! i) /\
  exists h', _index (self w') = Some h' /\
             files (disk w') !! indexSavePath (self w') = Some h' /\
             forall k r, batch !! k = Some r ->
               idToLabel (self w') !! data_id r = Some (counter (self w) + S k) /\
               labelToId (self w') !! (counter (self w) + S k) = Some (data_id r) /\
               Hnsw.points h' !! (counter (self w) + S k) = Some (embedding r).
Proof.
  intros Hr H. pose proof (reachable_Inv _ Hr) as HI.
  destruct (add_Ok _ _ _ _ H)
    as (r0 & rest & w1 & h & d2 & d3 & d4 & Hb & Hinit & Hh & Hdim & H2 & H3 & H4 & H5).
  assert (H1 : Inv (self w1) /\ counter (self w1) = counter (self w) /\
               idToLabel (self w1) = idToLabel (self w)).
  { destruct Hinit as [[_ ->]|[Hn Hi]]; [done|].
    destruct (initIndex_keeps _ _ _ Hn Hi) as (K & _ & _).
    destruct (K HI) as (HI1 & _). split; [done|].
    assert (Hs : self w1 = self (fst (initIndex w))) by (by rewrite Hi).
    rewrite initIndex_self in Hs. rewrite Hs. unfold counter. cbn.
    by rewrite (inv_no_index _ HI Hn). }
  destruct H1 as (HI1 & Hc1 & Hm1).
  destruct (assignLabels_false_Ok _ _ _ HI1 H2) as (ND & Hun & Hc & Hl & Ho & Hx).
  pose proof (assignLabels_keeps _ _ _ _ _ H2 HI1) as (HI2 & _).
  pose proof (resizeStep_keeps _ _ _ H3 HI2) as (HI3 & _).
  pose proof (addPoints_keeps _ _ _ _ H4 HI3) as (HI4 & _).
  pose proof (resizeStep_books _ _ _ H3) as B3.
  pose proof (addPoints_books _ _ _ _ H4) as B4.
  destruct (save_Ok _ _ H5) as (Hs & _ & Hfile). cbn in Hs, Hfile.
  assert (Hh3 : exists h3, _index d3 = Some h3).
  { rewrite <- Hx in Hh. destruct (resizeStep_index _ _ _ _ H3 Hh) as (h3 & ? & _). eauto. }
  destruct Hh3 as [h3 Hh3].
  destruct (addPoints_index _ _ _ _ H4 Hh3) as (h' & Hh' & _).
  rewrite Hs.
  assert (Hmap : idToLabel d4 = idToLabel d2).
  { destruct B3 as (A3 & _), B4 as (A4 & _). congruence. }
  split; [done|]. split; [by rewrite <- Hm1|].
  split; [rewrite (counter_books _ _ B4), (counter_books _ _ B3); lia|].
  split; [intros i Hi; by rewrite Hmap, (Ho i Hi), Hm1|].
  exists h'. split; [done|]. split.
  { destruct (Hfile h' Hh') as [_ ->]. apply lookup_insert_eq. }
  intros k r Hk. rewrite Hmap, <- Hc1.
  pose proof (Hl k r Hk) as Hlab. split; [done|]. split.
  - apply (inv_inverse _ HI4). by rewrite Hmap.
  - destruct (addPoints_stored _ _ _ _ HI3 ND H4 Hh' r) as (l & Hl3 & Hst).
    { apply list_elem_of_lookup. eauto. }
    destruct B3 as (A3 & _). rewrite A3, Hlab in Hl3. by simplify_eq.
Qed.

Lemma add_postcondition_witness :
  reachable (fresh cfg0 fs0) /\
  add [rec_a; rec_b; rec_c] false (fresh cfg0 fs0) = (w_abc, Ok tt) /\
  counter (self w_abc) = 3 /\
  NoDup (data_id <$> [rec_a; rec_b; rec_c]).
Proof.
  assert (Hr : reachable (fresh cfg0 fs0)) by (exists cfg0, fs0, []; reflexivity).
  assert (Ha : add [rec_a; rec_b; rec_c] false (fresh cfg0 fs0) = (w_abc, Ok tt))
    by (vm_compute; reflexivity).
  destruct (add_postcondition _ _ _ Hr Ha) as (ND & _ & Hc & _).
  split; [exact Hr|]. split; [exact Ha|]. split; [|exact ND].
  rewrite Hc. reflexivity.
Defined.

(** X2.  The native index of an object that has initialised it.  After any
    history of [add] and [delete] calls on an index constructed for [cfg], as
    soon as the object has metadata: the native index exists, is initialised
    and has the configured dimensionality; every stored vector has exactly
    that length and sits under a label between 1 and the counter; and the
    number of stored vectors exceeds neither the capacity nor the counter. *)
Theorem stored_vectors_well_formed (cfg : IndexConfig) (fs : FileSystem)
    (ops : list Op) (md : IndexMetadata) :
  let d := self (run ops (fresh cfg fs)) in
  _indexMetadata d = Some md ->
  indexConfig d = cfg /\
  exists h, _index d = Some h /\
            Hnsw.initialized h = true /\
            Hnsw.getNumDimensions h = numberOfDimensions cfg /\
            (forall l v, Hnsw.points h !! l = Some v ->
                         length v = numberOfDimensions cfg /\ 1 <= l <= elements md) /\
            Hnsw.getCurrentCount h <= Hnsw.getMaxElements h /\
            Hnsw.getCurrentCount h <= elements md.
Proof.
  intros d Hmd.
  assert (Hr : reachable (run ops (fresh cfg fs))) by (by exists cfg, fs, ops).
  pose proof (reachable_Inv _ Hr) as HI.
  pose proof (reachable_Ready _ Hr) as HR.
  pose proof (reachable_NoZero _ Hr) as HZ.
  fold d in HI, HR, HZ.
  assert (Hcfg : indexConfig d = cfg) by apply run_config.
  split; [done|].
  destruct (rd_index _ HR _ Hmd) as (h & Hh & Hi & Hdim).
  exists h. split; [done|]. split; [done|]. split; [by rewrite <- Hcfg|].
  unfold Hnsw.getCurrentCount, Hnsw.getMaxElements. rewrite Hi.
  split; [|split].
  - intros l v Hl. split.
    + rewrite <- Hcfg, <- Hdim. by eapply (rd_vectors _ HR).
    + assert (Hs : is_Some (Hnsw.points h !! l)) by eauto.
      pose proof (inv_stored_range _ HI h md l Hh Hmd (or_introl Hs)).
      destruct l; [|lia]. by rewrite (HZ md h Hmd Hh) in Hl.
  - by eapply (rd_capacity _ HR).
  - by eapply stored_count_le_counter.
Qed.

Lemma stored_vectors_well_formed_witness :
  _indexMetadata (self w_bc) = Some (mkIndexMetadata 3) /\
  exists h, _index (self w_bc) = Some h /\
            Hnsw.getNumDimensions h = 3 /\ Hnsw.getCurrentCount h <= 3.
Proof.
  assert (Hmd : _indexMetadata (self (run [OpAdd [rec_a; rec_b; rec_c] false;
                                           OpDelete ["a"%string]] (fresh cfg0 fs0)))
                = Some (mkIndexMetadata 3)) by (vm_compute; reflexivity).
  split; [exact Hmd|].
  destruct (stored_vectors_well_formed cfg0 fs0 _ _ Hmd)
    as (_ & h & Hh & _ & Hdim & _ & _ & Hc).
  exists h. split; [exact Hh|]. split; [exact Hdim|exact Hc].
Defined.

(** X3.  Every call of [add] or [delete] that returns has written the native
    index it leaves to persistDirectory/index/index_<id>.bin, whatever the
    history of the index. *)
Theorem returning_calls_persist (cfg : IndexConfig) (fs : FileSystem)
    (ops : list Op) (o : Op) (w' : World) :
  let w := run ops (fresh cfg fs) in
  match o with
  | OpAdd indexData update => add indexData update w
  | OpDelete ids => delete_ ids w
  end = (w', Ok tt) ->
  exists h, _index (self w') = Some h /\
            files (disk w') !! snapshotPath cfg = Some h.
Proof.
  intros w H.
  assert (Hr' : reachable w') .
  { exists cfg, fs, (ops ++ [o]). unfold run. rewrite fold_left_app. cbn.
    fold (run ops (fresh cfg fs)). fold w. destruct o; cbn; by rewrite H. }
  pose proof (reachable_Inv _ Hr') as HI'.
  pose proof (reachable_Ready _ Hr') as HR'.
  assert (Hcfg : indexConfig (self w') = cfg).
  { destruct Hr' as (c & f & os & ->).
    assert (Hc : indexConfig (self (run (ops ++ [o]) (fresh cfg fs))) = cfg)
      by apply run_config.
    unfold run in Hc. rewrite fold_left_app in Hc. cbn in Hc.
    fold (run ops (fresh cfg fs)) in Hc. fold w in Hc.
    destruct o; cbn in Hc; rewrite H in Hc; exact Hc. }
  assert (Hsave : exists w4, save w4 = (w', Ok tt)).
  { destruct o as [indexData update|ids].
    - destruct (add_Ok _ _ _ _ H) as (? & ? & ? & ? & ? & ? & ? & _ & _ & _ & _ & _ & _ & _ & Hs).
      eauto.
    - unfold delete_, bind in H.
      destruct (onSelf (deleteLoop ids) w) as [w1 [[]|e]]; [eauto|done]. }
  destruct Hsave as [w4 Hs]. destruct (save_Ok _ _ Hs) as (Hself & [folder Hf] & Hfile).
  rewrite <- Hself in Hf, Hfile.
  destruct (_indexMetadata (self w')) as [md|] eqn:Hmd.
  2:{ rewrite (inv_no_meta _ HI' Hmd) in Hf. done. }
  destruct (rd_index _ HR' _ Hmd) as (h & Hh & _).
  exists h. split; [done|].
  destruct (Hfile h Hh) as [_ ->].
  rewrite (indexSavePath_ready _ _ HR' Hmd), Hcfg. apply lookup_insert_eq.
Qed.

Lemma returning_calls_persist_witness :
  delete_ ["a"%string] (run [OpAdd [rec_a; rec_b; rec_c] false] (fresh cfg0 fs0))
  = (w_bc, Ok tt) /\
  snapshotPath cfg0 = "/data/index/index_c1.bin"%string /\
  files (disk w_bc) !! "/data/index/index_c1.bin"%string = _index (self w_bc).
Proof.
  assert (H : delete_ ["a"%string] (run [OpAdd [rec_a; rec_b; rec_c] false] (fresh cfg0 fs0))
              = (w_bc, Ok tt)) by (vm_compute; reflexivity).
  split; [exact H|]. split; [reflexivity|].
  destruct (returning_calls_persist cfg0 fs0 [OpAdd [rec_a; rec_b; rec_c] false]
              (OpDelete ["a"%string]) w_bc H) as (h & Hh & Hf).
  rewrite Hh. exact Hf.
Defined.

(** X4.  No batch atomicity.  On an index that has metadata, a call
    [add(batch, false)] whose first vector has the dimensionality of the
    index and whose batch is [pre], then a record whose id already has a
    label or occurs in [pre], then anything, where the ids of [pre] are
    distinct, new and no names of members of [Object.prototype]: the call
    throws DuplicateId for that record; nothing is written to disk and the
    native index is untouched; yet the counter has advanced by the length of
    [pre], whose records keep the labels they were given although no vector
    is stored under them. *)
Theorem add_duplicate_id (w : World) (md : IndexMetadata)
    (pre post : list IndexData) (r : IndexData) :
  reachable w ->
  _indexMetadata (self w) = Some md ->
  (forall r0, head (pre ++ r :: post) = Some r0 ->
              length (embedding r0) = numberOfDimensions (indexConfig (self w))) ->
  NoDup (data_id <$> pre) ->
  (forall r', r' ∈ pre -> plainId (data_id r')) ->
  (forall r', r' ∈ pre -> idToLabel (self w) !! data_id r' = None) ->
  is_Some (idToLabel (self w) !! data_id r) \/ data_id r ∈ (data_id <$> pre) ->
  exists w',
    add (pre ++ r :: post) false w = (w', Err (DuplicateId (data_id r))) /\
    disk w' = disk w /\
    _index (self w') = _index (self w) /\
    counter (self w') = counter (self w) + length pre /\
    forall k r', pre !! k = Some r' ->
      idToLabel (self w') !! data_id r' = Some (counter (self w) + S k) /\
      ~ stored (self w') (counter (self w) + S k).
Proof.
  intros Hr Hmd Hdim ND _ Hun Hdup.
  pose proof (reachable_Inv _ Hr) as HI. pose proof (reachable_Ready _ Hr) as HR.
  destruct (rd_index _ HR _ Hmd) as (h & Hh & Hi & Hd).
  destruct (assignLabels_fresh false pre (self w) md HI Hmd ND Hun)
    as (d1 & H1 & HI1 & Hc1 & Hl1 & Ho1 & Hx1 & Hm1).
  assert (Ht : truthy (idToLabel d1 !! data_id r) = true).
  { destruct (decide (data_id r ∈ (data_id <$> pre))) as [Hin|Hnin].
    - apply list_elem_of_fmap in Hin as (r' & Heq & Hr').
      apply list_elem_of_lookup in Hr' as [k Hk].
      rewrite Heq, (Hl1 _ _ Hk). by rewrite Nat.add_succ_r.
    - destruct Hdup as [[l Hl]|Hin]; [|done].
      rewrite (Ho1 _ Hnin), Hl. apply (inv_label_range _ HI) in Hl.
      destruct l; [lia|done]. }
  assert (Hrun : assignLabels (pre ++ r :: post) false (self w)
                 = (d1, Err (DuplicateId (data_id r)))).
  { unfold assignLabels. rewrite forEach_app. fold (assignLabels pre false).
    rewrite H1. cbn. unfold bind at 1. unfold assignLabel, bind, get.
    by rewrite Ht. }
  exists (mkWorld d1 (disk w)).
  destruct (pre ++ r :: post) as [|r0 rest] eqn:Hb; [by destruct pre|].
  rewrite (add_step r0 rest false w h Hh).
  2:{ unfold Hnsw.getNumDimensions. rewrite Hd. by apply Hdim. }
  split; [unfold bind at 1, onSelf; by rewrite Hrun|].
  split; [done|]. split; [done|]. split; [done|].
  intros k r' Hk. split; [by apply Hl1|].
  intros (h0 & Hh0 & Hs). cbn in Hh0. rewrite Hx1, Hh in Hh0. simplify_eq.
  pose proof (inv_stored_range _ HI h0 md _ Hh Hmd Hs) as Hle.
  unfold counter in Hle. rewrite Hmd in Hle. lia.
Qed.

Lemma add_duplicate_id_witness :
  exists w',
    add ([mkIndexData "d" [1; 1; 0]%Q] ++ rec_b :: [rec_c]) false w_bc
    = (w', Err (DuplicateId "b")) /\
    disk w' = disk w_bc /\
    idToLabel (self w') !! "d"%string = Some 4 /\
    ~ stored (self w') 4.
Proof.
  assert (Hr : reachable w_bc).
  { exists cfg0, fs0, [OpAdd [rec_a; rec_b; rec_c] false; OpDelete ["a"%string]].
    reflexivity. }
  assert (Hmd : _indexMetadata (self w_bc) = Some (mkIndexMetadata 3))
    by (vm_compute; reflexivity).
  destruct (add_duplicate_id w_bc _ [mkIndexData "d" [1; 1; 0]%Q] [rec_c] rec_b Hr Hmd)
    as (w' & Ha & Hd & _ & _ & Hl).
  - intros r0 Hr0. cbn in Hr0. injection Hr0 as <-. vm_compute. reflexivity.
  - cbn. apply NoDup_singleton.
  - intros r' Hr'. apply list_elem_of_singleton in Hr' as ->.
    plain_id.
  - intros r' Hr'. apply list_elem_of_singleton in Hr' as ->. vm_compute. reflexivity.
  - left. vm_compute. eauto.
  - exists w'. split; [exact Ha|]. split; [exact Hd|].
    destruct (Hl 0 (mkIndexData "d" [1; 1; 0]%Q) eq_refl) as [H1 H2].
    split; [exact H1 | exact H2].
Defined.

(** X5.  Update in place.  On an index reached by calls of [add] and
    [delete], with a resize factor of at least 1: [add([{id, v}], true)] for
    an id that has a label under which a vector is stored, [v] being of the
    index dimensionality, returns; the id keeps its label, the dictionaries
    and the counter are unchanged, the vector under the label is now [v],
    every other stored vector and every tombstone is as before, and the
    result is persisted. *)
Theorem update_overwrites_in_place (w : World) (md : IndexMetadata) (i : string)
    (l : nat) (h : Hnsw.t) (v old : list Q) :
  reachable w ->
  _indexMetadata (self w) = Some md ->
  idToLabel (self w) !! i = Some l ->
  _index (self w) = Some h ->
  Hnsw.points h !! l = Some old ->
  length v = numberOfDimensions (indexConfig (self w)) ->
  (1 <= indexResizeFactor (indexConfig (self w)))%Q ->
  exists w' h',
    add [mkIndexData i v] true w = (w', Ok tt) /\
    idToLabel (self w') = idToLabel (self w) /\
    labelToId (self w') = labelToId (self w) /\
    counter (self w') = counter (self w) /\
    _index (self w') = Some h' /\
    Hnsw.points h' = <[l := v]> (Hnsw.points h) /\
    Hnsw.deleted h' = Hnsw.deleted h /\
    files (disk w') !! indexSavePath (self w') = Some h'.
Proof.
  intros Hr Hmd Hl Hh Hold Hlen Hf.
  pose proof (reachable_Inv _ Hr) as HI. pose proof (reachable_Ready _ Hr) as HR.
  destruct (rd_index _ HR _ Hmd) as (h0 & Hh0 & Hi & Hd). simplify_eq.
  rewrite (add_step _ [] true w h Hh).
  2:{ cbn. unfold Hnsw.getNumDimensions. by rewrite Hd. }
  (* first loop: the id is known, nothing is assigned *)
  assert (H1 : assignLabels [mkIndexData i v] true (self w) = (self w, Ok tt)).
  { unfold assignLabels. cbn. unfold bind at 1. unfold assignLabel, bind, get. cbn.
    rewrite Hl. apply (inv_label_range _ HI) in Hl. destruct l; [lia|]. done. }
  (* resize *)
  destruct (resizeStep_succeeds _ _ _ Hh Hmd Hi Hf) as [d3 H3].
  destruct (resizeStep_index _ _ _ _ H3 Hh) as (h3 & Hh3 & Hp3 & Hdel3).
  destruct (resizeStep_books _ _ _ H3) as (A3 & B3 & C3 & D3 & E3).
  pose proof (resizeStep_keeps _ _ _ H3 HI) as (HI3 & _).
  destruct (resizeStep_ready _ _ _ H3) as (_ & _ & HR3). specialize (HR3 HR).
  assert (Hmd3 : _indexMetadata d3 = Some md) by congruence.
  destruct (rd_index _ HR3 _ Hmd3) as (h3' & Hh3' & Hi3 & Hd3). simplify_eq.
  (* second loop: the vector is overwritten *)
  set (h4 := Hnsw.mk true (Hnsw.numDimensions h3) (Hnsw.maxElements h3) (Hnsw.ef h3)
                     (<[l := v]> (Hnsw.points h)) (Hnsw.deleted h3 ∖ {[l]})).
  assert (H4 : addPoints [mkIndexData i v] d3 = (setIndex h4 d3, Ok tt)).
  { unfold addPoints. cbn. unfold bind at 1. unfold addPointOf, bind, get. cbn.
    rewrite Hh3, A3, Hl. unfold Hnsw.addPoint. rewrite Hi3.
    assert (Hv : (length v =? Hnsw.numDimensions h3) = true).
    { apply Nat.eqb_eq. rewrite Hd3, E3. done. }
    rewrite Hv. cbn. rewrite Hp3, Hold. unfold put, ret. done. }
  (* save *)
  assert (Hfold : _saveFolder d3 = Some (persistDirectory (indexConfig d3) +:+ "/index")%string)
    by (by eapply (rd_folder _ HR3)).
  destruct (save (mkWorld (setIndex h4 d3) (disk w))) as [w' r5] eqn:H5.
  assert (Hr5 : r5 = Ok tt).
  { unfold save in H5. cbn in H5. rewrite Hfold in H5.
    destruct (existsSync _ _); cbn in H5; by simplify_eq. }
  subst r5. destruct (save_Ok _ _ H5) as (Hs & _ & Hfile). cbn in Hs, Hfile.
  exists w', h4.
  split.
  { unfold bind, onSelf. rewrite H1. cbn [self disk]. rewrite H3. cbn [self disk].
    rewrite H4. cbn [self disk]. exact H5. }
  rewrite Hs. cbn. split; [done|]. split; [done|].
  split; [unfold counter; cbn; by rewrite C3|].
  split; [done|]. split; [done|]. split.
  - rewrite Hdel3. pose proof (inv_tombstone_free _ HI h _ _ Hh Hl). set_solver.
  - destruct (Hfile h4 eq_refl) as [_ ->]. apply lookup_insert_eq.
Qed.

Lemma update_overwrites_in_place_witness :
  exists w' h',
    add [mkIndexData "b" [0; 0; 1]%Q] true w_bc = (w', Ok tt) /\
    idToLabel (self w') !! "b"%string = Some 2 /\
    _index (self w') = Some h' /\
    Hnsw.points h' !! 2 = Some [0; 0; 1]%Q.
Proof.
  assert (Hr : reachable w_bc).
  { exists cfg0, fs0, [OpAdd [rec_a; rec_b; rec_c] false; OpDelete ["a"%string]].
    reflexivity. }
  assert (Hmd : _indexMetadata (self w_bc) = Some (mkIndexMetadata 3))
    by (vm_compute; reflexivity).
  assert (Hl : idToLabel (self w_bc) !! "b"%string = Some 2) by (vm_compute; reflexivity).
  destruct (_index (self w_bc)) as [h|] eqn:Hh; [|vm_compute in Hh; discriminate].
  assert (Hold : Hnsw.points h !! 2 = Some [0; 1; 0]%Q).
  { vm_compute in Hh. injection Hh as <-. vm_compute. reflexivity. }
  destruct (update_overwrites_in_place w_bc _ "b" 2 h [0; 0; 1]%Q _ Hr Hmd Hl Hh Hold)
    as (w' & h' & Ha & Hm & _ & _ & Hh' & Hp & _).
  - vm_compute. reflexivity.
  - vm_compute. discriminate.
  - exists w', h'. split; [exact Ha|]. split; [by rewrite Hm|]. split; [exact Hh'|].
    rewrite Hp. apply lookup_insert_eq.
Defined.

(** X6.  What a search returns.  When [search] returns, the native search
    was asked once, for at most k neighbours; the hits are its neighbours in
    some order, one hit per neighbour, each with the id [labelToId] holds for
    the label, the distance the native search reported and the vector stored
    under the label; and the hits are in ascending order of distance. *)
Theorem search_result_sorted (searchKnn : Hnsw.searchKnnT) (d : DbIndex)
    (q : list Q) (k : nat) (ids : list string) (hits : list IndexSearchResult) :
  search searchKnn d q k ids = Ok hits ->
  Sorted ascending hits /\
  exists h k' f neighbors hs,
    _index d = Some h /\ k' <= k /\
    searchKnn h q k' f = inr neighbors /\
    Forall2 (hitOf d h) neighbors hs /\
    hs ≡ₚ hits /\ length hits = length neighbors.
Proof.
  intros H.
  destruct (search_Ok _ _ _ _ _ _ H) as (h & md & ns & hs & Hh & _ & _ & Hs & Hy & ->).
  split; [apply sortHits_sorted|].
  exists h, (fst (preprocess d k ids)), (filterFn (snd (preprocess d k ids))), ns, hs.
  pose proof (hydrate_Forall2 _ _ _ _ Hy) as HF.
  split; [done|]. split; [apply preprocess_le|]. split; [done|]. split; [done|].
  split; [by rewrite sortHits_perm|].
  rewrite (Permutation_length (sortHits_perm hs)). symmetry.
  by eapply Forall2_length.
Qed.

Lemma search_result_sorted_witness :
  exists y1 y2,
    search exactKnn (self w_abc) [1 # 10; 9 # 10; 0]%Q 2 [] = Ok [y1; y2] /\
    hit_id y1 = Some "b"%string /\
    (hit_distance y1 <= hit_distance y2)%Q.
Proof.
  destruct (search exactKnn (self w_abc) [1 # 10; 9 # 10; 0]%Q 2 []) as [hits|e] eqn:E;
    [|vm_compute in E; discriminate].
  destruct (search_result_sorted _ _ _ _ _ _ E) as [Hs _].
  assert (Hh : exists y1 y2, hits = [y1; y2] /\ hit_id y1 = Some "b"%string).
  { vm_compute in E. injection E as <-. eauto. }
  destruct Hh as (y1 & y2 & -> & Hid). exists y1, y2.
  split; [reflexivity|]. split; [exact Hid|].
  inversion Hs as [|? ? _ Hhd]. by inversion Hhd.
Defined.

(** X7.  Hits name live records.  On an index reached by calls of [add] and
    [delete], whatever the native search answers: a hit that carries an id
    carries the id of a record that currently has a label, and the vector of
    the hit is the vector stored under that label. *)
Theorem hits_are_live (searchKnn : Hnsw.searchKnnT) (w : World)
    (q : list Q) (k : nat) (ids : list string) (hits : list IndexSearchResult)
    (y : IndexSearchResult) (i : string) :
  reachable w ->
  search searchKnn (self w) q k ids = Ok hits ->
  y ∈ hits ->
  hit_id y = Some i ->
  exists l h, idToLabel (self w) !! i = Some l /\ _index (self w) = Some h /\
              Hnsw.points h !! l = Some (hit_embedding y).
Proof.
  intros Hr H Hy Hid. pose proof (reachable_Inv _ Hr) as HI.
  destruct (search_Ok _ _ _ _ _ _ H) as (h & md & ns & hs & Hh & _ & _ & _ & Hhyd & ->).
  pose proof (hydrate_Forall2 _ _ _ _ Hhyd) as HF.
  rewrite (sortHits_perm hs) in Hy.
  apply list_elem_of_lookup in Hy as [n Hn].
  destruct (Forall2_lookup_r _ _ _ _ _ HF Hn) as (p & _ & Hid' & _ & Hv).
  rewrite Hid in Hid'. symmetry in Hid'. apply (inv_inverse _ HI) in Hid'.
  exists (fst p), h. done.
Qed.

Lemma hits_are_live_witness :
  exists y,
    search exactKnn (self w_bc) [9 # 10; 1 # 10; 0]%Q 1 [] = Ok [y] /\
    hit_id y = Some "b"%string /\
    exists l h, idToLabel (self w_bc) !! "b"%string = Some l /\
                _index (self w_bc) = Some h /\
                Hnsw.points h !! l = Some (hit_embedding y).
Proof.
  assert (Hr : reachable w_bc).
  { exists cfg0, fs0, [OpAdd [rec_a; rec_b; rec_c] false; OpDelete ["a"%string]].
    reflexivity. }
  destruct (search exactKnn (self w_bc) [9 # 10; 1 # 10; 0]%Q 1 []) as [hits|e] eqn:E;
    [|vm_compute in E; discriminate].
  assert (Hh : exists y, hits = [y] /\ hit_id y = Some "b"%string).
  { vm_compute in E. injection E as <-. eauto. }
  destruct Hh as (y & -> & Hid). exists y.
  split; [reflexivity|]. split; [exact Hid|].
  apply (hits_are_live exactKnn w_bc _ _ _ _ y "b" Hr E); [by left|exact Hid].
Defined.

(** X8.  Ids without a label in a filter.  For a search that passes the
    checks with a non-empty id filter none of whose ids names a member of
    [Object.prototype]: the native search is restricted to exactly the labels
    of the live ids the filter names, but the ids without a label count
    together as one more member of the label set, so k is clamped to
    min(k, n + 1) instead of min(k, n) when the filter names n live labels
    and at least one id that has none.  A filter of unknown ids only asks
    for min(k, 1) neighbours under a predicate that rejects every label. *)
Theorem filter_counts_unknown_ids (searchKnn : Hnsw.searchKnnT) (d : DbIndex)
    (h : Hnsw.t) (md : IndexMetadata) (q : list Q) (k : nat) (ids : list string) :
  _index d = Some h ->
  length q = Hnsw.getNumDimensions h ->
  _indexMetadata d = Some md ->
  k <= elements md ->
  ids <> [] ->
  Forall plainId ids ->
  exists f,
    search searchKnn d q k ids =
      postprocess d h
        (searchKnn h q
           (k `min` (size (namedLiveLabels d ids) + (if hasUnknownId d ids then 1 else 0)))
           (Some f)) /\
    (forall l, f l = true <-> l ∈ namedLiveLabels d ids) /\
    ((forall i, i ∈ ids -> idToLabel d !! i = None) ->
     hasUnknownId d ids = true /\ namedLiveLabels d ids = ∅ /\ forall l, f l = false).
Proof.
  intros Hh Hq Hmd Hk Hne _. unfold search. rewrite Hh, Hmd.
  apply Nat.eqb_eq in Hq. rewrite Hq. cbn [negb].
  apply Nat.ltb_ge in Hk. rewrite Hk.
  destruct ids as [|i0 ids0]; [done|]. set (ids := i0 :: ids0) in *.
  assert (Hpre : preprocess d k ids =
                 (k `min` (size (namedLiveLabels d ids)
                           + (if hasUnknownId d ids then 1 else 0)),
                  resolveLabels d ids)).
  { unfold preprocess, ids. fold ids. f_equal. rewrite resolveLabels_size.
    generalize (size (namedLiveLabels d ids) + (if hasUnknownId d ids then 1 else 0)).
    intros n. destruct (n <? k) eqn:E; [apply Nat.ltb_lt in E | apply Nat.ltb_ge in E]; lia. }
  rewrite Hpre. unfold filterFn.
  pose proof (resolveLabels_nonempty d i0 ids0) as Hpos. fold ids in Hpos.
  apply Nat.eqb_neq in Hpos. rewrite Hpos.
  eexists. split; [reflexivity|].
  assert (Hf : forall l, bool_decide (Some l ∈ resolveLabels d ids) = true
                         <-> l ∈ namedLiveLabels d ids).
  { intros l. rewrite bool_decide_eq_true. apply resolveLabels_Some. }
  split; [exact Hf|].
  intros Hun.
  assert (Hemp : namedLiveLabels d ids = ∅).
  { apply set_eq. intros l. split; [|set_solver].
    unfold namedLiveLabels. rewrite elem_of_list_to_set, list_elem_of_omap.
    intros (i & Hi & Hl). rewrite (Hun i Hi) in Hl. done. }
  split; [|split; [done|]].
  - unfold hasUnknownId. apply bool_decide_eq_true. apply Exists_exists.
    exists i0. split; [by left|]. apply Hun. by left.
  - intros l. cbv beta. apply bool_decide_eq_false. rewrite resolveLabels_Some, Hemp.
    set_solver.
Qed.

Lemma filter_counts_unknown_ids_witness :
  exists h f,
    _index (self w_abc) = Some h /\
    search exactKnn (self w_abc) [9 # 10; 1 # 10; 0]%Q 3 ["b"; "zzz"]%string =
      postprocess (self w_abc) h (exactKnn h [9 # 10; 1 # 10; 0]%Q 2 (Some f)) /\
    forall l, f l = true <-> l ∈ namedLiveLabels (self w_abc) ["b"; "zzz"]%string.
Proof.
  destruct (_index (self w_abc)) as [h|] eqn:Hh; [|vm_compute in Hh; discriminate].
  assert (Hq : length [9 # 10; 1 # 10; 0]%Q = Hnsw.getNumDimensions h).
  { vm_compute in Hh. injection Hh as <-. reflexivity. }
  assert (Hmd : _indexMetadata (self w_abc) = Some (mkIndexMetadata 3))
    by (vm_compute; reflexivity).
  assert (Hk : 3 <= elements (mkIndexMetadata 3)) by (cbn; lia).
  destruct (filter_counts_unknown_ids exactKnn (self w_abc) h _ [9 # 10; 1 # 10; 0]%Q 3
              ["b"; "zzz"]%string Hh Hq Hmd Hk) as (f & Hs & Hf & _);
    [discriminate | repeat (constructor; [plain_id|]); constructor |].
  exists h, f. split; [reflexivity|]. split; [|exact Hf]. rewrite Hs.
  replace (size (namedLiveLabels (self w_abc) ["b"; "zzz"]%string)
           + (if hasUnknownId (self w_abc) ["b"; "zzz"]%string then 1 else 0)) with 2
    by (vm_compute; reflexivity).
  reflexivity.
Defined.

(** X9.  [dropIndex] on an index that has been initialised.  After any
    history of [add] and [delete] calls, once the object has metadata:
    [dropIndex] throws and resets nothing, because the folder it tries to
    remove holds the snapshot; when that folder is a directory the error says
    that the directory is not empty. *)
Theorem dropIndex_fails_once_initialised (cfg : IndexConfig) (fs : FileSystem)
    (ops : list Op) (md : IndexMetadata) :
  let w := run ops (fresh cfg fs) in
  _indexMetadata (self w) = Some md ->
  exists f, dropIndex w = (w, inl f) /\
            ((persistDirectory cfg +:+ "/index")%string ∈ dirs (disk w) -> f = ENOTEMPTY).
Proof.
  intros w Hmd.
  assert (Hr : reachable w) by (by exists cfg, fs, ops).
  pose proof (reachable_Ready _ Hr) as HR.
  pose proof (reachable_Snapshotted cfg fs ops) as HS. fold w in HS.
  assert (Hcfg : indexConfig (self w) = cfg) by apply run_config.
  destruct (rd_index _ HR _ Hmd) as (h & Hh & _).
  pose proof (rd_folder _ HR _ Hmd) as Hf. rewrite Hcfg in Hf.
  destruct HS as [_ [snap Hsnap]]; [eauto|].
  rewrite (indexSavePath_ready _ _ HR Hmd), Hcfg in Hsnap.
  unfold dropIndex. rewrite Hh, Hf. unfold rmdirSync.
  assert (Hne : isEmptyDir (persistDirectory cfg +:+ "/index") (disk w) = false).
  { unfold isEmptyDir. rewrite bool_decide_eq_false_2; [done|].
    intros Hall. specialize (Hall _ _ Hsnap). cbn in Hall.
    by rewrite snapshot_inFolder in Hall. }
  rewrite Hne. case_bool_decide; [eauto|].
  case_bool_decide; eexists; (split; [reflexivity|done]).
Qed.

Lemma dropIndex_fails_once_initialised_witness :
  _indexMetadata (self w_bc) = Some (mkIndexMetadata 3) /\
  dropIndex w_bc = (w_bc, inl ENOTEMPTY).
Proof.
  assert (Hmd : _indexMetadata (self (run [OpAdd [rec_a; rec_b; rec_c] false;
                                           OpDelete ["a"%string]] (fresh cfg0 fs0)))
                = Some (mkIndexMetadata 3)) by (vm_compute; reflexivity).
  split; [exact Hmd|].
  destruct (dropIndex_fails_once_initialised cfg0 fs0 _ _ Hmd) as (f & Hd & Hf).
  rewrite Hf in Hd; [exact Hd|]. vm_compute. set_solver.
Defined.

(** X10.  The constructor never reads what [save] wrote.  [save] writes to
    persistDirectory/index/index_<id>.bin, the constructor reads
    undefined/index_<id>.bin, and the two paths differ for every
    configuration.  Hence, if no file lay at the second path before the index
    was first used, then after any history of [add] and [delete] calls an
    index constructed anew for the same configuration over the resulting disk
    has empty dictionaries, no metadata and no stored vector. *)
Theorem snapshot_never_reloaded (cfg : IndexConfig) (fs : FileSystem) (ops : list Op) :
  files fs !! loadPath cfg = None ->
  let d' := constructor cfg (disk (run ops (fresh cfg fs))) in
  loadPath cfg <> snapshotPath cfg /\
  idToLabel d' = ∅ /\ labelToId d' = ∅ /\ _indexMetadata d' = None /\
  forall h, _index d' = Some h -> Hnsw.initialized h = false /\ Hnsw.points h = ∅.
Proof.
  intros Hnone d'. split; [apply loadPath_not_snapshotPath|].
  set (w := run ops (fresh cfg fs)) in *.
  assert (Hr : reachable w) by (by exists cfg, fs, ops).
  pose proof (reachable_Inv _ Hr) as HI. pose proof (reachable_Ready _ Hr) as HR.
  assert (Hcfg : indexConfig (self w) = cfg) by apply run_config.
  assert (Hfile : files (disk w) !! loadPath cfg = None).
  { destruct (run_world ops (fresh cfg fs)) as [_ D].
    destruct (D (constructor_Inv cfg fs)) as [_ W _ _ _]. fold w in W.
    rewrite W; [exact Hnone|]. intros [folder Hf].
    destruct (_indexMetadata (self w)) as [md|] eqn:Hmd.
    - rewrite (indexSavePath_ready _ _ HR Hmd), Hcfg. apply loadPath_not_snapshotPath.
    - rewrite (inv_no_meta _ HI Hmd) in Hf. done. }
  subst d'. unfold constructor, load. rewrite blank_path. cbn.
  destruct (negb _).
  - split; [done|]. split; [done|]. split; [done|]. intros h Hh. discriminate.
  - rewrite Hfile. split; [done|]. split; [done|]. split; [done|].
    intros h Hh. cbn in Hh. injection Hh as <-. done.
Qed.

Lemma snapshot_never_reloaded_witness :
  files fs0 !! loadPath cfg0 = None /\
  _index (constructor cfg0 (disk w_bc)) = None /\
  idToLabel (constructor cfg0 (disk w_bc)) = ∅.
Proof.
  assert (Hn : files fs0 !! loadPath cfg0 = None) by (vm_compute; reflexivity).
  split; [exact Hn|]. split; [vm_compute; reflexivity|].
  destruct (snapshot_never_reloaded cfg0 fs0
              [OpAdd [rec_a; rec_b; rec_c] false; OpDelete ["a"%string]] Hn)
    as (_ & Hm & _).
  exact Hm.
Defined.

(** X15.  [updateCollection] rewrites every row.  Its UPDATE carries no
    [where].  Whether or not the collections table enforces unique names, the
    call never touches the embeddings, the index cache or the disk.  When it
    returns, a row whose id (not name) equals [currentName] was found; the
    number returned is the number of rows of the table; and every row of the
    table, whatever its id, now carries the new name ([currentName] itself
    when none was given) and the new metadata (the metadata of the row found
    when none was given) with the default resize factor filled in by the
    validator; the ids are as before.  When it throws, the database is
    unchanged.  If the table enforces unique names, the call can return only
    when the table holds that one row, and throws whenever it holds two or
    more. *)
Theorem updateCollection_outcome (unique : bool) (currentName : string)
    (newName : option string) (newMetadata : option CollectionRowMetadata)
    (db db' : SqliteDb) (res : Result nat) :
  updateCollection unique currentName newName newMetadata db = (db', res) ->
  embeddings db' = embeddings db /\ _indexCache db' = _indexCache db /\
  db_disk db' = db_disk db /\
  (unique = true -> 2 <= length (collections db) -> exists e, res = Err e) /\
  match res with
  | Ok n =>
    exists c,
      getCollectionByName db currentName = Some c /\ row_id c = currentName /\
      n = length (collections db) /\
      collections db' =
        (fun r => mkCollectionRow (row_id r)
           (if falsyString newName then currentName else default currentName newName)
           (validateCollectionRowMetadata (default (row_metadata c) newMetadata)))
        <$> collections db /\
      (unique = true -> collections db = [c])
  | Err _ => db' = db
  end.
Proof.
  intros H.
  destruct (updateCollection_frame _ _ _ _ _ _ _ H) as (Hcache & Hemb & Hdisk & _ & _).
  split; [done|]. split; [done|]. split; [done|].
  unfold updateCollection, bind, get in H.
  destruct (getCollectionByName db currentName) as [c|] eqn:Hc.
  2:{ unfold throw in H. simplify_eq. split; [eauto|done]. }
  destruct (getCollectionByName_Some _ _ _ Hc) as [Hin Hid].
  unfold updateAllCollections in H. rewrite names_after_update in H.
  destruct unique; cbn [andb] in H.
  - destruct (bool_decide _) eqn:Hnd; cbn [negb] in H.
    + apply bool_decide_eq_true in Hnd. apply NoDup_replicate_le in Hnd.
      injection H as <- <-. split; [intros _ Hlen; lia|].
      exists c. rewrite length_fmap. cbn [collections].
      split; [done|]. split; [done|]. split; [done|]. split; [done|]. intros _.
      destruct (collections db) as [|c0 [|c1 rest]]; cbn in Hnd; [|clear Hnd|lia].
      { by apply elem_of_nil in Hin. }
      by apply list_elem_of_singleton in Hin as <-.
    + injection H as <- <-. split; [eauto|done].
  - injection H as <- <-. split; [done|].
    exists c. rewrite length_fmap. cbn [collections]. done.
Qed.

Lemma updateCollection_outcome_witness :
  (exists db',
     updateCollection false "c1" (Some "papers"%string) None db_two = (db', Ok 2) /\
     collections db' =
       [mkCollectionRow "c1" "papers" (mkMetadata 3 None None (Some 1%Q));
        mkCollectionRow "c2" "papers" (mkMetadata 3 None None (Some 1%Q))]) /\
  (exists e, updateCollection true "c1" (Some "papers"%string) None db_two
             = (db_two, Err e)).
Proof.
  split.
  - destruct (updateCollection false "c1" (Some "papers"%string) None db_two)
      as [db' r] eqn:E.
    assert (Hr : r = Ok 2).
    { assert (Hs : snd (updateCollection false "c1" (Some "papers"%string) None db_two)
                   = Ok 2) by (vm_compute; reflexivity).
      by rewrite E in Hs. }
    subst r. exists db'. split; [reflexivity|].
    destruct (updateCollection_outcome _ _ _ _ _ _ _ E)
      as (_ & _ & _ & _ & c & Hc & _ & _ & Hrows & _).
    vm_compute in Hc. injection Hc as <-. exact Hrows.
  - destruct (updateCollection true "c1" (Some "papers"%string) None db_two)
      as [db' r] eqn:E.
    destruct (updateCollection_outcome _ _ _ _ _ _ _ E) as (_ & _ & _ & Hfail & Hres).
    destruct Hfail as [e ->]; [reflexivity|cbn; lia|]. subst db'. by exists e.
Defined.

(** X20.  A database has no index cache.  The constructor never assigns
    [_indexCache] and no method creates it, and the insert of
    [createCollection] goes to another knex instance.  After every history
    of calls on a database the constructor opened: the cache is absent; the
    embeddings table, the disk and the ids of the collections are those the
    constructor found; and [addEmbeddingToCollection], [deleteEmbedding] and
    [updateEmbedding] throw and change nothing, while [getNearestNeighbors]
    throws. *)
Theorem no_cache_no_index (unique : bool) (persistDirectory : string)
    (cs : list CollectionRow) (es : list EmbeddingRow) (fs : FileSystem)
    (ops : list DbOp) :
  let db := dbRun unique ops (newSqliteDb persistDirectory cs es fs) in
  _indexCache db = None /\
  embeddings db = es /\ db_disk db = fs /\
  row_id <$> collections db = row_id <$> cs /\
  (forall input generated,
     exists e, addEmbeddingToCollection input generated db = (db, Threw e)) /\
  (forall collectionName embeddingId,
     exists e, deleteEmbedding collectionName embeddingId db = (db, Err e)) /\
  (forall embeddingId input,
     exists e, updateEmbedding embeddingId input db = (db, Err e)) /\
  (forall searchKnn embeddingEq queryInput,
     exists e, getNearestNeighbors searchKnn embeddingEq queryInput db = Threw e).
Proof.
  intros db.
  destruct (dbRun_frame unique ops (newSqliteDb persistDirectory cs es fs) eq_refl)
    as (Hnone & Hemb & Hdisk & _ & Hids).
  fold db in Hnone, Hemb, Hdisk, Hids.
  split; [done|]. split; [done|]. split; [done|]. split; [done|].
  split; [|split; [|split]].
  - intros input generated. by apply addEmbedding_no_cache.
  - intros cn eid. by apply deleteEmbedding_no_cache.
  - intros eid input.
    destruct (updateEmbedding_no_cache eid input db Hnone) as (e & He & _). eauto.
  - intros searchKnn embeddingEq q. unfold getNearestNeighbors, get_.
    destruct (getCollectionByName db _); [|eauto]. rewrite Hnone. eauto.
Qed.

Lemma no_cache_no_index_witness :
  let db := dbRun true
              [DbCreateCollection "notes" md3 false "id9" true;
               DbAddEmbedding input_e1 "e3";
               DbDeleteEmbedding "c1" "e1"] db_file in
  db = db_file /\
  (exists e, addEmbeddingToCollection input_e1 "e3" db = (db, Threw e)) /\
  (exists e, deleteEmbedding "c1" "e1" db = (db, Err e)) /\
  (exists e, getNearestNeighbors exactKnn (fun _ _ => true)
               (mkSearchQueryInput
                  (mkQueryInput "c1" (mkWhere [1; 0; 0]%Q None None None None None))
                  [1; 0; 0]%Q 1) db
             = Threw e).
Proof.
  intros db. split; [vm_compute; reflexivity|].
  destruct (no_cache_no_index true "/data" [mkCollectionRow "c1" "docs" md3]
              [emb1; emb2] fs0
              [DbCreateCollection "notes" md3 false "id9" true;
               DbAddEmbedding input_e1 "e3";
               DbDeleteEmbedding "c1" "e1"])
    as (_ & _ & _ & _ & Ha & Hd & _ & Hs).
  split; [apply Ha|]. split; [apply Hd|]. apply Hs.
Defined.
